(** * AI Auditor: crawl and analysis pipeline

    A shallow embedding of [src/services/googleService.ts] (the multi-provider
    service: [extractJson], [fetchWithProxy], [discoverUrlsToCrawl],
    [analyzePageBatch], [fetchAllUrlsFromSitemaps], [analyzeRobotsTxt],
    [analyzeAdsTxt]) and of [calculateCrawlSummary] in
    [src/components/Auditor.tsx], with the properties the specification
    states about them. *)

From Stdlib Require Import ZArith QArith_base Ascii String DecimalString List Lia.
From stdpp Require Import base decidable option list strings gmap.

Local Open Scope string_scope.
Local Open Scope list_scope.
Local Open Scope Z_scope.

(** ** JavaScript string primitives

    Strings are sequences of code units; [string] holds the code units
    below 256, one [ascii] each.  Index-returning primitives return [-1]
    for "not found", as in JavaScript. *)

Module JsString.

Fixpoint find_index (p : ascii -> bool) (s : string) : option nat :=
  match s with
  | EmptyString => None
  | String a s' => if p a then Some O else S <$> find_index p s'
  end.

Fixpoint find_last_index (p : ascii -> bool) (s : string) : option nat :=
  match s with
  | EmptyString => None
  | String a s' =>
      match find_last_index p s' with
      | Some n => Some (S n)
      | None => if p a then Some O else None
      end
  end.

Definition index_result (o : option nat) : Z :=
  match o with Some n => Z.of_nat n | None => -1 end.

(** [s.indexOf(c)] and [s.lastIndexOf(c)] for a one-character [c]. *)
Definition indexOf (s : string) (c : ascii) : Z :=
  index_result (find_index (Ascii.eqb c) s).

Definition lastIndexOf (s : string) (c : ascii) : Z :=
  index_result (find_last_index (Ascii.eqb c) s).

(** [s.substring(a, b)]: both indices are clamped to [0, length], and
    swapped when [a > b]. *)
Definition clamp (len x : Z) : Z := Z.max 0 (Z.min x len).

Definition substring (s : string) (a b : Z) : string :=
  let len := Z.of_nat (String.length s) in
  let a' := clamp len a in
  let b' := clamp len b in
  let lo := Z.min a' b' in
  let hi := Z.max a' b' in
  String.substring (Z.to_nat lo) (Z.to_nat (hi - lo)) s.

(** [s.startsWith(p)]. *)
Fixpoint startsWith (s p : string) : bool :=
  match p, s with
  | EmptyString, _ => true
  | String _ _, EmptyString => false
  | String b p', String a s' => Ascii.eqb a b && startsWith s' p'
  end.

(** [s.includes(p)]. *)
Fixpoint includes (s p : string) : bool :=
  startsWith s p ||
  match s with
  | EmptyString => false
  | String _ s' => includes s' p
  end.

(** [s.endsWith(p)]: [p] occurs at position [length s - length p]. *)
Definition endsWith (s p : string) : bool :=
  let ls := String.length s in
  let lp := String.length p in
  (lp <=? ls)%nat && String.eqb (String.substring (ls - lp) lp s) p.

(** [s.toLowerCase()]: the upper-case letters among the code units below
    256 are 'A'..'Z' and 192..222 without 215. *)
Definition lower_ascii (a : ascii) : ascii :=
  let n := nat_of_ascii a in
  if ((65 <=? n) && (n <=? 90) || (192 <=? n) && (n <=? 222) && negb (n =? 215))%nat
  then ascii_of_nat (n + 32)
  else a.

Fixpoint toLowerCase (s : string) : string :=
  match s with
  | EmptyString => EmptyString
  | String a s' => String (lower_ascii a) (toLowerCase s')
  end.

(** Regular-expression pieces used by [message.match(/status (\d+)/)]. *)
Definition is_digit (a : ascii) : bool :=
  let n := nat_of_ascii a in ((48 <=? n) && (n <=? 57))%nat.

Fixpoint take_digits (s : string) : string :=
  match s with
  | EmptyString => EmptyString
  | String a s' => if is_digit a then String a (take_digits s') else EmptyString
  end.

Fixpoint drop (n : nat) (s : string) : string :=
  match n, s with
  | O, _ => s
  | S _, EmptyString => EmptyString
  | S n', String _ s' => drop n' s'
  end.

(** The Number value of a natural number: a Number is a double, which
    holds 53 significant bits.  An integer with more is rounded to the
    nearest integer that has 53, and to the one with the even significand
    when two are as near: [e] bits are dropped, [q] is the significand
    kept and [r] the value of the bits dropped.

    The exponent of a double ends at 1023: from [2 ^ 1024 - 2 ^ 970] on,
    the Number value is [Infinity], which is not an integer.  The
    definition goes on rounding there, and what is stated about a Number
    value below stops at that bound. *)
Definition round_to_double (n : Z) : Z :=
  let e := Z.log2 n - 52 in
  if e <=? 0 then n
  else
    let q := n / 2 ^ e in
    let r := n mod 2 ^ e in
    let half := 2 ^ (e - 1) in
    if (half <? r) || ((r =? half) && Z.odd q) then (q + 1) * 2 ^ e else q * 2 ^ e.

(** [parseInt(ds, 10)] on a string of decimal digits: the Number value of
    the integer the digits denote.  (The language lets an implementation
    read the digits after the twentieth as zeros; V8 reads them all.) *)
Definition digit_value (a : ascii) : Z := Z.of_nat (nat_of_ascii a) - 48.

Fixpoint parseInt_from (acc : Z) (ds : string) : Z :=
  match ds with
  | EmptyString => acc
  | String a ds' => parseInt_from (10 * acc + digit_value a) ds'
  end.

Definition parseInt (ds : string) : Z := round_to_double (parseInt_from 0 ds).

(** Code units [s.trim()] removes. *)
Definition is_space (a : ascii) : bool :=
  let n := nat_of_ascii a in
  ((9 <=? n) && (n <=? 13) || (n =? 32) || (n =? 160))%nat.

Fixpoint trimStart (s : string) : string :=
  match s with
  | EmptyString => EmptyString
  | String a s' => if is_space a then trimStart s' else s
  end.

Fixpoint trimEnd (s : string) : string :=
  match s with
  | EmptyString => EmptyString
  | String a s' =>
      match trimEnd s' with
      | EmptyString => if is_space a then EmptyString else String a EmptyString
      | t => String a t
      end
  end.

Definition trim (s : string) : string := trimEnd (trimStart s).

(** [s.split(sep)] for a one-character separator. *)
Fixpoint split (sep : ascii) (s : string) : list string :=
  match s with
  | EmptyString => [EmptyString]
  | String a s' =>
      if Ascii.eqb a sep then EmptyString :: split sep s'
      else
        match split sep s' with
        | [] => [String a EmptyString]
        | piece :: pieces => String a piece :: pieces
        end
  end.

(** Truthiness of a string: only the empty string is falsy. *)
Definition truthy (s : string) : bool :=
  match s with EmptyString => false | _ => true end.

(** [a || b] on strings. *)
Definition or_else (a b : string) : string := if truthy a then a else b.

End JsString.

(** ** [extractJson] *)

Definition extractJson (text : string) : string :=
  let firstBracket := JsString.indexOf text "{" in
  let firstSquare := JsString.indexOf text "[" in
  if (firstBracket =? -1) && (firstSquare =? -1) then ""
  else
    let startIndex :=
      if firstBracket =? -1 then firstSquare
      else if firstSquare =? -1 then firstBracket
      else Z.min firstBracket firstSquare in
    let lastBracket := JsString.lastIndexOf text "}" in
    let lastSquare := JsString.lastIndexOf text "]" in
    let endIndex := Z.max lastBracket lastSquare in
    if (startIndex =? -1) || (endIndex =? -1) || (endIndex <? startIndex) then ""
    else JsString.substring text startIndex (endIndex + 1).

(** ** Data model ([src/types.ts]) *)

Record MetaTag := {
  mt_name : option string;
  mt_property : option string;
  mt_content : string
}.

Record Link := { link_url : string; link_anchor : string }.

Record CrawledPage := {
  url : string;
  status : Z;
  title : string;
  description : string;
  h1 : string;
  contentPreview : string;
  internalLinks : Z;
  externalLinks : Z;
  metaTags : list MetaTag;
  internalLinkUrls : option (list Link);
  externalLinkUrls : option (list Link)
}.

Record CrawlSummary := {
  totalPages : Z;
  healthyPages : Z;
  redirects : Z;
  clientErrors : Z;
  serverErrors : Z
}.

Record SitemapEntry := {
  loc : string;
  lastmod : string;
  changefreq : string;
  priority : Q
}.

Inductive RuleType := Allow | Disallow.

Record RobotsTxtRule := {
  userAgent : string;
  rule_type : RuleType;
  path : string
}.

Record RobotsTxtAnalysis := {
  rules : list RobotsTxtRule;
  sitemaps : list string
}.

Record AdsTxtRecord := {
  domain : string;
  publisherId : string;
  relationship : string;
  tagId : option string
}.

Record AdsTxtAnalysis := {
  records : list AdsTxtRecord;
  malformedLines : list string
}.

Inductive Provider := gemini | openai | openrouter.

Record AIAgent := {
  agent_id : option Z;
  user_id : string;
  agent_name : string;
  provider : Provider;
  model : string;
  system_prompt : string;
  is_default : option bool
}.

Definition provider_name (p : Provider) : string :=
  match p with
  | gemini => "gemini"
  | openai => "openai"
  | openrouter => "openrouter"
  end.

(** ** [calculateCrawlSummary] ([src/components/Auditor.tsx])

    [pages.reduce(f, init)] is a left fold; the accumulator object is created
    by the call and updated in place by [f]. *)

Definition summary_step (acc : CrawlSummary) (page : CrawledPage) : CrawlSummary :=
  let acc := {| totalPages := totalPages acc + 1;
                healthyPages := healthyPages acc;
                redirects := redirects acc;
                clientErrors := clientErrors acc;
                serverErrors := serverErrors acc |} in
  if (200 <=? status page) && (status page <? 300) then
    {| totalPages := totalPages acc;
       healthyPages := healthyPages acc + 1;
       redirects := redirects acc;
       clientErrors := clientErrors acc;
       serverErrors := serverErrors acc |}
  else if (300 <=? status page) && (status page <? 400) then
    {| totalPages := totalPages acc;
       healthyPages := healthyPages acc;
       redirects := redirects acc + 1;
       clientErrors := clientErrors acc;
       serverErrors := serverErrors acc |}
  else if (400 <=? status page) && (status page <? 500) then
    {| totalPages := totalPages acc;
       healthyPages := healthyPages acc;
       redirects := redirects acc;
       clientErrors := clientErrors acc + 1;
       serverErrors := serverErrors acc |}
  else if 500 <=? status page then
    {| totalPages := totalPages acc;
       healthyPages := healthyPages acc;
       redirects := redirects acc;
       clientErrors := clientErrors acc;
       serverErrors := serverErrors acc + 1 |}
  else acc.

Definition calculateCrawlSummary (pages : list CrawledPage) : CrawlSummary :=
  fold_left summary_step pages
    {| totalPages := 0; healthyPages := 0; redirects := 0;
       clientErrors := 0; serverErrors := 0 |}.

(** ** Asynchronous computations

    An [async] function runs against the outside world (the network, the CORS
    proxy, the model backends).  [W] is the state of that world; a computation
    threads it and either returns a value or throws an [Error] with a
    message. *)

Inductive result (A : Type) :=
| Ok (value : A)
| Err (message : string).
Arguments Ok {A} value.
Arguments Err {A} message.

Definition Promise (W A : Type) : Type := W -> result A * W.

Definition resolve {W A} (a : A) : Promise W A := fun w => (Ok a, w).

Definition throw {W A} (message : string) : Promise W A := fun w => (Err message, w).

Definition await {W A B} (m : Promise W A) (k : A -> Promise W B) : Promise W B :=
  fun w =>
    match m w with
    | (Ok a, w') => k a w'
    | (Err e, w') => (Err e, w')
    end.

(** [try { m } catch (error) { h(error.message) }] *)
Definition try_catch {W A} (m : Promise W A) (h : string -> Promise W A) : Promise W A :=
  fun w =>
    match m w with
    | (Ok a, w') => (Ok a, w')
    | (Err e, w') => h e w'
    end.

(** A synchronous step that may throw. *)
Definition lift {W A} (r : result A) : Promise W A := fun w => (r, w).

Notation "'let*' x ':=' m 'in' k" := (await m (fun x => k))
  (at level 10, x name, m at level 100, k at level 200).

(** [Promise.all(xs.map(f))], with the calls of [f] run in list order.  It
    is used only with an [f] that never rejects. *)
Fixpoint promise_all {W A B} (f : A -> Promise W B) (xs : list A) : Promise W (list B) :=
  match xs with
  | [] => resolve []
  | x :: xs' =>
      let* y := f x in
      let* ys := promise_all f xs' in
      resolve (y :: ys)
  end.

(** ** The environment

    Browser and provider interfaces the service calls but does not define. *)

(** What [new URL(...)] exposes to the service. *)
Record URL := {
  protocol : string;
  hostname : string;
  origin : string;
  href : string
}.

(** The data a model request is built from; the fixed wording of each
    prompt is determined by the constructor. *)
Inductive Request :=
| PageBatchRequest (system : string) (pages : list (string * string))
| SitemapRequest (system : string) (sitemapContent : string)
| RobotsRequest (system : string) (robotsTxtContent : string)
| AdsRequest (system : string) (adsTxtContent : string).

(** The reply of a chat-completions endpoint, as far as the service reads
    it: [response.ok], and [await response.json()] read at
    [.error.message] and at [.choices[0].message.content].  [Err] stands for
    the exception the read throws. *)
Record ChatBody := {
  error_message : result string;
  choice_content : result string
}.

Record ChatResponse := {
  response_ok : bool;
  response_json : result ChatBody
}.

(** The value of [JSON.parse(text)] where the service expects an array of
    items: an array, a non-array object with exactly one key whose value is
    an array, or anything else.  Items are read at the type [Item]. *)
Inductive ParsedList (Item : Type) :=
| IsArray (items : list Item)
| SingleKeyArray (key : string) (items : list Item)
| NotArray.
Arguments IsArray {Item} items.
Arguments SingleKeyArray {Item} key items.
Arguments NotArray {Item}.

(** An item of the page-analysis array; [None] is a field that is missing
    or [null] (what [item?.f ?? d] replaces by [d]). *)
Record PageItem := {
  item_url : option string;
  item_status : option Z;
  item_title : option string;
  item_description : option string;
  item_h1 : option string;
  item_contentPreview : option string;
  item_internalLinks : option Z;
  item_externalLinks : option Z;
  item_metaTags : option (list MetaTag);
  item_internalLinkUrls : option (list Link);
  item_externalLinkUrls : option (list Link)
}.

Record EntryItem := {
  item_loc : option string;
  item_lastmod : option string;
  item_changefreq : option string;
  item_priority : option Q
}.

Record Env (W : Type) := {
  (** One attempt of [fetchWithProxy]: [Some body] when the proxy answers
      with [response.ok]; [None] when anything in the attempt throws
      (malformed URI, network error, abort on timeout, non-2xx status). *)
  proxy_attempt : string -> W -> option string * W;
  (** [new URL(url)] and [new URL(href, base)]; [None] when it throws. *)
  URL_new : string -> option URL;
  URL_new_base : string -> string -> option URL;
  (** [href] attributes of [doc.querySelectorAll('a[href]')], in document
      order, for [doc] parsed from the given HTML. *)
  anchor_hrefs : string -> list string;
  (** [ai.models.generateContent(...)] of the Gemini SDK, reduced to
      [response.text] ([None] when undefined). *)
  gemini_generateContent : string -> string -> Request -> W -> result (option string) * W;
  (** [fetch(apiUrl, ...)] against a chat-completions endpoint; the first
      argument tells OpenRouter from OpenAI. *)
  chat_completions : bool -> string -> string -> Request -> W -> result ChatResponse * W;
  (** [JSON.parse], read at the shape each caller expects. *)
  JSON_parse_error : string -> result (option string);
  JSON_parse_pages : string -> result (ParsedList PageItem);
  JSON_parse_entries : string -> result (ParsedList EntryItem);
  JSON_parse_robots : string -> result (option RobotsTxtAnalysis);
  JSON_parse_ads : string -> result (option AdsTxtAnalysis)
}.
Arguments proxy_attempt {W} _ _ _.
Arguments URL_new {W} _ _.
Arguments URL_new_base {W} _ _ _.
Arguments anchor_hrefs {W} _ _.
Arguments gemini_generateContent {W} _ _ _ _ _.
Arguments chat_completions {W} _ _ _ _ _ _.
Arguments JSON_parse_error {W} _ _.
Arguments JSON_parse_pages {W} _ _.
Arguments JSON_parse_entries {W} _ _.
Arguments JSON_parse_robots {W} _ _.
Arguments JSON_parse_ads {W} _ _.

(** ** The service *)

Section Service.

Context {W : Type} (E : Env W).

(** *** [fetchWithProxy] *)

Definition decimal (n : nat) : string := NilEmpty.string_of_uint (Nat.to_uint n).

Definition fetch_failed_message (url : string) (retries : nat) : string :=
  "Failed to fetch content for " +:+ url +:+ " after " +:+ decimal retries +:+
  " attempts. The site might be blocking the CORS proxy, or the proxy service may be temporarily unavailable. Please try again later.".

(** [for (let i = 0; i < retries; i++)]; [remaining] is [retries - i]. *)
Fixpoint fetch_loop (url : string) (retries i remaining : nat) : Promise W string :=
  match remaining with
  | O => throw ("Failed to fetch content for " +:+ url +:+ ".")
  | S remaining' =>
      fun w =>
        match proxy_attempt E url w with
        | (Some body, w') => (Ok body, w')
        | (None, w') =>
            if (i =? retries - 1)%nat
            then (Err (fetch_failed_message url retries), w')
            else fetch_loop url retries (S i) remaining' w'
        end
  end.

Definition fetchWithProxy_retries (url : string) (retries : nat) : Promise W string :=
  fetch_loop url retries 0 retries.

Definition fetchWithProxy (url : string) : Promise W string :=
  fetchWithProxy_retries url 3.

(** *** [analyzePageBatch] *)

Record FetchedPage := {
  fp_url : string;
  fp_html : option string;
  fp_status : Z;
  fp_error : option string
}.

(** [message.match(/status (\d+)/)]: the digits of the leftmost match. *)
Fixpoint match_status (message : string) : option string :=
  let here :=
    if JsString.startsWith message "status " then
      let ds := JsString.take_digits (JsString.drop 7 message) in
      if JsString.truthy ds then Some ds else None
    else None in
  match here with
  | Some ds => Some ds
  | None =>
      match message with
      | EmptyString => None
      | String _ rest => match_status rest
      end
  end.

Definition inferred_status (message : string) : Z :=
  match match_status message with
  | Some ds => JsString.parseInt ds
  | None => 500
  end.

Definition fetch_page (u : string) : Promise W FetchedPage :=
  try_catch
    (let* html := fetchWithProxy u in
     resolve {| fp_url := u; fp_html := Some html; fp_status := 200; fp_error := None |})
    (fun message =>
       resolve {| fp_url := u; fp_html := None;
                  fp_status := inferred_status message;
                  fp_error := Some message |}).

Definition has_html (p : FetchedPage) : bool :=
  match fp_html p with Some _ => true | None => false end.

Definition fetch_failed_page (page : FetchedPage) : CrawledPage :=
  {| url := fp_url page;
     status := fp_status page;
     title := "Fetch Failed";
     description := JsString.or_else (default "" (fp_error page)) "N/A";
     h1 := "N/A";
     contentPreview := "N/A";
     internalLinks := 0;
     externalLinks := 0;
     metaTags := [];
     internalLinkUrls := None;
     externalLinkUrls := None |}.

Definition page_for_prompt (p : FetchedPage) : string * string :=
  (fp_url p, default "" (fp_html p)).

Definition page_of_item (item : PageItem) : CrawledPage :=
  {| url := default "Unknown URL" (item_url item);
     status := default 500 (item_status item);
     title := default "N/A" (item_title item);
     description := default "N/A" (item_description item);
     h1 := default "N/A" (item_h1 item);
     contentPreview := default "N/A" (item_contentPreview item);
     internalLinks := default 0 (item_internalLinks item);
     externalLinks := default 0 (item_externalLinks item);
     metaTags := default [] (item_metaTags item);
     internalLinkUrls := Some (default [] (item_internalLinkUrls item));
     externalLinkUrls := Some (default [] (item_externalLinkUrls item)) |}.

Definition double_quote : ascii := "034".

(** The text [{"error"]. *)
Definition error_object_prefix : string :=
  String "{" (String double_quote ("error" +:+ String double_quote EmptyString)).

(** The "early exit" of the Gemini branch.  Its [throw] sits inside a [try]
    whose [catch] is empty, so the block never leaves through an
    exception. *)
Definition gemini_error_probe (responseText : string) : result unit :=
  if JsString.truthy responseText
     && JsString.startsWith (JsString.trim responseText) error_object_prefix
  then
    match
      match JSON_parse_error E responseText with
      | Ok (Some message) =>
          if JsString.truthy message
          then Err ("Gemini API Error: " +:+ message)
          else Ok tt
      | Ok None => Ok tt
      | Err e => Err e
      end
    with
    | Ok _ => Ok tt
    | Err _ => Ok tt
    end
  else Ok tt.

Definition TypeError_indexOf_undefined : string :=
  "Cannot read properties of undefined (reading 'indexOf')".

Definition api_name (isOpenRouter : bool) : string :=
  if isOpenRouter then "OpenRouter" else "OpenAI".

(** [if (parsedData && !Array.isArray(parsedData) && Object.keys(parsedData).length === 1
        && Array.isArray(Object.values(parsedData)[0])) parsedData = Object.values(parsedData)[0]] *)
Definition unwrap_single_key {Item} (parsedData : ParsedList Item) : ParsedList Item :=
  match parsedData with
  | SingleKeyArray _ items => IsArray items
  | other => other
  end.

Definition page_batch_gemini (agent : AIAgent) (apiKey : string)
    (validPagesForPrompt : list (string * string)) : Promise W (ParsedList PageItem) :=
  let* responseText :=
    gemini_generateContent E apiKey (model agent)
      (PageBatchRequest (system_prompt agent) validPagesForPrompt) in
  match responseText with
  | None => throw TypeError_indexOf_undefined
  | Some responseText =>
      let* _ := lift (gemini_error_probe responseText) in
      let jsonText := extractJson responseText in
      if String.eqb jsonText ""
      then throw "AI returned a response without valid JSON content."
      else lift (JSON_parse_pages E jsonText)
  end.

Definition page_batch_chat (isOpenRouter : bool) (agent : AIAgent) (apiKey : string)
    (validPagesForPrompt : list (string * string)) : Promise W (ParsedList PageItem) :=
  let* response :=
    chat_completions E isOpenRouter apiKey (model agent)
      (PageBatchRequest (system_prompt agent) validPagesForPrompt) in
  if negb (response_ok response) then
    let* errorData := lift (response_json response) in
    let* message := lift (error_message errorData) in
    throw (api_name isOpenRouter +:+ " API Error: " +:+ message)
  else
    let* result := lift (response_json response) in
    let* content := lift (choice_content result) in
    let extractedContent := extractJson content in
    let* parsedData := lift (JSON_parse_pages E extractedContent) in
    resolve (unwrap_single_key parsedData).

(** The body of the [try] block, up to [aiResults]. *)
Definition page_batch_model (agent : AIAgent) (apiKey : string)
    (validPagesForPrompt : list (string * string)) : Promise W (list CrawledPage) :=
  let* parsedData :=
    match provider agent with
    | gemini => page_batch_gemini agent apiKey validPagesForPrompt
    | openai => page_batch_chat false agent apiKey validPagesForPrompt
    | openrouter => page_batch_chat true agent apiKey validPagesForPrompt
    end in
  match parsedData with
  | IsArray items => resolve (map page_of_item items)
  | _ => throw "Parsed data is not an array."
  end.

Definition isRateLimitError (message : string) : bool :=
  JsString.includes message "429"
  || JsString.includes message "RESOURCE_EXHAUSTED"
  || JsString.includes message "rate limit".

Definition analysis_error_message (message : string) : string :=
  if isRateLimitError message
  then "API rate limit exceeded. Please wait a moment and try again."
  else JsString.or_else message "Could not parse AI response.".

Definition analysis_failed_page (errorMessage : string) (page : FetchedPage) : CrawledPage :=
  {| url := fp_url page;
     status := 500;
     title := "Analysis Failed";
     description := errorMessage;
     h1 := "N/A";
     contentPreview := "N/A";
     internalLinks := 0;
     externalLinks := 0;
     metaTags := [];
     internalLinkUrls := None;
     externalLinkUrls := None |}.

Definition key_required_message (agent : AIAgent) : string :=
  (match provider agent with gemini => "Gemini" | _ => "OpenAI" end) +:+ " API key is required.".

Definition analyzePageBatch (urls : list string) (agent : AIAgent) (apiKey : string)
  : Promise W (list CrawledPage) :=
  if negb (JsString.truthy apiKey) then throw (key_required_message agent)
  else
    let* pagesWithHtml := promise_all fetch_page urls in
    let validPages := filter (fun p => has_html p = true) pagesWithHtml in
    let failedPages := filter (fun p => has_html p = false) pagesWithHtml in
    let results := map fetch_failed_page failedPages in
    if (length validPages =? 0)%nat then resolve results
    else
      let validPagesForPrompt := map page_for_prompt validPages in
      try_catch
        (let* aiResults := page_batch_model agent apiKey validPagesForPrompt in
         resolve (results ++ aiResults))
        (fun message =>
           let errorMessage := analysis_error_message message in
           let errorResults := map (analysis_failed_page errorMessage) validPages in
           resolve (results ++ errorResults)).

(** *** Loops

    A [while] loop whose body awaits the network: [step] is one iteration
    ([None] when the loop condition is false).  [fuel] bounds the number
    of iterations run; the result [None] is a loop that has not ended
    within them. *)

Fixpoint while_loop {S : Type} (step : S -> W -> option (S * W))
    (fuel : nat) (s : S) (w : W) : option (S * W) :=
  match fuel with
  | O => None
  | Datatypes.S fuel' =>
      match step s w with
      | None => Some (s, w)
      | Some (s', w') => while_loop step fuel' s' w'
      end
  end.

(** The state after at most [n] iterations. *)
Fixpoint iterations {S : Type} (step : S -> W -> option (S * W))
    (n : nat) (s : S) (w : W) : S * W :=
  match n with
  | O => (s, w)
  | Datatypes.S n' =>
      match step s w with
      | None => (s, w)
      | Some (s', w') => iterations step n' s' w'
      end
  end.

(** *** [discoverUrlsToCrawl] *)

Record CrawlState := {
  crawl_queue : list (string * Z);
  crawl_index : nat;
  visited : gset string;
  foundUrls : list string
}.

(** [set.add(x)] on an insertion-ordered [Set] kept as a list. *)
Definition ordered_add (x : string) (s : list string) : list string :=
  if decide (x ∈ s) then s else s ++ [x].

(** [s.split('#')[0]] *)
Definition without_fragment (s : string) : string :=
  default "" (head (JsString.split "#" s)).

(** The body of [links.forEach(link => ...)] for one link. *)
Definition visit_link (baseUrl : URL) (pageUrl : string) (depth : Z)
    (st : CrawlState) (hrefAttr : string) : CrawlState :=
  if negb (JsString.truthy hrefAttr)
     || JsString.startsWith hrefAttr "mailto:"
     || JsString.startsWith hrefAttr "tel:"
  then st
  else
    match URL_new_base E hrefAttr pageUrl with
    | None => st
    | Some urlObject =>
        if negb (String.eqb (protocol urlObject) "http:")
           && negb (String.eqb (protocol urlObject) "https:")
        then st
        else
          let absoluteUrl := without_fragment (href urlObject) in
          if String.eqb (hostname urlObject) (hostname baseUrl)
             && negb (bool_decide (absoluteUrl ∈ visited st))
          then
            {| crawl_queue := crawl_queue st ++ [(absoluteUrl, depth + 1)];
               crawl_index := crawl_index st;
               visited := {[absoluteUrl]} ∪ visited st;
               foundUrls := ordered_add absoluteUrl (foundUrls st) |}
          else st
    end.

Definition advance (st : CrawlState) : CrawlState :=
  {| crawl_queue := crawl_queue st;
     crawl_index := Datatypes.S (crawl_index st);
     visited := visited st;
     foundUrls := foundUrls st |}.

(** One iteration of [while (i < queue.length)]. *)
Definition crawl_step (baseUrl : URL) (crawlDepth : Z)
    (st : CrawlState) (w : W) : option (CrawlState * W) :=
  match crawl_queue st !! crawl_index st with
  | None => None
  | Some (pageUrl, depth) =>
      let st := advance st in
      if crawlDepth <=? depth then Some (st, w)
      else
        match fetchWithProxy pageUrl w with
        | (Ok html, w') =>
            Some (fold_left (visit_link baseUrl pageUrl depth) (anchor_hrefs E html) st, w')
        | (Err _, w') => Some (st, w')
        end
  end.

Definition TypeError_invalid_URL : string := "Invalid URL".

Definition crawl_init (startUrl : string) : CrawlState :=
  {| crawl_queue := [(startUrl, 0)];
     crawl_index := 0;
     visited := {[startUrl]} ∪ ∅;
     foundUrls := ordered_add startUrl [] |}.

Definition discoverUrlsToCrawl (fuel : nat) (startUrl : string) (crawlDepth : Z)
    (w : W) : option (result (list string) * W) :=
  match URL_new E startUrl with
  | None => Some (Err TypeError_invalid_URL, w)
  | Some baseUrl =>
      match while_loop (crawl_step baseUrl crawlDepth) fuel (crawl_init startUrl) w with
      | None => None
      | Some (st, w') => Some (Ok (foundUrls st), w')
      end
  end.

(** *** [parseSitemapWithAI] *)

Definition entry_of_item (item : EntryItem) : SitemapEntry :=
  {| loc := default "" (item_loc item);
     lastmod := default "" (item_lastmod item);
     changefreq := default "" (item_changefreq item);
     priority := default (1 # 2)%Q (item_priority item) |}.

Definition entries_of_parsed (parsedData : ParsedList EntryItem) : Promise W (list SitemapEntry) :=
  match parsedData with
  | IsArray items =>
      resolve (filter (fun item => JsString.truthy (loc item) = true) (map entry_of_item items))
  | _ => throw "Parsed data is not an array."
  end.

Definition sitemap_gemini (sitemapContent : string) (agent : AIAgent) (apiKey : string)
  : Promise W (list SitemapEntry) :=
  let* text :=
    gemini_generateContent E apiKey (model agent)
      (SitemapRequest (system_prompt agent) sitemapContent) in
  match text with
  | None => throw TypeError_indexOf_undefined
  | Some text =>
      let jsonText := extractJson text in
      if String.eqb jsonText "" || String.eqb jsonText "[]" then resolve []
      else
        let* parsedData := lift (JSON_parse_entries E jsonText) in
        entries_of_parsed parsedData
  end.

Definition sitemap_chat (isOpenRouter : bool) (sitemapContent : string)
    (agent : AIAgent) (apiKey : string) : Promise W (list SitemapEntry) :=
  let* response :=
    chat_completions E isOpenRouter apiKey (model agent)
      (SitemapRequest (system_prompt agent) sitemapContent) in
  if negb (response_ok response)
  then throw (api_name isOpenRouter +:+ " request failed")
  else
    let* result := lift (response_json response) in
    let* content := lift (choice_content result) in
    let extractedContent := extractJson content in
    let* parsedData := lift (JSON_parse_entries E extractedContent) in
    entries_of_parsed (unwrap_single_key parsedData).

Definition parseSitemapWithAI (sitemapContent : string) (agent : AIAgent) (apiKey : string)
  : Promise W (list SitemapEntry) :=
  try_catch
    (match provider agent with
     | gemini => sitemap_gemini sitemapContent agent apiKey
     | openai => sitemap_chat false sitemapContent agent apiKey
     | openrouter => sitemap_chat true sitemapContent agent apiKey
     end)
    (fun message =>
       if isRateLimitError message
       then throw "API rate limit exceeded while parsing sitemap. Please wait a moment and try again."
       else throw ("Failed to get valid sitemap data from the AI. Reason: " +:+ message)).

(** *** [fetchAllUrlsFromSitemaps] *)

Record SitemapState := {
  sitemap_queue : list string;
  visitedSitemaps : gset string;
  allEntries : list SitemapEntry
}.

Definition is_sitemap_loc (l : string) : bool :=
  JsString.endsWith (JsString.toLowerCase l) ".xml"
  || JsString.endsWith (JsString.toLowerCase l) ".xml.gz".

(** The body of [for (const entry of entries)]. *)
Definition collect_entry (st : SitemapState) (entry : SitemapEntry) : SitemapState :=
  if is_sitemap_loc (loc entry) then
    if bool_decide (loc entry ∈ visitedSitemaps st) then st
    else
      {| sitemap_queue := sitemap_queue st ++ [loc entry];
         visitedSitemaps := visitedSitemaps st;
         allEntries := allEntries st |}
  else
    {| sitemap_queue := sitemap_queue st;
       visitedSitemaps := visitedSitemaps st;
       allEntries := allEntries st ++ [entry] |}.

(** The two awaits of the [try] block of the loop. *)
Definition fetch_sitemap (currentSitemapUrl : string) (agent : AIAgent) (apiKey : string)
  : Promise W (list SitemapEntry) :=
  let* sitemapContent := fetchWithProxy currentSitemapUrl in
  parseSitemapWithAI sitemapContent agent apiKey.

(** One iteration of [while (queue.length > 0)]; the pause between
    iterations is not modelled. *)
Definition sitemap_step (agent : AIAgent) (apiKey : string)
    (st : SitemapState) (w : W) : option (SitemapState * W) :=
  match sitemap_queue st with
  | [] => None
  | currentSitemapUrl :: rest =>
      if bool_decide (currentSitemapUrl ∈ visitedSitemaps st) then
        Some ({| sitemap_queue := rest;
                 visitedSitemaps := visitedSitemaps st;
                 allEntries := allEntries st |}, w)
      else
        let st := {| sitemap_queue := rest;
                     visitedSitemaps := {[currentSitemapUrl]} ∪ visitedSitemaps st;
                     allEntries := allEntries st |} in
        match fetch_sitemap currentSitemapUrl agent apiKey w with
        | (Ok entries, w') => Some (fold_left collect_entry entries st, w')
        | (Err _, w') => Some (st, w')
        end
  end.

(** [line.substring(line.indexOf(':') + 1).trim()] *)
Definition sitemap_line_url (line : string) : string :=
  JsString.trim
    (JsString.substring line (JsString.indexOf line ":" + 1)
       (Z.of_nat (String.length line))).

Definition newline : ascii := "010".

Definition robots_sitemap_urls (robotsTxtContent : string) : list string :=
  let sitemapLines :=
    filter (fun line => JsString.startsWith (JsString.toLowerCase line) "sitemap:" = true)
           (JsString.split newline robotsTxtContent) in
  filter (fun sitemapUrl => JsString.truthy sitemapUrl = true)
         (map sitemap_line_url sitemapLines).

(** The queue before the loop: the sitemaps [robots.txt] names, or the
    default location when it names none or cannot be fetched. *)
Definition seed_queue (origin : string) (w : W) : list string * W :=
  let '(seeded, w1) :=
    match fetchWithProxy (origin +:+ "/robots.txt") w with
    | (Ok robotsTxtContent, w1) => (robots_sitemap_urls robotsTxtContent, w1)
    | (Err _, w1) => ([], w1)
    end in
  if (length seeded =? 0)%nat then ([origin +:+ "/sitemap.xml"], w1) else (seeded, w1).

Definition fetchAllUrlsFromSitemaps (fuel : nat) (siteUrl : string) (agent : AIAgent)
    (apiKey : string) (w : W) : option (result (list SitemapEntry) * W) :=
  if negb (JsString.truthy apiKey)
  then Some (Err (provider_name (provider agent) +:+ " API key is required."), w)
  else
    match URL_new E siteUrl with
    | None => Some (Err TypeError_invalid_URL, w)
    | Some u =>
        let '(queue, w1) := seed_queue (origin u) w in
        match while_loop (sitemap_step agent apiKey) fuel
                {| sitemap_queue := queue; visitedSitemaps := ∅; allEntries := [] |} w1 with
        | None => None
        | Some (st, w') => Some (Ok (allEntries st), w')
        end
    end.

(** *** [analyzeRobotsTxt] and [analyzeAdsTxt] *)

Definition well_known (siteUrl file : string) : Promise W string :=
  match URL_new E siteUrl with
  | None => throw TypeError_invalid_URL
  | Some u => fetchWithProxy (origin u +:+ file)
  end.

(** The second [try] block of both analyzers: [empty] is what the Gemini
    branch returns for a reply without JSON, [parse] is [JSON.parse] read at
    the analysis type ([None] when the shape test fails). *)
Definition analyze_with_model {A : Type} (request : Request) (empty : A)
    (parse : string -> result (option A)) (shape_message : string)
    (agent : AIAgent) (apiKey : string) : Promise W A :=
  let checked (parsed : option A) : Promise W A :=
    match parsed with
    | Some a => resolve a
    | None => throw shape_message
    end in
  match provider agent with
  | gemini =>
      let* text := gemini_generateContent E apiKey (model agent) request in
      match text with
      | None => throw TypeError_indexOf_undefined
      | Some text =>
          let jsonText := extractJson text in
          if String.eqb jsonText "" then resolve empty
          else let* parsedData := lift (parse jsonText) in checked parsedData
      end
  | p =>
      let isOpenRouter := match p with openrouter => true | _ => false end in
      let* response := chat_completions E isOpenRouter apiKey (model agent) request in
      if negb (response_ok response)
      then throw (api_name isOpenRouter +:+ " request failed")
      else
        let* result := lift (response_json response) in
        let* content := lift (choice_content result) in
        let* parsedData := lift (parse content) in
        checked parsedData
  end.

Definition empty_robots : RobotsTxtAnalysis := {| rules := []; sitemaps := [] |}.

Definition analyzeRobotsTxt (siteUrl : string) (agent : AIAgent) (apiKey : string)
  : Promise W RobotsTxtAnalysis :=
  if negb (JsString.truthy apiKey)
  then throw (provider_name (provider agent) +:+ " API key is required.")
  else
    fun w =>
      match well_known siteUrl "/robots.txt" w with
      | (Err _, w') => (Ok empty_robots, w')
      | (Ok robotsTxtContent, w') =>
          try_catch
            (analyze_with_model
               (RobotsRequest (system_prompt agent) robotsTxtContent)
               empty_robots (JSON_parse_robots E)
               "Parsed data does not match the expected RobotsTxtAnalysis structure."
               agent apiKey)
            (fun message =>
               if isRateLimitError message
               then throw "API rate limit exceeded. Please wait a moment and try again. If the problem persists, check your API plan and billing details."
               else throw ("Failed to get valid robots.txt data from the AI. Reason: " +:+ message))
            w'
      end.

Definition empty_ads : AdsTxtAnalysis := {| records := []; malformedLines := [] |}.

Definition analyzeAdsTxt (siteUrl : string) (agent : AIAgent) (apiKey : string)
  : Promise W AdsTxtAnalysis :=
  if negb (JsString.truthy apiKey)
  then throw (provider_name (provider agent) +:+ " API key is required.")
  else
    fun w =>
      match well_known siteUrl "/ads.txt" w with
      | (Err _, w') => (Ok empty_ads, w')
      | (Ok adsTxtContent, w') =>
          try_catch
            (analyze_with_model
               (AdsRequest (system_prompt agent) adsTxtContent)
               empty_ads (JSON_parse_ads E)
               "Parsed data does not match the expected AdsTxtAnalysis structure."
               agent apiKey)
            (fun message =>
               if isRateLimitError message
               then throw "API rate limit exceeded. Please wait a moment and try again."
               else throw ("Failed to get valid ads.txt data from the AI. Reason: " +:+ message))
            w'
      end.

End Service.

(** ** Specification of the JSON span

    [json_span text r]: [r] is what the span heuristic should return on
    [text], stated on the shape of [text] rather than on indices. *)

Definition is_open (a : ascii) : bool := Ascii.eqb "{" a || Ascii.eqb "[" a.
Definition is_close (a : ascii) : bool := Ascii.eqb "}" a || Ascii.eqb "]" a.

Fixpoint free_of (p : ascii -> bool) (s : string) : Prop :=
  match s with
  | EmptyString => True
  | String a s' => p a = false /\ free_of p s'
  end.

Inductive json_span (text : string) : string -> Prop :=
| span_no_open :
    free_of is_open text ->
    json_span text ""
| span_no_close pre o rest :
    text = pre +:+ String o rest ->
    free_of is_open pre -> is_open o = true ->
    free_of is_close rest ->
    json_span text ""
| span_found pre o mid c post :
    text = pre +:+ String o (mid +:+ String c post) ->
    free_of is_open pre -> is_open o = true ->
    is_close c = true -> free_of is_close post ->
    json_span text (String o (mid +:+ String c "")).

(** ** Counting pages by status

    Used to state what [calculateCrawlSummary] computes. *)


Fixpoint count_pages (f : Z -> bool) (pages : list CrawledPage) : Z :=
  match pages with
  | [] => 0
  | page :: pages' => (if f (status page) then 1 else 0) + count_pages f pages'
  end.

Definition is_2xx (s : Z) : bool := (200 <=? s) && (s <? 300).
Definition is_3xx (s : Z) : bool := (300 <=? s) && (s <? 400).
Definition is_4xx (s : Z) : bool := (400 <=? s) && (s <? 500).
Definition from_500 (s : Z) : bool := 500 <=? s.
Definition below_200 (s : Z) : bool := s <? 200.

Definition bucket_sum (s : CrawlSummary) : Z :=
  healthyPages s + redirects s + clientErrors s + serverErrors s.

Definition page_with_status (s : Z) : CrawledPage :=
  {| url := "https://example.com/"; status := s; title := "N/A";
     description := "N/A"; h1 := "N/A"; contentPreview := "N/A";
     internalLinks := 0; externalLinks := 0; metaTags := [];
     internalLinkUrls := Some []; externalLinkUrls := Some [] |}.

(** ** The fetches of a batch

    [fetch_outcomes urls w]: the outcome of [fetchWithProxy] for each URL
    of a batch, in the order [promise_all] runs them, and the world
    after the last one.  It is used to state what [analyzePageBatch]
    returns. *)

Section BatchSpec.

Context {W : Type} (E : Env W).

Fixpoint fetch_outcomes (urls : list string) (w : W) : list (string * result string) * W :=
  match urls with
  | [] => ([], w)
  | u :: urls' =>
      let '(r, w1) := fetchWithProxy E u w in
      let '(rs, w2) := fetch_outcomes urls' w1 in
      ((u, r) :: rs, w2)
  end.

(** The URLs whose fetch failed, with the error message. *)
Fixpoint failed_fetches (outcomes : list (string * result string)) : list (string * string) :=
  match outcomes with
  | [] => []
  | (u, Err message) :: rest => (u, message) :: failed_fetches rest
  | (_, Ok _) :: rest => failed_fetches rest
  end.

(** The URLs whose fetch succeeded, with the HTML. *)
Fixpoint fetched_pages (outcomes : list (string * result string)) : list (string * string) :=
  match outcomes with
  | [] => []
  | (u, Ok html) :: rest => (u, html) :: fetched_pages rest
  | (_, Err _) :: rest => fetched_pages rest
  end.

(** The record the specification asks for a URL whose fetch failed with
    [message]. *)
Definition fetch_failed_placeholder (failure : string * string) : CrawledPage :=
  let '(u, message) := failure in
  {| url := u;
     status := match match_status message with
               | Some digits => JsString.parseInt digits
               | None => 500
               end;
     title := "Fetch Failed";
     description := message;
     h1 := "N/A";
     contentPreview := "N/A";
     internalLinks := 0;
     externalLinks := 0;
     metaTags := [];
     internalLinkUrls := None;
     externalLinkUrls := None |}.

(** The record the specification asks for a fetched URL when the analysis
    of its batch failed with [message]. *)
Definition analysis_failed_placeholder (description : string) (page : string * string)
  : CrawledPage :=
  {| url := fst page;
     status := 500;
     title := "Analysis Failed";
     description := description;
     h1 := "N/A";
     contentPreview := "N/A";
     internalLinks := 0;
     externalLinks := 0;
     metaTags := [];
     internalLinkUrls := None;
     externalLinkUrls := None |}.

Definition rate_limit_message : string :=
  "API rate limit exceeded. Please wait a moment and try again.".

(** The entry of [pagesWithHtml] for one outcome. *)
Definition fetched_page_of (outcome : string * result string) : FetchedPage :=
  match outcome with
  | (u, Ok html) =>
      {| fp_url := u; fp_html := Some html; fp_status := 200; fp_error := None |}
  | (u, Err message) =>
      {| fp_url := u; fp_html := None; fp_status := inferred_status message;
         fp_error := Some message |}
  end.

End BatchSpec.

(** ** Vocabulary of the statements *)

(** [p] occurs in [s]. *)
Definition contains (s p : string) : Prop :=
  exists pre post, s = pre +:+ p +:+ post.

(** An error message of the rate-limit class. *)
Definition rate_limited (message : string) : Prop :=
  contains message "429" \/ contains message "RESOURCE_EXHAUSTED"
  \/ contains message "rate limit".

(** [l] ends, up to the case of its letters, in ".xml" or ".xml.gz". *)
Definition ends_like_sitemap (l : string) : Prop :=
  exists pre suffix,
    l = pre +:+ suffix /\
    (JsString.toLowerCase suffix = ".xml" \/ JsString.toLowerCase suffix = ".xml.gz").

(** One result per URL of the batch: as many results as URLs, with the
    same URLs up to order. *)
Definition accounts_for (urls : list string) (results : list CrawledPage) : Prop :=
  length results = length urls /\ map url results ≡ₚ urls.

(** ** The sitemaps of a traversal *)

Section SitemapSpec.

Context {W : Type} (E : Env W).

(** The sitemap URLs the loop of [fetchAllUrlsFromSitemaps] fetches from a
    given state on, in order: the queued URLs that are not skipped. *)
Fixpoint fetched_sitemaps (agent : AIAgent) (apiKey : string) (fuel : nat)
    (st : SitemapState) (w : W) : list string :=
  match fuel with
  | O => []
  | S fuel' =>
      match sitemap_queue st, sitemap_step E agent apiKey st w with
      | current :: _, Some (st', w') =>
          if bool_decide (current ∈ visitedSitemaps st)
          then fetched_sitemaps agent apiKey fuel' st' w'
          else current :: fetched_sitemaps agent apiKey fuel' st' w'
      | _, _ => []
      end
  end.

End SitemapSpec.

(** ** The pages of a crawl *)

Section CrawlSpec.

Context {W : Type} (E : Env W).

(** [u] is the address, without its fragment, of a link that resolves to
    an [http(s)] URL on the host of [baseUrl]. *)
Definition linked_on_host (baseUrl : URL) (u : string) : Prop :=
  exists hrefAttr pageUrl urlObject,
    URL_new_base E hrefAttr pageUrl = Some urlObject /\
    hostname urlObject = hostname baseUrl /\
    (protocol urlObject = "http:" \/ protocol urlObject = "https:") /\
    u = without_fragment (href urlObject).

(** [u] parses to a URL on the host of [baseUrl]. *)
Definition same_host (baseUrl : URL) (u : string) : Prop :=
  exists parsed, URL_new E u = Some parsed /\ hostname parsed = hostname baseUrl.

(** The URL API keeps the host of a URL when the fragment is cut off its
    serialisation. *)
Definition fragment_law : Prop :=
  forall hrefAttr pageUrl urlObject,
    URL_new_base E hrefAttr pageUrl = Some urlObject ->
    exists parsed,
      URL_new E (without_fragment (href urlObject)) = Some parsed /\
      hostname parsed = hostname urlObject.

(** A queue entry is the seed at depth 0, or a link on the host found on
    a queued page one level up, itself below the depth limit. *)
Definition entry_ok (baseUrl : URL) (startUrl : string) (crawlDepth : Z)
    (queue : list (string * Z)) (entry : string * Z) : Prop :=
  (fst entry = startUrl /\ snd entry = 0) \/
  (linked_on_host baseUrl (fst entry) /\
   0 < snd entry <= crawlDepth /\
   exists parent, (parent, snd entry - 1) ∈ queue).

(** The queue entries the loop has not taken yet. *)
Definition pending (st : CrawlState) : list (string * Z) :=
  drop (crawl_index st) (crawl_queue st).

(** How many more links may be followed from an entry. *)
Definition levels_left (crawlDepth : Z) (entry : string * Z) : nat :=
  Z.to_nat (crawlDepth - snd entry).

Definition crawl_inv (baseUrl : URL) (startUrl : string) (crawlDepth : Z)
    (st : CrawlState) : Prop :=
  foundUrls st = map fst (crawl_queue st) /\
  (forall u, u ∈ visited st <-> u ∈ foundUrls st) /\
  NoDup (foundUrls st) /\
  Forall (entry_ok baseUrl startUrl crawlDepth (crawl_queue st)) (crawl_queue st).

End CrawlSpec.

(** ** Example environments

    Scripted worlds on which the service is run in the examples below.  The
    world state counts the calls made to the outside. *)

Module Example.

(** A small URL resolver: absolute [http(s)] URLs, and root-relative paths
    against such a base. *)
Definition url_scheme (s : string) : option (string * string) :=
  if JsString.startsWith s "https://" then Some ("https:", JsString.drop 8 s)
  else if JsString.startsWith s "http://" then Some ("http:", JsString.drop 7 s)
  else None.

Definition ends_host (a : ascii) : bool :=
  Ascii.eqb a "/" || Ascii.eqb a "#" || Ascii.eqb a "?".

Fixpoint host_part (s : string) : string :=
  match s with
  | EmptyString => EmptyString
  | String a s' => if ends_host a then EmptyString else String a (host_part s')
  end.

Definition parse_url (s : string) : option URL :=
  match url_scheme s with
  | Some (proto, rest) =>
      Some {| protocol := proto;
              hostname := host_part rest;
              origin := proto +:+ "//" +:+ host_part rest;
              href := s |}
  | None => None
  end.

Definition resolve_url (hrefAttr base : string) : option URL :=
  match parse_url hrefAttr with
  | Some u => Some u
  | None =>
      if JsString.startsWith hrefAttr "/" then
        match parse_url base with
        | Some b => parse_url (origin b +:+ hrefAttr)
        | None => None
        end
      else None
  end.

Record Scenario := {
  (** body served for a URL, if any *)
  site : string -> option string;
  gemini_reply : Request -> result (option string);
  chat_reply : Request -> result ChatResponse;
  parse_pages : string -> result (ParsedList PageItem);
  parse_entries : string -> result (ParsedList EntryItem)
}.

(** Pages are written one [href] per line. *)
Definition env (s : Scenario) : Env nat :=
  {| proxy_attempt := fun u calls => (site s u, S calls);
     URL_new := parse_url;
     URL_new_base := resolve_url;
     anchor_hrefs := JsString.split newline;
     gemini_generateContent := fun _ _ request calls => (gemini_reply s request, S calls);
     chat_completions := fun _ _ _ request calls => (chat_reply s request, S calls);
     JSON_parse_error := fun _ => Err "Unexpected token";
     JSON_parse_pages := parse_pages s;
     JSON_parse_entries := parse_entries s;
     JSON_parse_robots := fun _ => Err "Unexpected token";
     JSON_parse_ads := fun _ => Err "Unexpected token" |}.

Definition agent : AIAgent :=
  {| agent_id := Some 1; user_id := "user"; agent_name := "Auditor";
     provider := gemini; model := "gemini-2.5-flash";
     system_prompt := "You are an SEO auditor."; is_default := Some true |}.

Definition lines (ls : list string) : string :=
  fold_right (fun l rest => l +:+ String newline rest) "" ls.

(** Nothing can be fetched, and the model backends are unreachable. *)
Definition offline : Scenario :=
  {| site := fun _ => None;
     gemini_reply := fun _ => Err "Failed to fetch";
     chat_reply := fun _ => Err "Failed to fetch";
     parse_pages := fun _ => Err "Unexpected token";
     parse_entries := fun _ => Err "Unexpected token" |}.

(** One page can be fetched; the model answers with an empty array. *)
Definition empty_answer : Scenario :=
  {| site := fun u => if String.eqb u "https://example.com/" then Some "<html></html>" else None;
     gemini_reply := fun _ => Ok (Some "Here is the analysis: []");
     chat_reply := fun _ => Err "Failed to fetch";
     parse_pages := fun text => if String.eqb text "[]" then Ok (IsArray []) else Err "Unexpected token";
     parse_entries := fun _ => Err "Unexpected token" |}.

(** One page can be fetched; the model backend is over quota. *)
Definition over_quota : Scenario :=
  {| site := fun u => if String.eqb u "https://example.com/" then Some "<html></html>" else None;
     gemini_reply := fun _ => Err "got status: 429 Too Many Requests";
     chat_reply := fun _ => Err "Failed to fetch";
     parse_pages := fun _ => Err "Unexpected token";
     parse_entries := fun _ => Err "Unexpected token" |}.

(** The site of scenario A: the home page links to two pages of the site
    and to one page elsewhere. *)
Definition small_site : Scenario :=
  {| site := fun u =>
       if String.eqb u "https://example.com/"
       then Some (lines ["/about"; "https://example.com/contact#form";
                         "https://other.org/"; "mailto:hello@example.com"])
       else if String.eqb u "https://example.com/about"
       then Some (lines ["/"; "/team"])
       else None;
     gemini_reply := fun _ => Err "Failed to fetch";
     chat_reply := fun _ => Err "Failed to fetch";
     parse_pages := fun _ => Err "Unexpected token";
     parse_entries := fun _ => Err "Unexpected token" |}.

(** [[{"loc":"u1"},{"loc":"u2"}]] *)
Definition quoted (s : string) : string :=
  String double_quote (s +:+ String double_quote "").

Fixpoint json_items (locs : list string) : string :=
  match locs with
  | [] => ""
  | [l] => "{" +:+ quoted "loc" +:+ ":" +:+ quoted l +:+ "}"
  | l :: locs' => "{" +:+ quoted "loc" +:+ ":" +:+ quoted l +:+ "}," +:+ json_items locs'
  end.

Definition json_locs (locs : list string) : string := "[" +:+ json_items locs +:+ "]".

Definition item_of_loc (l : string) : EntryItem :=
  {| item_loc := Some l; item_lastmod := None; item_changefreq := None;
     item_priority := None |}.

Definition index_xml : string :=
  "<sitemapindex><sitemap><loc>https://example.com/pages.XML</loc></sitemap><sitemap><loc>https://example.com/sitemap_index.xml</loc></sitemap></sitemapindex>".

Definition pages_xml : string :=
  "<urlset><url><loc>https://example.com/a</loc></url><url><loc>https://example.com/b</loc></url><url><loc>https://example.com/a</loc></url></urlset>".

Definition index_locs : list string :=
  ["https://example.com/pages.XML"; "https://example.com/sitemap_index.xml"].

Definition pages_locs : list string :=
  ["https://example.com/a"; "https://example.com/b"; "https://example.com/a"].

(** [robots.txt] names a sitemap index; the index names a sitemap of pages
    and itself; the sitemap of pages lists one URL twice.  The model
    transcribes each file faithfully. *)
Definition nested_sitemaps : Scenario :=
  {| site := fun u =>
       if String.eqb u "https://example.com/robots.txt"
       then Some (lines ["User-agent: *"; "Sitemap: https://example.com/sitemap_index.xml"])
       else if String.eqb u "https://example.com/sitemap_index.xml" then Some index_xml
       else if String.eqb u "https://example.com/pages.XML" then Some pages_xml
       else None;
     gemini_reply := fun request =>
       match request with
       | SitemapRequest _ content =>
           if String.eqb content index_xml
           then Ok (Some ("Here is the sitemap: " +:+ json_locs index_locs))
           else if String.eqb content pages_xml
           then Ok (Some (json_locs pages_locs))
           else Ok (Some "[]")
       | _ => Err "Failed to fetch"
       end;
     chat_reply := fun _ => Err "Failed to fetch";
     parse_pages := fun _ => Err "Unexpected token";
     parse_entries := fun text =>
       if String.eqb text (json_locs index_locs)
       then Ok (IsArray (map item_of_loc index_locs))
       else if String.eqb text (json_locs pages_locs)
       then Ok (IsArray (map item_of_loc pages_locs))
       else Err "Unexpected token" |}.

Definition entry (l : string) : SitemapEntry :=
  {| loc := l; lastmod := ""; changefreq := ""; priority := (1 # 2)%Q |}.

(** The state in which the traversal of [nested_sitemaps] starts. *)
Definition seeded : SitemapState :=
  {| sitemap_queue := ["https://example.com/sitemap_index.xml"];
     visitedSitemaps := ∅; allEntries := [] |}.

(** A batch of two URLs; only the first can be fetched in [over_quota]. *)
Definition batch : list string := ["https://example.com/"; "https://example.com/x"].

(** A batch none of whose URLs can be fetched in [offline]; the first
    carries a "status <digits>" fragment. *)
Definition unreachable_batch : list string :=
  ["https://example.com/status 404"; "https://example.com/x"].

End Example.

(** ** The attempts of a fetch *)

Section FetchSpec.

Context {W : Type} (E : Env W).

(** The world after [k] attempts on [url] in a row that all failed;
    [None] when one of them succeeded. *)
Fixpoint after_failures (url : string) (k : nat) (w : W) : option W :=
  match k with
  | O => Some w
  | S k' =>
      match proxy_attempt E url w with
      | (None, w') => after_failures url k' w'
      | (Some _, _) => None
      end
  end.

End FetchSpec.

(** ** Obscuring stored keys ([src/services/crypto.ts])

    The strings of this development hold code units below 256, the ones
    [btoa] accepts; on other text [btoa], and with it [encrypt], throws. *)

(** The platform's base64 functions. *)
Record Base64 := {
  btoa : string -> string;
  (** [None] when [atob] throws. *)
  atob : string -> option string
}.

Definition SECRET_KEY : string := "ai-auditor-pro-secret-key".

(** [String.fromCharCode(charCode ^ keyCode)]: the exclusive or of two
    code units, bit by bit. *)
Definition xor_code (char key : ascii) : ascii :=
  match char, key with
  | Ascii c0 c1 c2 c3 c4 c5 c6 c7, Ascii k0 k1 k2 k3 k4 k5 k6 k7 =>
      Ascii (xorb c0 k0) (xorb c1 k1) (xorb c2 k2) (xorb c3 k3)
            (xorb c4 k4) (xorb c5 k5) (xorb c6 k6) (xorb c7 k7)
  end.

(** [keyChars[i % keyChars.length]] *)
Definition key_char (i : nat) : ascii :=
  let keyChars := list_ascii_of_string SECRET_KEY in
  default "000"%char (keyChars !! (i mod length keyChars)%nat).

(** [chars.map((char, i) => ...)], from index [i] on. *)
Fixpoint xor_chars (i : nat) (chars : list ascii) : list ascii :=
  match chars with
  | [] => []
  | char :: chars' => xor_code char (key_char i) :: xor_chars (S i) chars'
  end.

(** [text.split('').map(...).join('')] *)
Definition xor_with_key (text : string) : string :=
  string_of_list_ascii (xor_chars 0 (list_ascii_of_string text)).

Definition encrypt (B : Base64) (text : string) : string :=
  if negb (JsString.truthy text) then ""
  else btoa B (xor_with_key text).

(** Only [atob] can throw inside the [try] block. *)
Definition decrypt (B : Base64) (encryptedText : string) : string :=
  if negb (JsString.truthy encryptedText) then ""
  else
    match atob B encryptedText with
    | Some decodedText => xor_with_key decodedText
    | None => encryptedText
    end.

(** ** Base64 as browsers implement it

    [btoa] and [atob] after the HTML standard (forgiving-base64 decode),
    for the examples. *)

Module StandardBase64.

Definition alphabet : list ascii :=
  list_ascii_of_string "ABCDEFGHIJKLMNOPQRSTUVWXYZabcdefghijklmnopqrstuvwxyz0123456789+/".

Definition sextet_char (n : nat) : ascii := default "="%char (alphabet !! n).

Fixpoint encode (bytes : list nat) : list ascii :=
  match bytes with
  | [] => []
  | [a] => [sextet_char (a / 4); sextet_char (a mod 4 * 16); "="; "="]%char%nat
  | [a; b] =>
      [sextet_char (a / 4); sextet_char (a mod 4 * 16 + b / 16);
       sextet_char (b mod 16 * 4); "="%char]%nat
  | a :: b :: c :: rest =>
      sextet_char (a / 4) :: sextet_char (a mod 4 * 16 + b / 16)
      :: sextet_char (b mod 16 * 4 + c / 64) :: sextet_char (c mod 64)
      :: encode rest
  end%nat.

Fixpoint position (a : ascii) (l : list ascii) : option nat :=
  match l with
  | [] => None
  | b :: l' => if Ascii.eqb a b then Some O else S <$> position a l'
  end.

Definition char_sextet (a : ascii) : option nat := position a alphabet.

Definition is_ascii_whitespace (a : ascii) : bool :=
  let n := nat_of_ascii a in
  ((n =? 9) || (n =? 10) || (n =? 12) || (n =? 13) || (n =? 32))%nat.

Definition strip_padding (data : list ascii) : list ascii :=
  match reverse data with
  | "="%char :: "="%char :: rest => reverse rest
  | "="%char :: rest => reverse rest
  | _ => data
  end.

Fixpoint decode (sextets : list nat) : list nat :=
  match sextets with
  | a :: b :: c :: d :: rest =>
      (a * 4 + b / 16) :: (b mod 16 * 16 + c / 4) :: (c mod 4 * 64 + d) :: decode rest
  | [a; b; c] => [a * 4 + b / 16; b mod 16 * 16 + c / 4]
  | [a; b] => [a * 4 + b / 16]
  | _ => []
  end%nat.

Definition standard_btoa (s : string) : string :=
  string_of_list_ascii (encode (map nat_of_ascii (list_ascii_of_string s))).

Definition standard_atob (s : string) : option string :=
  let data := filter (fun a => is_ascii_whitespace a = false) (list_ascii_of_string s) in
  let data := if (length data mod 4 =? 0)%nat then strip_padding data else data in
  if (length data mod 4 =? 1)%nat then None
  else
    match mapM char_sextet data with
    | Some sextets => Some (string_of_list_ascii (map ascii_of_nat (decode sextets)))
    | None => None
    end.

Definition base64 : Base64 := {| btoa := standard_btoa; atob := standard_atob |}.

End StandardBase64.

(** ** Google sign-in and the Indexing API
       ([src/services/googleService.ts], [initAndGetSites] and
       [submitUrlsToGoogle])

    Both functions hand a callback to the Google Identity Services token
    client; what they report depends on whether, and with what, the
    callback is invoked. *)

(** The [tokenResponse] the callback receives; an absent field is the
    empty string (both are falsy, and the fields are read in no other
    way). *)
Record TokenResponse := {
  token_error : string;
  token_error_description : string;
  access_token : string
}.

(** The answer to the publish request for one URL, as far as the loop
    reads it: [response.ok], [response.status], and
    [(await response.json()).error?.message] ([Err] when reading it
    throws, [None] when it is undefined). *)
Record PublishResponse := {
  publish_ok : bool;
  publish_status : nat;
  publish_error_message : result (option string)
}.

(** The answer of the Search Console sites endpoint: [response.ok],
    [response.status], [(await response.json()).error.message] for an
    answer that is not ok, and for one that is the [siteUrl] fields of
    [(await response.json()).siteEntry], in order ([None] when
    [siteEntry] is undefined, [Err] when a read throws). *)
Record SitesResponse := {
  sites_ok : bool;
  sites_status : nat;
  sites_error_message : result string;
  sites_entries : result (option (list string))
}.

Record GoogleEnv (W : Type) := {
  (** [typeof window.google !== 'undefined' &&
       typeof window.google.accounts !== 'undefined'] *)
  identity_services_loaded : W -> bool;
  (** [window.location.origin] *)
  location_origin : string;
  (** [initTokenClient({client_id, scope, callback})] followed by
      [requestAccessToken({prompt})]: [Err] when one of the two throws,
      [Ok None] when the callback is never invoked, [Ok (Some r)] when it
      is invoked with [r]. *)
  request_token : string -> string -> string -> W -> result (option TokenResponse) * W;
  (** [fetch] of [urlNotifications:publish] for a URL, with the access
      token. *)
  publish_notification : string -> string -> W -> result PublishResponse * W;
  (** [fetch] of the list of sites, with the access token. *)
  fetch_sites : string -> W -> result SitesResponse * W
}.
Arguments identity_services_loaded {W} _ _.
Arguments location_origin {W} _.
Arguments request_token {W} _ _ _ _ _.
Arguments publish_notification {W} _ _ _ _.
Arguments fetch_sites {W} _ _ _.

(** How a promise made with [new Promise((resolve, reject) => ...)], or a
    pair of callbacks, ends. *)
Inductive Settled (A : Type) :=
| Resolved (value : A)
| Rejected (message : string)
| Unsettled.
Arguments Resolved {A} value.
Arguments Rejected {A} message.
Arguments Unsettled {A}.

Record SubmissionCounts := { success : nat; failed : nat }.

Section Google.

Context {W : Type} (G : GoogleEnv W).

Definition oauth_configuration_errors : list string :=
  ["popup_closed_by_user"; "access_denied"; "immediate_failed"; "invalid_client"].

Definition authentication_error_message (tokenResponse : TokenResponse) : string :=
  let message :=
    "Google authentication error: " +:+
    JsString.or_else (token_error_description tokenResponse) (token_error tokenResponse) in
  if bool_decide (token_error tokenResponse ∈ oauth_configuration_errors)
  then
    message +:+ String newline (String newline
      ("This commonly happens if the app's URL ('" +:+ location_origin G +:+
       "') is not in the " +:+
       String double_quote ("Authorized JavaScript origins" +:+ String double_quote
       " list in your Google Cloud project's OAuth settings. Please check your configuration.")))
  else message.

(** The body of [for (let i = 0; i < urls.length; i++)] and the rest of
    the loop; [urls] are the URLs from index [i] on, [progress] the calls
    of [onProgress] so far.  What goes to the console is not modelled. *)
Fixpoint publish_loop (accessToken : string) (total : nat) (urls : list string)
    (i successCount failedCount : nat) (progress : list (nat * nat)) (w : W)
  : SubmissionCounts * list (nat * nat) * W :=
  match urls with
  | [] => ({| success := successCount; failed := failedCount |}, progress, w)
  | url :: urls' =>
      let '(answer, w') := publish_notification G accessToken url w in
      let '(successCount, failedCount) :=
        match answer with
        | Ok response =>
            if negb (publish_ok response) then
              match publish_error_message response with
              | Ok errorMessage => (successCount, S failedCount)
              | Err _ => (successCount, S failedCount)
              end
            else (S successCount, failedCount)
        | Err _ => (successCount, S failedCount)
        end in
      publish_loop accessToken total urls' (S i) successCount failedCount
        (progress ++ [(S i, total)]) w'
  end.

(** The promise [submitUrlsToGoogle] returns, with the calls of
    [onProgress] in order. *)
Definition submitUrlsToGoogle (urls : list string) (clientId : string) (w : W)
  : Settled SubmissionCounts * list (nat * nat) * W :=
  if negb (JsString.truthy clientId)
  then (Rejected "Google Client ID is not configured.", [], w)
  else if negb (identity_services_loaded G w)
  then (Rejected "Google Identity Services library not loaded.", [], w)
  else
    match request_token G clientId "https://www.googleapis.com/auth/indexing" "consent" w with
    | (Err message, w') => (Rejected message, [], w')
    | (Ok None, w') => (Unsettled, [], w')
    | (Ok (Some tokenResponse), w') =>
        if JsString.truthy (token_error tokenResponse)
        then (Rejected (authentication_error_message tokenResponse), [], w')
        else
          let '(counts, progress, w'') :=
            publish_loop (access_token tokenResponse) (length urls) urls 0 0 0 [] w' in
          (Resolved counts, progress, w'')
    end.

Definition SCOPES : string :=
  "https://www.googleapis.com/auth/webmasters.readonly https://www.googleapis.com/auth/indexing".

(** The inner [try] block of the callback of [initAndGetSites]. *)
Definition sites_of_token (accessToken : string) : Promise W (list string) :=
  let* response := fetch_sites G accessToken in
  if negb (sites_ok response) then
    let* message := lift (sites_error_message response) in
    throw (JsString.or_else message
             ("Failed to fetch sites with status: " +:+ decimal (sites_status response)))
  else
    let* siteEntry := lift (sites_entries response) in
    resolve (match siteEntry with
             | Some siteUrls => filter (fun siteUrl => JsString.truthy siteUrl = true) siteUrls
             | None => []
             end).

(** [initAndGetSites]: [Resolved sites] is a call of [onSuccess],
    [Rejected message] a call of [onError], [Unsettled] is neither. *)
Definition initAndGetSites (clientId : string) (w : W) : Settled (list string) * W :=
  if negb (JsString.truthy clientId)
  then (Rejected "Google Client ID is not configured. Please add it in the Settings page.", w)
  else if negb (identity_services_loaded G w)
  then (Rejected "Google Identity Services library has not loaded. This might be due to a network issue or an ad blocker.", w)
  else
    match request_token G clientId SCOPES "" w with
    | (Err message, w') => (Rejected message, w')
    | (Ok None, w') => (Unsettled, w')
    | (Ok (Some tokenResponse), w') =>
        if JsString.truthy (token_error tokenResponse)
        then (Rejected (authentication_error_message tokenResponse), w')
        else
          match sites_of_token (access_token tokenResponse) w' with
          | (Ok sites, w'') => (Resolved sites, w'')
          | (Err message, w'') => (Rejected message, w'')
          end
    end.

End Google.

(** ** Submitting URLs to IndexNow ([src/services/indexingService.ts]) *)

Record IndexNowPayload := {
  payload_host : string;
  payload_key : string;
  payload_keyLocation : string;
  payload_urlList : list string
}.

(** The answer of the IndexNow endpoint as far as it is read:
    [response.ok], [response.status], and for an answer that is not ok the
    text of [errorData.message || JSON.stringify(errorData)] for
    [errorData = await response.json()] ([Err] when reading it throws). *)
Record IndexNowResponse := {
  indexnow_ok : bool;
  indexnow_status : nat;
  indexnow_error_detail : result string
}.

Record IndexNowEnv (W : Type) := {
  (** The [POST] of a payload to [https://api.indexnow.org/indexnow]. *)
  indexnow_fetch : IndexNowPayload -> W -> result IndexNowResponse * W
}.
Arguments indexnow_fetch {W} _ _ _.

Section IndexNow.

Context {W : Type} (E : Env W) (N : IndexNowEnv W).

Definition submitToIndexNow (urls : list string) (apiKey siteUrl : string)
  : Promise W IndexNowResponse :=
  if negb (JsString.truthy apiKey) then throw "IndexNow API key is not provided."
  else if (length urls =? 0)%nat then throw "No URLs to submit."
  else
    match URL_new E siteUrl with
    | None => throw TypeError_invalid_URL
    | Some siteUrlObject =>
        let payload :=
          {| payload_host := hostname siteUrlObject;
             payload_key := apiKey;
             payload_keyLocation := origin siteUrlObject +:+ "/" +:+ apiKey +:+ ".txt";
             payload_urlList := urls |} in
        let* response := indexnow_fetch N payload in
        if negb (indexnow_ok response) then
          let errorDetails :=
            "Request failed with status " +:+ decimal (indexnow_status response) +:+ "." in
          let errorDetails :=
            match indexnow_error_detail response with
            | Ok detail => errorDetails +:+ " Message: " +:+ detail
            | Err _ => errorDetails
            end in
          throw errorDetails
        else resolve response
    end.

End IndexNow.

(** ** Stored keys ([src/components/SettingsPage.tsx])

    [ApiKeys] objects are read and written field by field, and as a whole
    by [Object.entries] and [Object.fromEntries]: maps from field names to
    strings. *)

Abbreviation ApiKeys := (gmap string string).

Definition emptyApiKeys : ApiKeys :=
  list_to_map
    [("gemini", ""); ("openAI", ""); ("openRouter", ""); ("googleIndexing", "");
     ("indexNow", ""); ("googleClientId", ""); ("stripePublicKey", "");
     ("stripeSecretKey", ""); ("paypalClientId", ""); ("paypalClientSecret", "")].

(** The fields the inputs of the two forms write. *)
Definition personal_key_inputs : list string :=
  ["gemini"; "openAI"; "openRouter"; "googleClientId"; "indexNow";
   "stripePublicKey"; "stripeSecretKey"; "paypalClientId"].

Definition default_key_inputs : list string :=
  ["gemini"; "openAI"; "openRouter"; "googleClientId"; "stripeSecretKey";
   "paypalClientSecret"].

Section SettingsPage.

Context (B : Base64).

(** The state a form starts in: [{ ...emptyApiKeys, ...decryptedKeys }]
    for [storedKeys = user.api_keys || emptyApiKeys]. *)
Definition decrypted_keys (stored : option ApiKeys) : ApiKeys :=
  (decrypt B <$> default emptyApiKeys stored) ∪ emptyApiKeys.

(** [onChange] of the input of a field: [k => ({...k, field: value})]. *)
Definition key_typed (k : ApiKeys) (change : string * string) : ApiKeys :=
  <[fst change := snd change]> k.

(** What [handleApiKeysSave] and [handleAdminSettingsSave] store. *)
Definition encrypted_keys (apiKeys : ApiKeys) : ApiKeys := encrypt B <$> apiKeys.

(** The keys stored after a visit of the settings page on which the
    given changes were typed in and saved. *)
Definition keys_saved (stored : option ApiKeys) (changes : list (string * string))
  : ApiKeys :=
  encrypted_keys (fold_left key_typed changes (decrypted_keys stored)).

End SettingsPage.

(** ** The audit ([src/components/Auditor.tsx]) *)

Definition ANALYSIS_BATCH_SIZE : nat := 3.

(** [xs.slice(a, b)] for [0 <= a <= b]. *)
Definition slice {A} (xs : list A) (a b : nat) : list A := take (b - a) (drop a xs).

Record SitemapSummary := {
  totalUrls : nat;
  hasLastmod : nat;
  averagePriority : Q;
  changeFreqDistribution : gmap string nat
}.

(** The names [{}] inherits from [Object.prototype]: at these,
    [acc[freq]] reads the inherited property and not a count. *)
Definition Object_prototype_names : list string :=
  ["constructor"; "__proto__"; "hasOwnProperty"; "isPrototypeOf";
   "propertyIsEnumerable"; "toLocaleString"; "toString"; "valueOf";
   "__defineGetter__"; "__defineSetter__"; "__lookupGetter__"; "__lookupSetter__"].

(** The callback of the second [reduce]; it is modelled for a
    [changefreq] outside [Object_prototype_names]. *)
Definition count_changefreq (acc : gmap string nat) (e : SitemapEntry) : gmap string nat :=
  let freq := JsString.or_else (changefreq e) "not set" in
  <[freq := (default O (acc !! freq) + 1)%nat]> acc.

(** Rational arithmetic stands for the floating-point arithmetic of
    [totalPriority] and [averagePriority]: the program rounds each sum
    and the quotient to a double, which is not modelled, and nothing is
    stated below about [averagePriority].  [e.priority || 0] is
    [e.priority] for a number. *)
Definition calculateSitemapSummary (entries : list SitemapEntry) : SitemapSummary :=
  if (length entries =? 0)%nat then
    {| totalUrls := 0; hasLastmod := 0; averagePriority := 0%Q;
       changeFreqDistribution := ∅ |}
  else
    let totalUrls := length entries in
    let hasLastmod := length (filter (fun e => JsString.truthy (lastmod e) = true) entries) in
    let totalPriority := fold_left (fun sum e => Qplus sum (priority e)) entries 0%Q in
    let averagePriority :=
      if (0 <? totalUrls)%nat
      then Qdiv totalPriority (inject_Z (Z.of_nat totalUrls))
      else 0%Q in
    let changeFreqDistribution := fold_left count_changefreq entries ∅ in
    {| totalUrls := totalUrls; hasLastmod := hasLastmod;
       averagePriority := averagePriority;
       changeFreqDistribution := changeFreqDistribution |}.

Inductive AnalysisMode := crawl_mode | sitemap_mode | robots_mode | ads_mode.

(** [auditResultData], without the user, the agent and the timestamp. *)
Record AuditResultData := {
  crawled_data : list CrawledPage;
  crawl_summary : option CrawlSummary;
  robots_txt_data : option RobotsTxtAnalysis;
  sitemap_data : option (list SitemapEntry);
  sitemap_summary : option SitemapSummary;
  ads_txt_data : option AdsTxtAnalysis;
  analysis_mode : AnalysisMode
}.

(** The value of [indexNowStatus] and of [googleStatus]. *)
Record SubmissionStatus := {
  status_success : bool;
  status_message : string
}.

Section Auditor.

Context {W : Type} (E : Env W) (B : Base64) (G : GoogleEnv W) (N : IndexNowEnv W).

(** [provider.charAt(0).toUpperCase() + provider.slice(1)] *)
Definition providerName (p : Provider) : string :=
  match p with
  | gemini => "Gemini"
  | openai => "Openai"
  | openrouter => "Openrouter"
  end.

(** [keys?.[provider]]; an absent key is the empty string. *)
Definition key_of_provider (keys : option ApiKeys) (p : Provider) : string :=
  default "" (keys ≫= (fun k => k !! provider_name p)).

(** The choice of the key in [handleAnalysis]: the message passed to
    [setError], or the key.  [trialExpired] is the outcome of the test of
    [user.plan_expiry] against the clock. *)
Definition choose_api_key (user_api_keys default_api_keys : option ApiKeys)
    (trialExpired : bool) (selectedAgent : AIAgent) : result string :=
  let userApiKey := key_of_provider user_api_keys (provider selectedAgent) in
  let apiKey := if JsString.truthy userApiKey then decrypt B userApiKey else "" in
  let '(apiKey, isUsingDefaultKey) :=
    if negb (JsString.truthy apiKey) then
      let defaultApiKey := key_of_provider default_api_keys (provider selectedAgent) in
      if JsString.truthy defaultApiKey then (decrypt B defaultApiKey, true)
      else (apiKey, false)
    else (apiKey, false) in
  if isUsingDefaultKey && trialExpired then
    Err "Your trial has expired. To continue using the shared API key, please upgrade your plan. Alternatively, you can add your own personal API key in Settings to continue auditing."
  else if negb (JsString.truthy apiKey) then
    Err ("No personal or default API key found for " +:+ providerName (provider selectedAgent) +:+
         ". Please add your key in Settings, or ask the administrator to configure a default key.")
  else Ok apiKey.

(** [for (let i = 0; i < allUrls.length; i += ANALYSIS_BATCH_SIZE)], from
    index [i] on; [fuel] bounds the number of iterations, as in
    [while_loop]. *)
Fixpoint analyze_batches (fuel : nat) (allUrls : list string) (selectedAgent : AIAgent)
    (apiKey : string) (i : nat) (finalCrawledData : list CrawledPage) (w : W)
  : option (result (list CrawledPage) * W) :=
  if (i <? length allUrls)%nat then
    match fuel with
    | O => None
    | S fuel' =>
        let batch := slice allUrls i (i + ANALYSIS_BATCH_SIZE) in
        match analyzePageBatch E batch selectedAgent apiKey w with
        | (Ok batchResults, w') =>
            analyze_batches fuel' allUrls selectedAgent apiKey (i + ANALYSIS_BATCH_SIZE)
              (finalCrawledData ++ batchResults) w'
        | (Err message, w') => Some (Err message, w')
        end
    end
  else Some (Ok finalCrawledData, w).

Definition audit_result (analysisMode : AnalysisMode)
    (finalCrawledData : list CrawledPage) (finalRobotsData : option RobotsTxtAnalysis)
    (finalSitemapData : option (list SitemapEntry)) (finalAdsTxtData : option AdsTxtAnalysis)
  : AuditResultData :=
  {| crawled_data := finalCrawledData;
     crawl_summary :=
       if (0 <? length finalCrawledData)%nat
       then Some (calculateCrawlSummary finalCrawledData) else None;
     robots_txt_data := finalRobotsData;
     sitemap_data := finalSitemapData;
     sitemap_summary := calculateSitemapSummary <$> finalSitemapData;
     ads_txt_data := finalAdsTxtData;
     analysis_mode := analysisMode |}.

(** The [try] block of [handleAnalysis] up to [auditResultData]; [Err] is
    the message the [catch] block passes to [setError]. *)
Definition run_analysis (fuel : nat) (analysisMode : AnalysisMode) (urlToAnalyze : string)
    (crawlDepth : Z) (selectedAgent : AIAgent) (apiKey : string) (w : W)
  : option (result AuditResultData * W) :=
  match analysisMode with
  | sitemap_mode =>
      match fetchAllUrlsFromSitemaps E fuel urlToAnalyze selectedAgent apiKey w with
      | None => None
      | Some (Err message, w') => Some (Err message, w')
      | Some (Ok finalSitemapData, w') =>
          if (length finalSitemapData =? 0)%nat then
            Some (Err "The AI could not find or parse any sitemaps. Check the URL or try Deep Crawl mode.", w')
          else Some (Ok (audit_result analysisMode [] None (Some finalSitemapData) None), w')
      end
  | robots_mode =>
      match analyzeRobotsTxt E urlToAnalyze selectedAgent apiKey w with
      | (Ok finalRobotsData, w') =>
          Some (Ok (audit_result analysisMode [] (Some finalRobotsData) None None), w')
      | (Err message, w') => Some (Err message, w')
      end
  | ads_mode =>
      match analyzeAdsTxt E urlToAnalyze selectedAgent apiKey w with
      | (Ok finalAdsTxtData, w') =>
          Some (Ok (audit_result analysisMode [] None None (Some finalAdsTxtData)), w')
      | (Err message, w') => Some (Err message, w')
      end
  | crawl_mode =>
      match discoverUrlsToCrawl E fuel urlToAnalyze crawlDepth w with
      | None => None
      | Some (Err message, w') => Some (Err message, w')
      | Some (Ok allUrls, w') =>
          if (length allUrls =? 0)%nat then
            Some (Err "Could not find any internal URLs. Check the URL and ensure the site is accessible.", w')
          else
            match analyze_batches fuel allUrls selectedAgent apiKey 0 [] w' with
            | None => None
            | Some (Err message, w'') => Some (Err message, w'')
            | Some (Ok finalCrawledData, w'') =>
                Some (Ok (audit_result analysisMode finalCrawledData None None None), w'')
            end
      end
  end.

(** [handleAnalysis] from the choice of the key to [auditResultData], for
    the agent [agents.find] has found. *)
Definition handleAnalysis (fuel : nat) (user_api_keys default_api_keys : option ApiKeys)
    (trialExpired : bool) (analysisMode : AnalysisMode) (urlToAnalyze : string)
    (crawlDepth : Z) (selectedAgent : AIAgent) (w : W)
  : option (result AuditResultData * W) :=
  match choose_api_key user_api_keys default_api_keys trialExpired selectedAgent with
  | Err message => Some (Err message, w)
  | Ok apiKey => run_analysis fuel analysisMode urlToAnalyze crawlDepth selectedAgent apiKey w
  end.

(** [(viewingAudit?.crawled_data || []).filter(p => p.status >= 200 &&
    p.status < 300).map(p => p.url)] *)
Definition healthyUrls (viewed_crawled_data : option (list CrawledPage)) : list string :=
  map url
    (filter (fun p => (200 <=? status p) && (status p <? 300) = true)
            (default [] viewed_crawled_data)).

(** [user.api_keys.field] where [user.api_keys] is [null], as it is in the
    profile of a user who has not saved any key: the read throws a
    [TypeError]. *)
Definition TypeError_null_property (field : string) : string :=
  "Cannot read properties of null (reading '" +:+ field +:+ "')".

(** [handleSubmitToIndexNow]: the value [indexNowStatus] is set to last.
    [user_api_keys] is [user.api_keys], [None] for [null]; the key is read
    before the [try], so [Err] is the exception with which the handler
    ends, the status being left as it was. *)
Definition handleSubmitToIndexNow (user_api_keys : option ApiKeys)
    (viewed_crawled_data : option (list CrawledPage)) (property_url : string) (w : W)
  : result SubmissionStatus * W :=
  match user_api_keys with
  | None => (Err (TypeError_null_property "indexNow"), w)
  | Some api_keys =>
      let indexNowApiKey := decrypt B (default "" (api_keys !! "indexNow")) in
      if negb (JsString.truthy indexNowApiKey) then
        (Ok {| status_success := false;
               status_message := "IndexNow API key is not configured in settings." |}, w)
      else
        let healthy := healthyUrls viewed_crawled_data in
        let attempt : Promise W SubmissionStatus :=
          if (length healthy =? 0)%nat
          then throw "No healthy (2xx) URLs found in this audit to submit."
          else
            let* _ := submitToIndexNow E N healthy indexNowApiKey property_url in
            resolve {| status_success := true;
                       status_message :=
                         "Successfully submitted " +:+ decimal (length healthy) +:+
                         " URLs to IndexNow." |} in
        match attempt w with
        | (Ok submitted, w') => (Ok submitted, w')
        | (Err message, w') =>
            (Ok {| status_success := false; status_message := message |}, w')
        end
  end.

(** [handleSubmitToGoogle]: the value [googleStatus] is set to last
    ([Ok None] when it is left unset because the promise of
    [submitUrlsToGoogle] is never settled), and the values
    [googleSubmissionProgress] takes.  As in [handleSubmitToIndexNow],
    [Err] is the exception of the read of the client ID in
    [user.api_keys] when that is [null]. *)
Definition handleSubmitToGoogle (user_api_keys : option ApiKeys)
    (viewed_crawled_data : option (list CrawledPage)) (w : W)
  : result (option SubmissionStatus) * list (nat * nat) * W :=
  match user_api_keys with
  | None => (Err (TypeError_null_property "googleClientId"), [], w)
  | Some api_keys =>
      let googleClientId := decrypt B (default "" (api_keys !! "googleClientId")) in
      if negb (JsString.truthy googleClientId) then
        (Ok (Some {| status_success := false;
                     status_message := "Google Client ID is not configured in settings." |}),
         [], w)
      else
        let healthy := healthyUrls viewed_crawled_data in
        if (length healthy =? 0)%nat then
          (Ok (Some {| status_success := false;
                       status_message :=
                         "No healthy (2xx) URLs found in this audit to submit." |}),
           [], w)
        else
          match submitUrlsToGoogle G healthy googleClientId w with
          | (Resolved counts, progress, w') =>
              (Ok (Some {| status_success := true;
                           status_message :=
                             "Submission complete. Success: " +:+ decimal (success counts) +:+
                             ", Failed: " +:+ decimal (failed counts) +:+ "." |}),
               progress, w')
          | (Rejected message, progress, w') =>
              (Ok (Some {| status_success := false; status_message := message |}),
               progress, w')
          | (Unsettled, progress, w') => (Ok None, progress, w')
          end
  end.

End Auditor.

(** ** The answers to a submission *)

Section GoogleSpec.

Context {W : Type} (G : GoogleEnv W).

(** The outcome of the publish request for each URL, in order. *)
Fixpoint publish_answers (accessToken : string) (urls : list string) (w : W)
  : list (result PublishResponse) :=
  match urls with
  | [] => []
  | url :: urls' =>
      let '(answer, w') := publish_notification G accessToken url w in
      answer :: publish_answers accessToken urls' w'
  end.

(** The request was answered, with [response.ok]. *)
Definition accepted (answer : result PublishResponse) : bool :=
  match answer with
  | Ok response => publish_ok response
  | Err _ => false
  end.

(** The calls [onProgress(1, n)], ..., [onProgress(n, n)]. *)
Definition progress_reports (n : nat) : list (nat * nat) :=
  map (fun i => (S i, n)) (seq 0 n).

End GoogleSpec.

(** ** The batches of an audit *)

(** The consecutive runs of [size] elements of a list, the last one
    shorter when the length is no multiple of [size]. *)
Fixpoint chunks {A} (fuel size : nat) (xs : list A) : list (list A) :=
  match fuel, xs with
  | S fuel', _ :: _ => take size xs :: chunks fuel' size (drop size xs)
  | _, _ => []
  end.

Definition batches_of (allUrls : list string) : list (list string) :=
  chunks (length allUrls) ANALYSIS_BATCH_SIZE allUrls.

Section AuditSpec.

Context {W : Type} (E : Env W).

(** [analyzePageBatch] on each batch in turn, with the results in
    order. *)
Fixpoint analyze_each (batches : list (list string)) (agent : AIAgent) (apiKey : string)
    (w : W) : result (list CrawledPage) * W :=
  match batches with
  | [] => (Ok [], w)
  | batch :: batches' =>
      match analyzePageBatch E batch agent apiKey w with
      | (Ok batchResults, w') =>
          match analyze_each batches' agent apiKey w' with
          | (Ok results, w'') => (Ok (batchResults ++ results), w'')
          | (Err message, w'') => (Err message, w'')
          end
      | (Err message, w') => (Err message, w')
      end
  end.

(** Every request to a model backend fails. *)
Definition model_unreachable : Prop :=
  (forall apiKey model request w,
     exists message w', gemini_generateContent E apiKey model request w = (Err message, w')) /\
  (forall isOpenRouter apiKey model request w,
     exists message w',
       chat_completions E isOpenRouter apiKey model request w = (Err message, w')).

End AuditSpec.

(** A record that stands for a page that could not be fetched or
    analysed. *)
Definition placeholder_title (page : CrawledPage) : Prop :=
  title page = "Fetch Failed" \/ title page = "Analysis Failed".

(** ** Reading a [changeFreqDistribution] *)

(** The key an entry is counted under. *)
Definition changefreq_key (e : SitemapEntry) : string :=
  JsString.or_else (changefreq e) "not set".

(** The count under a key, 0 for a key that is absent. *)
Definition count_under (distribution : gmap string nat) (freq : string) : nat :=
  default O (distribution !! freq).

(** The sum of the counts. *)
Definition distribution_total (distribution : gmap string nat) : nat :=
  map_fold (fun _ count total => (count + total)%nat) O distribution.

(** ** Example agents and keys *)

Module ExampleKeys.

Definition openai_agent : AIAgent :=
  {| agent_id := Some 2; user_id := "user"; agent_name := "Auditor (OpenAI)";
     provider := openai; model := "gpt-4o-mini";
     system_prompt := "You are an SEO auditor."; is_default := None |}.

(** The keys stored for a new user who types a Gemini key and an OpenAI
    key on the settings page and saves. *)
Definition saved : ApiKeys :=
  keys_saved StandardBase64.base64 None [("gemini", "AIza-test"); ("openAI", "sk-test-123")].

End ExampleKeys.

(** ** A match of the status pattern at the start of a message *)

(** The match of [/status (\d+)/] that starts at the first character, if
    there is one: the [here] of [match_status]. *)
Definition status_at_start (message : string) : option string :=
  if JsString.startsWith message "status " then
    let ds := JsString.take_digits (JsString.drop 7 message) in
    if JsString.truthy ds then Some ds else None
  else None.

(** ** The ends of a string *)

Definition first_char (s : string) : option ascii :=
  match s with
  | EmptyString => None
  | String a _ => Some a
  end.

Fixpoint last_char (s : string) : option ascii :=
  match s with
  | EmptyString => None
  | String a EmptyString => Some a
  | String _ s' => last_char s'
  end.

(** [s] is not empty and has no white space at either end. *)
Definition trimmed (s : string) : Prop :=
  exists a b,
    first_char s = Some a /\ last_char s = Some b /\
    JsString.is_space a = false /\ JsString.is_space b = false.

(** [s] has no "#". *)
Definition fragment_free (s : string) : Prop :=
  free_of (fun a => Ascii.eqb a "#") s.

(** ** The results table ([ResultsTable], [src/unnamed/part_004]) *)

(** [StatusBadge]: the [bgColor] and the [textColor] of the badge of a
    status. *)
Definition StatusBadge (status : Z) : string * string :=
  if (200 <=? status) && (status <? 300) then ("bg-green-500/20", "text-green-400")
  else if (300 <=? status) && (status <? 400) then ("bg-blue-500/20", "text-blue-400")
  else if (400 <=? status) && (status <? 500) then ("bg-red-500/20", "text-red-400")
  else if 500 <=? status then ("bg-red-800/30", "text-red-300")
  else ("bg-slate-600", "text-slate-100").

(** The number of rows of the table whose badge has the given colours. *)
Definition badges (colours : string * string) (pages : list CrawledPage) : Z :=
  Z.of_nat (length (filter (fun page => StatusBadge (status page) = colours) pages)).

(** [handleExport]: the text of the file.  [String] is applied to the
    numbers of a page, and [JSON.stringify] to its meta tags and to its
    links; what they return goes into a cell as it is. *)
Record Stringify := {
  String_number : Z -> string;
  stringify_metaTags : list MetaTag -> string;
  stringify_links : list Link -> string
}.

(** [xs.join(sep)] *)
Fixpoint join (sep : string) (xs : list string) : string :=
  match xs with
  | [] => ""
  | [x] => x
  | x :: xs' => x +:+ sep +:+ join sep xs'
  end.

(** [String(value || '')] for a number: 0 is falsy. *)
Definition stringValue_of_number (J : Stringify) (n : Z) : string :=
  if n =? 0 then "" else String_number J n.

(** [String(value || '')] for a string. *)
Definition stringValue_of_string (s : string) : string := JsString.or_else s "".

Definition csv_headers : list string :=
  ["URL"; "Status"; "Title"; "Description"; "H1"; "Content Preview"; "Internal Links";
   "External Links"; "Meta Tags (JSON)"; "Internal Links Data (JSON)";
   "External Links Data (JSON)"].

(** The [stringValue]s of the row of a page. *)
Definition csv_values (J : Stringify) (p : CrawledPage) : list string :=
  [stringValue_of_string (url p);
   stringValue_of_number J (status p);
   stringValue_of_string (title p);
   stringValue_of_string (description p);
   stringValue_of_string (h1 p);
   stringValue_of_string (contentPreview p);
   stringValue_of_number J (internalLinks p);
   stringValue_of_number J (externalLinks p);
   stringValue_of_string (stringify_metaTags J (metaTags p));
   stringValue_of_string (stringify_links J (default [] (internalLinkUrls p)));
   stringValue_of_string (stringify_links J (default [] (externalLinkUrls p)))].

(** [stringValue.replace] of every double quote by two. *)
Fixpoint double_quotes (s : string) : string :=
  match s with
  | EmptyString => EmptyString
  | String a s' =>
      if Ascii.eqb a double_quote
      then String double_quote (String double_quote (double_quotes s'))
      else String a (double_quotes s')
  end.

Definition csv_cell (stringValue : string) : string :=
  if JsString.includes stringValue ","
     || JsString.includes stringValue (String double_quote EmptyString)
     || JsString.includes stringValue (String newline EmptyString)
  then String double_quote (double_quotes stringValue +:+ String double_quote EmptyString)
  else stringValue.

Definition csv_row (J : Stringify) (p : CrawledPage) : string :=
  join "," (map csv_cell (csv_values J p)).

Definition csvContent (J : Stringify) (pages : list CrawledPage) : string :=
  join (String newline EmptyString) (join "," csv_headers :: map (csv_row J) pages).

(** ** Reading a CSV file

    A reader of comma-separated values: records are separated by line
    feeds and fields by commas; a field that starts with a double quote
    runs to the next double quote that is not doubled, and a doubled
    double quote in it stands for one. *)

Inductive CsvState := Unquoted | Quoted | AfterQuote.

Fixpoint read_csv (state : CsvState) (field : string) (record : list string)
    (records : list (list string)) (text : string) : option (list (list string)) :=
  match text with
  | EmptyString =>
      match state with
      | Quoted => None
      | _ => Some (records ++ [record ++ [field]])
      end
  | String a text' =>
      match state with
      | Unquoted =>
          if Ascii.eqb a double_quote then
            match field with
            | EmptyString => read_csv Quoted "" record records text'
            | _ => None
            end
          else if Ascii.eqb a "," then read_csv Unquoted "" (record ++ [field]) records text'
          else if Ascii.eqb a newline
          then read_csv Unquoted "" [] (records ++ [record ++ [field]]) text'
          else read_csv Unquoted (field +:+ String a "") record records text'
      | Quoted =>
          if Ascii.eqb a double_quote then read_csv AfterQuote field record records text'
          else read_csv Quoted (field +:+ String a "") record records text'
      | AfterQuote =>
          if Ascii.eqb a double_quote
          then read_csv Quoted (field +:+ String double_quote "") record records text'
          else if Ascii.eqb a "," then read_csv Unquoted "" (record ++ [field]) records text'
          else if Ascii.eqb a newline
          then read_csv Unquoted "" [] (records ++ [record ++ [field]]) text'
          else None
      end
  end.

Definition parse_csv (text : string) : option (list (list string)) :=
  read_csv Unquoted "" [] [] text.

(** What is read after a field that is followed by [rest]: the end of the
    text, a comma or a line feed. *)
Definition field_read (field : string) (record : list string)
    (records : list (list string)) (rest : string) : option (list (list string)) :=
  match rest with
  | EmptyString => Some (records ++ [record ++ [field]])
  | String a rest' =>
      if Ascii.eqb a "," then read_csv Unquoted "" (record ++ [field]) records rest'
      else read_csv Unquoted "" [] (records ++ [record ++ [field]]) rest'
  end.

(** [rest] is empty or starts with one of the two separators. *)
Definition at_separator (rest : string) : Prop :=
  match rest with
  | EmptyString => True
  | String a _ => a = ","%char \/ a = newline
  end.

(** ** An example of a reply in prose *)

Module ExampleProse.

(** [robots.txt] and [ads.txt] are served; the model answers in prose,
    without any JSON. *)
Definition prose_reply : Example.Scenario :=
  {| Example.site := fun u =>
       if String.eqb u "https://example.com/robots.txt" then Some "User-agent: *"
       else if String.eqb u "https://example.com/ads.txt"
       then Some "google.com, pub-1, DIRECT"
       else None;
     Example.gemini_reply := fun _ => Ok (Some "I am sorry, I cannot help with that.");
     Example.chat_reply := fun _ => Err "Failed to fetch";
     Example.parse_pages := fun _ => Err "Unexpected token";
     Example.parse_entries := fun _ => Err "Unexpected token" |}.

End ExampleProse.

(** ** The order of the queue of a crawl *)

(** The depths never decrease along the queue. *)
Definition depths_ascend (queue : list (string * Z)) : Prop :=
  forall i j a b,
    (i <= j)%nat -> queue !! i = Some a -> queue !! j = Some b -> snd a <= snd b.

(** The depths ascend, and no entry lies more than one level below the
    entry that is taken next. *)
Definition breadth_first (st : CrawlState) : Prop :=
  depths_ascend (crawl_queue st) /\
  forall current entry,
    crawl_queue st !! crawl_index st = Some current ->
    entry ∈ crawl_queue st -> snd entry <= snd current + 1.

(** ** The messages of a failed analysis of a file *)

(** What [analyzeRobotsTxt] and [analyzeAdsTxt] throw when the model
    stage fails: the rate-limit text, or the reason behind a fixed
    prefix. *)
Definition model_failure_message (file rate_limit_text message : string) : Prop :=
  message = rate_limit_text \/
  exists reason,
    isRateLimitError reason = false /\
    message = "Failed to get valid " +:+ file +:+ " data from the AI. Reason: " +:+ reason.

(** ** Example submissions *)

Module ExampleSubmissions.

(** The identity services are loaded and grant a token; the Indexing API
    accepts the URLs of "https://example.com/" only, and answers 403 for
    the others.  The world counts the requests. *)
Definition google : GoogleEnv nat :=
  {| identity_services_loaded := fun _ => true;
     location_origin := "https://auditor.example";
     request_token := fun _ _ _ calls =>
       (Ok (Some {| token_error := ""; token_error_description := "";
                    access_token := "token" |}), S calls);
     publish_notification := fun _ url calls =>
       (if JsString.startsWith url "https://example.com/"
        then Ok {| publish_ok := true; publish_status := 200;
                   publish_error_message := Ok None |}
        else Ok {| publish_ok := false; publish_status := 403;
                   publish_error_message := Ok (Some "Permission denied") |},
        S calls);
     fetch_sites := fun _ calls =>
       (Ok {| sites_ok := true; sites_status := 200; sites_error_message := Err "no error";
              sites_entries := Ok (Some ["https://example.com/"; ""; "sc-domain:example.org"]) |},
        S calls) |}.

(** The user closes the consent window: the callback gets an error. *)
Definition google_denied : GoogleEnv nat :=
  {| identity_services_loaded := fun _ => true;
     location_origin := "https://auditor.example";
     request_token := fun _ _ _ calls =>
       (Ok (Some {| token_error := "access_denied"; token_error_description := "";
                    access_token := "" |}), S calls);
     publish_notification := fun _ _ calls => (Err "Failed to fetch", S calls);
     fetch_sites := fun _ calls => (Err "Failed to fetch", S calls) |}.

(** IndexNow accepts every payload. *)
Definition indexnow : IndexNowEnv nat :=
  {| indexnow_fetch := fun _ calls =>
       (Ok {| indexnow_ok := true; indexnow_status := 200;
              indexnow_error_detail := Err "Unexpected end of JSON input" |}, S calls) |}.

(** IndexNow answers 403 with a message. *)
Definition indexnow_refusing : IndexNowEnv nat :=
  {| indexnow_fetch := fun _ calls =>
       (Ok {| indexnow_ok := false; indexnow_status := 403;
              indexnow_error_detail := Ok "Key not valid" |}, S calls) |}.

(** The keys of a user who has saved an IndexNow key and a client ID. *)
Definition keys : ApiKeys :=
  keys_saved StandardBase64.base64 None
    [("indexNow", "0123456789abcdef"); ("googleClientId", "id.apps.googleusercontent.com")].

(** Three pages of an audit: two healthy ones and one that is missing. *)
Definition viewed : list CrawledPage :=
  [page_with_status 200;
   {| url := "https://other.org/"; status := 204; title := "N/A";
      description := "N/A"; h1 := "N/A"; contentPreview := "N/A";
      internalLinks := 0; externalLinks := 0; metaTags := [];
      internalLinkUrls := Some []; externalLinkUrls := Some [] |};
   page_with_status 404].

End ExampleSubmissions.

(** ** Specification of the status read off an error message

    [status_told message n]: [n] is the status that the text [message]
    tells, stated on the shape of the text.  The text tells a status
    where "status " is followed by a decimal digit; the leftmost such
    place counts, and the digits that follow it are read as a decimal
    number, which is held as a Number.  A text without such a place
    tells 500.  From [Infinity_from] on, the Number is [Infinity], which
    is not an integer: there [status_told] leaves the status open. *)

(** The value of a decimal digit is its place among the ten digits. *)
Definition decimal_digit (a : ascii) : option Z :=
  Z.of_nat <$> JsString.find_index (Ascii.eqb a) "0123456789".

Definition is_decimal (a : ascii) : bool :=
  match decimal_digit a with Some _ => true | None => false end.

(** The number that a string of decimal digits denotes: each digit counts
    with the power of ten of its place. *)
Fixpoint number_of_digits (digits : string) : Z :=
  match digits with
  | EmptyString => 0
  | String a digits' =>
      default 0 (decimal_digit a) * 10 ^ Z.of_nat (String.length digits')
      + number_of_digits digits'
  end.

(** The natural numbers among the doubles: a significand of 53 bits and
    an exponent up to 971; the largest is [(2 ^ 53 - 1) * 2 ^ 971]. *)
Definition is_double (d : Z) : Prop :=
  exists m e, 0 <= m < 2 ^ 53 /\ 0 <= e <= 971 /\ d = m * 2 ^ e.

(** A double from [2 ^ 52] on whose significand is even. *)
Definition even_double (d : Z) : Prop :=
  exists m e, Z.even m = true /\ 2 ^ 52 <= m < 2 ^ 53 /\ 0 <= e <= 971 /\ d = m * 2 ^ e.

(** [d] is the Number value of the natural number [n]: a double, no
    double is nearer to [n], and if another one is as near, [d] is the
    one with the even significand. *)
Definition nearest_double (n d : Z) : Prop :=
  is_double d /\
  (forall d', is_double d' -> Z.abs (n - d) <= Z.abs (n - d')) /\
  (forall d', is_double d' -> d' <> d -> Z.abs (n - d') = Z.abs (n - d) -> even_double d).

(** From this number on, halfway between the largest double and
    [2 ^ 1024], the Number value is [Infinity]. *)
Definition Infinity_from : Z := 2 ^ 1024 - 2 ^ 970.

Inductive status_told (message : string) : Z -> Prop :=
| status_default :
    (forall pre d rest,
       is_decimal d = true -> message <> pre +:+ "status " +:+ String d rest) ->
    status_told message 500
| status_parsed pre digits rest n :
    message = pre +:+ "status " +:+ digits +:+ rest ->
    digits <> "" ->
    free_of (fun a => negb (is_decimal a)) digits ->
    match rest with
    | EmptyString => True
    | String a _ => is_decimal a = false
    end ->
    (forall pre' d rest',
       is_decimal d = true -> message = pre' +:+ "status " +:+ String d rest' ->
       (String.length pre <= String.length pre')%nat) ->
    (number_of_digits digits < Infinity_from ->
     nearest_double (number_of_digits digits) n) ->
    status_told message n.

(** The record the specification asks for a URL whose fetch failed:
    [failure] is the URL with the error message. *)
Definition fetch_failed_record (failure : string * string) (page : CrawledPage) : Prop :=
  url page = fst failure /\
  title page = "Fetch Failed" /\
  description page = snd failure /\
  internalLinks page = 0 /\
  externalLinks page = 0 /\
  metaTags page = [] /\
  status_told (snd failure) (status page).

(** An integer of 53 significant bits, whatever its size. *)
Definition fits_53_bits (d : Z) : Prop :=
  exists m e, 0 <= m < 2 ^ 53 /\ 0 <= e /\ d = m * 2 ^ e.

(** Every number read after "status " in [message] has a Number value
    that is an integer. *)
Definition told_in_range (message : string) : Prop :=
  forall pre digits rest,
    message = pre +:+ "status " +:+ digits +:+ rest ->
    number_of_digits digits < Infinity_from.

(** * Properties *)

(** ** Strings *)

Section StringFacts.

Import JsString.

Lemma free_of_app p s t : free_of p (s +:+ t) <-> free_of p s /\ free_of p t.
Proof.
  induction s as [|a s IH]; simpl; [tauto|]. rewrite IH. tauto.
Qed.

Lemma find_index_spec p s :
  match find_index p s with
  | None => free_of p s
  | Some n =>
      exists pre a rest,
        s = pre +:+ String a rest /\ String.length pre = n /\
        free_of p pre /\ p a = true
  end.
Proof.
  induction s as [|a s IH]; simpl; [done|].
  destruct (p a) eqn:Hpa.
  - by exists "", a, s.
  - destruct (find_index p s) as [n|]; simpl; [|done].
    destruct IH as (pre & b & rest & -> & <- & Hfree & Hb).
    by exists (String a pre), b, rest.
Qed.

Lemma find_last_index_spec p s :
  match find_last_index p s with
  | None => free_of p s
  | Some n =>
      exists pre a rest,
        s = pre +:+ String a rest /\ String.length pre = n /\
        p a = true /\ free_of p rest
  end.
Proof.
  induction s as [|a s IH]; simpl; [done|].
  destruct (find_last_index p s) as [n|].
  - destruct IH as (pre & b & rest & -> & <- & Hb & Hfree).
    by exists (String a pre), b, rest.
  - destruct (p a) eqn:Hpa; [|done].
    by exists "", a, s.
Qed.

(** The first opening bracket is the nearer of the first "{" and the
    first "[". *)
Lemma find_index_either (p q : ascii -> bool) s :
  find_index (fun a => p a || q a) s =
  match find_index p s, find_index q s with
  | Some i, Some j => Some (Nat.min i j)
  | Some i, None => Some i
  | None, Some j => Some j
  | None, None => None
  end.
Proof.
  induction s as [|a s IH]; simpl; [done|].
  destruct (p a), (q a); simpl;
    try (by destruct (find_index p s), (find_index q s));
    try (by destruct (find_index q s));
    try (by destruct (find_index p s)).
  rewrite IH. by destruct (find_index p s), (find_index q s).
Qed.

Lemma find_last_index_either (p q : ascii -> bool) s :
  find_last_index (fun a => p a || q a) s =
  match find_last_index p s, find_last_index q s with
  | Some i, Some j => Some (Nat.max i j)
  | Some i, None => Some i
  | None, Some j => Some j
  | None, None => None
  end.
Proof.
  induction s as [|a s IH]; simpl; [done|].
  rewrite IH.
  destruct (find_last_index p s), (find_last_index q s), (p a), (q a); simpl; done.
Qed.

Lemma app_cons a s t : String a s +:+ t = String a (s +:+ t).
Proof. reflexivity. Qed.

Lemma app_empty t : "" +:+ t = t.
Proof. reflexivity. Qed.

Lemma length_app s t :
  String.length (s +:+ t) = (String.length s + String.length t)%nat.
Proof.
  induction s as [|a s IH]; [done|]. rewrite app_cons. simpl. by rewrite IH.
Qed.

Lemma app_assoc_string s t u : (s +:+ t) +:+ u = s +:+ (t +:+ u).
Proof.
  induction s as [|a s IH]; [done|]. rewrite !app_cons. by rewrite IH.
Qed.

Lemma substring_skip pre s m :
  String.substring (String.length pre) m (pre +:+ s) = String.substring 0 m s.
Proof.
  induction pre as [|a pre IH]; [done|]. rewrite app_cons. simpl. apply IH.
Qed.

Lemma substring_zero_app s t :
  String.substring 0 (String.length s) (s +:+ t) = s.
Proof.
  induction s as [|a s IH].
  - rewrite app_empty. simpl. by destruct t.
  - rewrite app_cons. simpl. by rewrite IH.
Qed.

(** Two ways of cutting the same text at one character each. *)
Lemma cut_compare pre1 a1 rest1 pre2 a2 rest2 :
  pre1 +:+ String a1 rest1 = pre2 +:+ String a2 rest2 ->
  (String.length pre1 < String.length pre2)%nat ->
  exists mid, pre2 = pre1 +:+ String a1 mid /\ rest1 = mid +:+ String a2 rest2.
Proof.
  revert pre2. induction pre1 as [|b pre1 IH]; intros [|c pre2] Heq Hlt;
    rewrite ?app_cons, ?app_empty in Heq; simpl in Hlt; try lia.
  - injection Heq as -> ->. by exists pre2.
  - injection Heq as -> Heq.
    destruct (IH pre2 Heq) as (mid & -> & ->); [lia|]. by exists mid.
Qed.

Lemma cut_same pre1 a1 rest1 pre2 a2 rest2 :
  pre1 +:+ String a1 rest1 = pre2 +:+ String a2 rest2 ->
  String.length pre1 = String.length pre2 ->
  a1 = a2.
Proof.
  revert pre2. induction pre1 as [|b pre1 IH]; intros [|c pre2] Heq Hlen;
    rewrite ?app_cons, ?app_empty in Heq; simpl in Hlen; try lia.
  - by injection Heq.
  - injection Heq as -> Heq. apply (IH pre2 Heq). lia.
Qed.

Lemma open_not_close a : is_open a = true -> is_close a = false.
Proof.
  unfold is_open, is_close. intros H.
  apply orb_true_iff in H as [H|H]; apply Ascii.eqb_eq in H; by subst a.
Qed.

Lemma find_last_index_lt p s n :
  find_last_index p s = Some n -> (n < String.length s)%nat.
Proof.
  intros H. pose proof (find_last_index_spec p s) as Hs. rewrite H in Hs.
  destruct Hs as (pre & a & rest & -> & <- & _). rewrite length_app. simpl. lia.
Qed.

Lemma substring_in_range text (s e : nat) :
  (s <= e)%nat -> (e < String.length text)%nat ->
  substring text (Z.of_nat s) (Z.of_nat e + 1) =
  String.substring s (e + 1 - s) text.
Proof.
  intros Hse He. unfold substring, clamp. cbv zeta.
  f_equal; lia.
Qed.

(** [extractJson] in terms of the first opening and the last closing
    bracket. *)
Lemma extractJson_indices text :
  extractJson text =
  match find_index is_open text, find_last_index is_close text with
  | Some s, Some e =>
      if (e <? s)%nat then "" else String.substring s (e + 1 - s) text
  | _, _ => ""
  end.
Proof.
  unfold extractJson, indexOf, lastIndexOf, is_open, is_close.
  rewrite find_index_either, find_last_index_either.
  pose proof (find_last_index_lt (Ascii.eqb "}") text) as Hb.
  pose proof (find_last_index_lt (Ascii.eqb "]") text) as Hq.
  destruct (find_index (Ascii.eqb "{") text) as [i|],
           (find_index (Ascii.eqb "[") text) as [j|]; simpl; try done;
  destruct (find_last_index (Ascii.eqb "}") text) as [k|],
           (find_last_index (Ascii.eqb "]") text) as [l|]; simpl; try done;
  try specialize (Hb _ eq_refl); try specialize (Hq _ eq_refl);
  repeat match goal with
  | |- context [Z.min (Z.of_nat ?a) (Z.of_nat ?b)] =>
      replace (Z.min (Z.of_nat a) (Z.of_nat b)) with (Z.of_nat (Nat.min a b)) by lia
  | |- context [Z.max (Z.of_nat ?a) (Z.of_nat ?b)] =>
      replace (Z.max (Z.of_nat a) (Z.of_nat b)) with (Z.of_nat (Nat.max a b)) by lia
  | |- context [Z.max (Z.of_nat ?a) (-1)] =>
      replace (Z.max (Z.of_nat a) (-1)) with (Z.of_nat a) by lia
  | |- context [Z.max (-1) (Z.of_nat ?a)] =>
      replace (Z.max (-1) (Z.of_nat a)) with (Z.of_nat a) by lia
  end;
  repeat match goal with
  | |- context [Z.of_nat ?a =? -1] =>
      replace (Z.of_nat a =? -1) with false by (symmetry; apply Z.eqb_neq; lia)
  end; simpl; try done;
  match goal with
  | |- context [Z.of_nat ?e <? Z.of_nat ?s] =>
      replace (Z.of_nat e <? Z.of_nat s) with (e <? s)%nat
        by (destruct (Nat.ltb_spec e s), (Z.ltb_spec (Z.of_nat e) (Z.of_nat s)); done || lia);
      destruct (Nat.ltb_spec e s); [done|];
      apply substring_in_range; lia
  end.
Qed.

Lemma app_empty_r s : s +:+ "" = s.
Proof. induction s as [|a s IH]; [done|]. by rewrite app_cons, IH. Qed.

Lemma startsWith_spec s p :
  startsWith s p = true <-> exists post, s = p +:+ post.
Proof.
  revert s. induction p as [|b p IH]; intros s.
  - destruct s; simpl; split; eauto.
  - destruct s as [|a s]; simpl.
    + split; [done|]. intros [post H]. by rewrite app_cons in H.
    + rewrite andb_true_iff, Ascii.eqb_eq, IH. split.
      * intros [-> [post ->]]. by exists post.
      * intros [post H]. rewrite app_cons in H. injection H as -> ->. eauto.
Qed.

Lemma includes_spec s p :
  includes s p = true <-> exists pre post, s = pre +:+ p +:+ post.
Proof.
  induction s as [|a s IH].
  - cbn [includes]. rewrite orb_false_r, startsWith_spec. split.
    + intros [post H]. by exists "", post.
    + intros ([|b pre] & post & H); rewrite ?app_cons in H; [|done]. by exists post.
  - cbn [includes]. rewrite orb_true_iff, startsWith_spec, IH. split.
    + intros [[post H]|(pre & post & H)].
      * by exists "", post.
      * exists (String a pre), post. by rewrite app_cons, H.
    + intros ([|b pre] & post & H); rewrite ?app_cons in H.
      * left. by exists post.
      * right. injection H as -> ->. by exists pre, post.
Qed.

Lemma substring_split s n :
  (n <= String.length s)%nat ->
  s = String.substring 0 n s +:+ String.substring n (String.length s - n) s.
Proof.
  revert n. induction s as [|a s IH]; intros [|n] Hn; simpl in *; try lia.
  - done.
  - rewrite app_empty. f_equal.
    pose proof (substring_zero_app s "") as H. by rewrite app_empty_r in H.
  - rewrite app_cons. f_equal. apply IH. lia.
Qed.

Lemma substring_zero_length s n :
  (n <= String.length s)%nat -> String.length (String.substring 0 n s) = n.
Proof.
  revert n. induction s as [|a s IH]; intros [|n] Hn; simpl in *; try lia.
  rewrite IH; lia.
Qed.

Lemma endsWith_spec s p :
  endsWith s p = true <-> exists pre, s = pre +:+ p.
Proof.
  unfold endsWith. rewrite andb_true_iff, String.eqb_eq, Nat.leb_le. split.
  - intros [Hle Hsub]. exists (String.substring 0 (String.length s - String.length p) s).
    pose proof (substring_split s (String.length s - String.length p) ltac:(lia)) as H.
    replace (String.length s - (String.length s - String.length p))%nat
      with (String.length p) in H by lia.
    by rewrite Hsub in H.
  - intros [pre ->]. rewrite length_app. split; [lia|].
    replace (String.length pre + String.length p - String.length p)%nat
      with (String.length pre) by lia.
    rewrite substring_skip.
    pose proof (substring_zero_app p "") as H. by rewrite app_empty_r in H.
Qed.

Lemma toLowerCase_app s t :
  toLowerCase (s +:+ t) = toLowerCase s +:+ toLowerCase t.
Proof.
  induction s as [|a s IH]; [done|]. rewrite !app_cons. simpl. by rewrite IH.
Qed.

Lemma toLowerCase_length s : String.length (toLowerCase s) = String.length s.
Proof. induction s as [|a s IH]; simpl; [done|]. by rewrite IH. Qed.

Lemma app_inj_length s1 t1 s2 t2 :
  s1 +:+ t1 = s2 +:+ t2 -> String.length s1 = String.length s2 ->
  s1 = s2 /\ t1 = t2.
Proof.
  revert s2. induction s1 as [|a s1 IH]; intros [|b s2] Heq Hlen;
    simpl in Hlen; try lia.
  - done.
  - rewrite !app_cons in Heq. injection Heq as -> Heq.
    destruct (IH s2 Heq) as [-> ->]; [lia|done].
Qed.

(** Ending in [p] after lower-casing is ending in a suffix that
    lower-cases to [p]. *)
Lemma endsWith_toLowerCase s p :
  endsWith (toLowerCase s) p = true <->
  exists pre suffix, s = pre +:+ suffix /\ toLowerCase suffix = p.
Proof.
  rewrite endsWith_spec. split.
  - intros [pre' Hlow].
    assert (String.length pre' <= String.length s)%nat as Hle.
    { rewrite <- (toLowerCase_length s), Hlow, length_app. lia. }
    pose proof (substring_split s (String.length pre') Hle) as Hs.
    pose proof (substring_zero_length s (String.length pre') Hle) as Hpre.
    remember (String.substring 0 (String.length pre') s) as pre.
    remember (String.substring (String.length pre')
                (String.length s - String.length pre') s) as suffix.
    exists pre, suffix. split; [exact Hs|].
    rewrite Hs, toLowerCase_app in Hlow.
    apply app_inj_length in Hlow as [_ Hlow]; [exact Hlow|].
    by rewrite toLowerCase_length.
  - intros (pre & suffix & -> & <-). exists (toLowerCase pre).
    apply toLowerCase_app.
Qed.

End StringFacts.

(** ** [extractJson] *)

Example extractJson_no_bracket : extractJson "no json here" = "".
Proof. reflexivity. Qed.

Example extractJson_close_before_open : extractJson "} then {" = "".
Proof. reflexivity. Qed.

Example extractJson_object : extractJson "result: {a: [1, 2]} done" = "{a: [1, 2]}".
Proof. reflexivity. Qed.

(** The closing bracket is the last "}" or "]" whatever the kind of the
    opening one. *)
Example extractJson_mixed_kinds : extractJson "a { b ] c" = "{ b ]".
Proof. reflexivity. Qed.

Lemma extractJson_is_span text : json_span text (extractJson text).
Proof.
  rewrite extractJson_indices.
  pose proof (find_index_spec is_open text) as Hopen.
  pose proof (find_last_index_spec is_close text) as Hclose.
  destruct (JsString.find_index is_open text) as [s|]; [|by apply span_no_open].
  destruct Hopen as (pre & o & rest & Htext & Hs & Hpre & Ho).
  destruct (JsString.find_last_index is_close text) as [e|].
  - destruct Hclose as (pre' & c & post & Htext' & He & Hc & Hpost).
    destruct (Nat.ltb_spec e s) as [Hlt|Hge].
    + (* the last closing bracket precedes the first opening one *)
      destruct (cut_compare pre' c post pre o rest) as (mid & _ & Hmid);
        [congruence|lia|].
      apply (span_no_close text pre o rest); try done.
      rewrite Hmid in Hpost. apply free_of_app in Hpost as [_ Hpost]. apply Hpost.
    + assert (e <> s) as Hne.
      { intros ->.
        assert (o = c) as -> by (apply (cut_same pre o rest pre' c post); congruence).
        apply open_not_close in Ho. congruence. }
      destruct (cut_compare pre o rest pre' c post) as (mid & Hpre' & Hrest);
        [congruence|lia|].
      assert ((e + 1 - s)%nat = String.length (String o (mid +:+ String c ""))) as ->.
      { subst pre' s e. rewrite length_app. simpl. rewrite length_app. simpl. lia. }
      assert (text = pre +:+ (String o (mid +:+ String c "") +:+ post)) as Hshape.
      { rewrite Htext, Hrest, app_cons, app_assoc_string. reflexivity. }
      assert (String.substring s (String.length (String o (mid +:+ String c ""))) text
              = String o (mid +:+ String c "")) as ->.
      { rewrite Hshape, <- Hs. rewrite substring_skip. apply substring_zero_app. }
      apply (span_found text pre o mid c post); try done. by rewrite Htext, Hrest.
  - apply (span_no_close text pre o rest); try done.
    rewrite Htext in Hclose. apply free_of_app in Hclose as [_ [_ Hrest]]. apply Hrest.
Qed.

(** The first character of a kind cuts a text in one way only, and so
    does the last. *)
Lemma first_cut_unique p pre1 a1 rest1 pre2 a2 rest2 :
  pre1 +:+ String a1 rest1 = pre2 +:+ String a2 rest2 ->
  free_of p pre1 -> p a1 = true -> free_of p pre2 -> p a2 = true ->
  pre1 = pre2 /\ a1 = a2 /\ rest1 = rest2.
Proof.
  revert pre2. induction pre1 as [|b pre1 IH]; intros [|c pre2] Heq H1 Ha1 H2 Ha2;
    rewrite ?app_cons, ?app_empty in Heq; injection Heq as -> Heq.
  - by subst.
  - simpl in H2. destruct H2 as [H2 _]. congruence.
  - simpl in H1. destruct H1 as [H1 _]. congruence.
  - simpl in H1, H2. destruct (IH pre2 Heq) as (-> & -> & ->); tauto.
Qed.

Lemma last_cut_unique p pre1 a1 rest1 pre2 a2 rest2 :
  pre1 +:+ String a1 rest1 = pre2 +:+ String a2 rest2 ->
  p a1 = true -> free_of p rest1 -> p a2 = true -> free_of p rest2 ->
  pre1 = pre2 /\ a1 = a2 /\ rest1 = rest2.
Proof.
  intros Heq Ha1 H1 Ha2 H2.
  destruct (lt_eq_lt_dec (String.length pre1) (String.length pre2)) as [[Hlt|Hlen]|Hlt].
  - destruct (cut_compare _ _ _ _ _ _ Heq Hlt) as (mid & _ & ->).
    apply free_of_app in H1 as [_ [H1 _]]. congruence.
  - destruct (app_inj_length _ _ _ _ Heq Hlen) as [-> Hrest]. by injection Hrest as -> ->.
  - symmetry in Heq. destruct (cut_compare _ _ _ _ _ _ Heq Hlt) as (mid & _ & ->).
    apply free_of_app in H2 as [_ [H2 _]]. congruence.
Qed.

(** The specification determines the span. *)
Lemma json_span_functional text r1 r2 :
  json_span text r1 -> json_span text r2 -> r1 = r2.
Proof.
  intros H1 H2.
  destruct H1 as [Hfree|pre o rest Htext Hpre Ho Hrest|pre o mid c post Htext Hpre Ho Hc Hpost];
  destruct H2 as [Hfree'|pre' o' rest' Htext' Hpre' Ho' Hrest'
                 |pre' o' mid' c' post' Htext' Hpre' Ho' Hc' Hpost']; try done.
  - rewrite Htext' in Hfree. apply free_of_app in Hfree as [_ [Hfree _]]. congruence.
  - destruct (first_cut_unique is_open pre o rest pre' o' (mid' +:+ String c' post'))
      as (_ & _ & ->); try done; [congruence|].
    apply free_of_app in Hrest as [_ [Hrest _]]. congruence.
  - rewrite Htext in Hfree'. apply free_of_app in Hfree' as [_ [Hfree' _]]. congruence.
  - destruct (first_cut_unique is_open pre' o' rest' pre o (mid +:+ String c post))
      as (_ & _ & ->); try done; [congruence|].
    apply free_of_app in Hrest' as [_ [Hrest' _]]. congruence.
  - destruct (first_cut_unique is_open pre o (mid +:+ String c post)
                pre' o' (mid' +:+ String c' post')) as (_ & -> & Hmid); try done;
      [congruence|].
    destruct (last_cut_unique is_close mid c post mid' c' post') as (-> & -> & _);
      done.
Qed.

(** C9: [extractJson] returns the span of the text from the first "{" or
    "[" (whichever comes first) to the last "}" or "]", dropping the prose
    before and after it; it returns the empty string when the text has no
    opening bracket, or no closing bracket after the first opening one;
    and nothing else is such a span.  On "Here you go: [{...}] Thanks!" it
    returns "[{...}]". *)
Theorem extractJson_span :
  (forall text r, json_span text r <-> r = extractJson text) /\
  extractJson "Here you go: [{...}] Thanks!" = "[{...}]".
Proof.
  split; [|reflexivity].
  intros text r. split.
  - intros Hspan. eapply json_span_functional; [exact Hspan|].
    apply extractJson_is_span.
  - intros ->. apply extractJson_is_span.
Qed.

(** ** [calculateCrawlSummary] *)

Lemma summary_step_counts acc page :
  let s := summary_step acc page in
  totalPages s = totalPages acc + 1 /\
  healthyPages s = healthyPages acc + (if is_2xx (status page) then 1 else 0) /\
  redirects s = redirects acc + (if is_3xx (status page) then 1 else 0) /\
  clientErrors s = clientErrors acc + (if is_4xx (status page) then 1 else 0) /\
  serverErrors s = serverErrors acc + (if from_500 (status page) then 1 else 0).
Proof.
  unfold summary_step, is_2xx, is_3xx, is_4xx, from_500.
  destruct (Z.leb_spec 200 (status page)), (Z.ltb_spec (status page) 300),
           (Z.leb_spec 300 (status page)), (Z.ltb_spec (status page) 400),
           (Z.leb_spec 400 (status page)), (Z.ltb_spec (status page) 500),
           (Z.leb_spec 500 (status page)); simpl; repeat split; lia.
Qed.

Lemma fold_summary_counts pages acc :
  let s := fold_left summary_step pages acc in
  totalPages s = totalPages acc + Z.of_nat (length pages) /\
  healthyPages s = healthyPages acc + count_pages is_2xx pages /\
  redirects s = redirects acc + count_pages is_3xx pages /\
  clientErrors s = clientErrors acc + count_pages is_4xx pages /\
  serverErrors s = serverErrors acc + count_pages from_500 pages.
Proof.
  revert acc. induction pages as [|page pages IH]; intros acc.
  - simpl. repeat split; lia.
  - cbn [fold_left count_pages length].
    destruct (IH (summary_step acc page)) as (Ht & Hh & Hr & Hc & Hs).
    destruct (summary_step_counts acc page) as (Ht' & Hh' & Hr' & Hc' & Hs').
    cbv zeta in *. repeat split; lia.
Qed.

Lemma status_ranges_partition pages :
  count_pages below_200 pages + count_pages is_2xx pages + count_pages is_3xx pages
  + count_pages is_4xx pages + count_pages from_500 pages = Z.of_nat (length pages).
Proof.
  induction pages as [|page pages IH]; [done|].
  cbn [count_pages length].
  unfold below_200, is_2xx, is_3xx, is_4xx, from_500 in *.
  destruct (Z.ltb_spec (status page) 200),
           (Z.leb_spec 200 (status page)), (Z.ltb_spec (status page) 300),
           (Z.leb_spec 300 (status page)), (Z.ltb_spec (status page) 400),
           (Z.leb_spec 400 (status page)), (Z.ltb_spec (status page) 500),
           (Z.leb_spec 500 (status page)); simpl; lia.
Qed.

(** A page whose status is below 200 is counted in [totalPages] and in no
    bucket. *)
Lemma calculateCrawlSummary_bucket_sum_counterexample :
  let s := calculateCrawlSummary [page_with_status 200; page_with_status 100] in
  totalPages s = 2 /\ bucket_sum s = 1 /\ bucket_sum s <> totalPages s.
Proof. vm_compute. repeat split; congruence. Qed.

(** C5, as the code has it: [calculateCrawlSummary] is a function of the
    page list alone; [totalPages] is the length of the list; the buckets
    count the pages with status in [200, 300), [300, 400), [400, 500) and
    [500, ...); and the four buckets together count the pages whose status
    is at least 200, the pages with a status below 200 being counted in
    [totalPages] only. *)
Theorem calculateCrawlSummary_buckets (pages : list CrawledPage) :
  let s := calculateCrawlSummary pages in
  totalPages s = Z.of_nat (length pages) /\
  healthyPages s = count_pages is_2xx pages /\
  redirects s = count_pages is_3xx pages /\
  clientErrors s = count_pages is_4xx pages /\
  serverErrors s = count_pages from_500 pages /\
  bucket_sum s + count_pages below_200 pages = totalPages s.
Proof.
  pose proof (fold_summary_counts pages
    {| totalPages := 0; healthyPages := 0; redirects := 0;
       clientErrors := 0; serverErrors := 0 |}) as H.
  pose proof (status_ranges_partition pages) as Hp.
  unfold calculateCrawlSummary, bucket_sum. cbv zeta in *. simpl in H.
  destruct H as (Ht & Hh & Hr & Hc & Hs).
  repeat split; lia.
Qed.

(** ** [fetchWithProxy] and the fetches of a batch *)

Section BatchFacts.

Context {W : Type} (E : Env W).

(** With three attempts the loop always leaves through the final throw of
    the [catch] block. *)
Lemma fetchWithProxy_error u w message w' :
  fetchWithProxy E u w = (Err message, w') ->
  message = fetch_failed_message u 3.
Proof.
  unfold fetchWithProxy, fetchWithProxy_retries. simpl.
  destruct (proxy_attempt E u w) as [[body|] w1]; [congruence|].
  destruct (proxy_attempt E u w1) as [[body|] w2]; [congruence|].
  destruct (proxy_attempt E u w2) as [[body|] w3]; congruence.
Qed.

(** The early exit of the Gemini branch never exits: whatever the reply,
    the block completes normally, and a reply that is an error object goes
    on to the parsing below like any other. *)
Lemma gemini_error_probe_completes responseText :
  gemini_error_probe E responseText = Ok tt.
Proof.
  unfold gemini_error_probe.
  destruct (_ && _); [|done].
  destruct (JSON_parse_error E responseText) as [[message|]|e]; try done.
  by destruct (JsString.truthy message).
Qed.

Lemma fetch_page_outcome u w :
  fetch_page E u w =
  (Ok (fetched_page_of (u, fst (fetchWithProxy E u w))), snd (fetchWithProxy E u w)).
Proof.
  unfold fetch_page, try_catch, await, resolve.
  by destruct (fetchWithProxy E u w) as [[html|message] w'].
Qed.

Lemma promise_all_fetch urls w :
  promise_all (fetch_page E) urls w =
  (Ok (map fetched_page_of (fst (fetch_outcomes E urls w))), snd (fetch_outcomes E urls w)).
Proof.
  revert w. induction urls as [|u urls IH]; intros w; [done|].
  cbn [promise_all fetch_outcomes]. unfold await at 1.
  rewrite fetch_page_outcome.
  destruct (fetchWithProxy E u w) as [r w1]. cbn [fst snd].
  unfold await at 1. rewrite IH.
  by destruct (fetch_outcomes E urls w1) as [rs w2].
Qed.

Lemma fetch_outcomes_urls urls w :
  map fst (fst (fetch_outcomes E urls w)) = urls.
Proof.
  revert w. induction urls as [|u urls IH]; intros w; [done|].
  cbn [fetch_outcomes]. destruct (fetchWithProxy E u w) as [r w1].
  specialize (IH w1). destruct (fetch_outcomes E urls w1) as [rs w2].
  simpl in *. by rewrite IH.
Qed.

Lemma fetch_outcomes_failed urls w :
  Forall (fun failure => snd failure = fetch_failed_message (fst failure) 3)
         (failed_fetches (fst (fetch_outcomes E urls w))).
Proof.
  revert w. induction urls as [|u urls IH]; intros w; [constructor|].
  cbn [fetch_outcomes]. destruct (fetchWithProxy E u w) as [r w1] eqn:Hf.
  specialize (IH w1). destruct (fetch_outcomes E urls w1) as [rs w2].
  destruct r as [html|message]; simpl in *; [done|].
  constructor; [|done]. simpl. by eapply fetchWithProxy_error.
Qed.

Lemma outcomes_partition (outcomes : list (string * result string)) :
  map fst (failed_fetches outcomes) ++ map fst (fetched_pages outcomes)
  ≡ₚ map fst outcomes.
Proof.
  induction outcomes as [|[u [html|message]] outcomes IH]; simpl.
  - done.
  - rewrite <- IH. symmetry. apply Permutation_middle.
  - by rewrite IH.
Qed.

Lemma valid_pages_of_outcomes (outcomes : list (string * result string)) :
  filter (fun p => has_html p = true) (map fetched_page_of outcomes) =
  map (fun page => fetched_page_of (fst page, Ok (snd page))) (fetched_pages outcomes).
Proof.
  induction outcomes as [|[u [html|message]] outcomes IH]; simpl; [done| |].
  - rewrite filter_cons_True by done. by rewrite IH.
  - rewrite filter_cons_False by done. done.
Qed.

Lemma failed_pages_of_outcomes (outcomes : list (string * result string)) :
  filter (fun p => has_html p = false) (map fetched_page_of outcomes) =
  map (fun failure => fetched_page_of (fst failure, Err (snd failure)))
      (failed_fetches outcomes).
Proof.
  induction outcomes as [|[u [html|message]] outcomes IH]; simpl; [done| |].
  - rewrite filter_cons_False by done. done.
  - rewrite filter_cons_True by done. by rewrite IH.
Qed.

Lemma fetch_failed_pages (failures : list (string * string)) :
  Forall (fun failure => snd failure = fetch_failed_message (fst failure) 3) failures ->
  map (fetch_failed_page)
      (map (fun failure => fetched_page_of (fst failure, Err (snd failure))) failures)
  = map fetch_failed_placeholder failures.
Proof.
  induction 1 as [|[u message] failures Hm _ IH]; [done|].
  simpl in *. rewrite IH. f_equal.
  unfold fetch_failed_page, inferred_status. simpl. by rewrite Hm.
Qed.

(** What [analyzePageBatch] returns, by the outcomes of its fetches and of
    the model stage. *)
Lemma analyzePageBatch_run urls agent apiKey w :
  JsString.truthy apiKey = true ->
  let outcomes := fst (fetch_outcomes E urls w) in
  let w1 := snd (fetch_outcomes E urls w) in
  let placeholders := map fetch_failed_placeholder (failed_fetches outcomes) in
  analyzePageBatch E urls agent apiKey w =
  match fetched_pages outcomes with
  | [] => (Ok placeholders, w1)
  | validPages =>
      match page_batch_model E agent apiKey validPages w1 with
      | (Ok aiResults, w2) => (Ok (placeholders ++ aiResults), w2)
      | (Err message, w2) =>
          (Ok (placeholders ++
               map (analysis_failed_placeholder (analysis_error_message message)) validPages),
           w2)
      end
  end.
Proof.
  intros Hkey. cbv zeta. unfold analyzePageBatch. rewrite Hkey. cbn [negb].
  unfold await at 1. rewrite promise_all_fetch. cbv zeta.
  rewrite valid_pages_of_outcomes, failed_pages_of_outcomes.
  rewrite fetch_failed_pages by apply fetch_outcomes_failed.
  rewrite length_map.
  assert (forall pages : list (string * string),
    map page_for_prompt
        (map (fun page => fetched_page_of (fst page, Ok (snd page))) pages) = pages)
    as Hprompt.
  { intros pages. rewrite map_map. rewrite <- (map_id pages) at 2.
    apply map_ext. by intros [u html]. }
  rewrite Hprompt.
  assert (forall d (pages : list (string * string)),
    map (analysis_failed_page d)
        (map (fun page => fetched_page_of (fst page, Ok (snd page))) pages)
    = map (analysis_failed_placeholder d) pages) as Hfailed.
  { intros d pages. rewrite map_map. apply map_ext. by intros [u html]. }
  destruct (fetched_pages (fst (fetch_outcomes E urls w))) as [|page pages] eqn:Hvalid.
  - done.
  - cbn [length Nat.eqb]. unfold try_catch, await, resolve.
    destruct (page_batch_model E agent apiKey (page :: pages)
                (snd (fetch_outcomes E urls w))) as [[aiResults|message] w2].
    + done.
    + by rewrite Hfailed.
Qed.

End BatchFacts.

(** ** The status read off an error message *)

Section StatusFacts.

Import JsString.

Lemma take_digits_split s :
  exists rest,
    s = take_digits s +:+ rest /\
    free_of (fun a => negb (is_digit a)) (take_digits s) /\
    match rest with
    | EmptyString => True
    | String a _ => is_digit a = false
    end.
Proof.
  induction s as [|a s (rest & Hs & Hdigits & Hrest)]; [by exists ""|].
  simpl. destruct (is_digit a) eqn:Ha.
  - exists rest. rewrite app_cons, <- Hs. simpl. by rewrite Ha.
  - by exists (String a s).
Qed.

(** A match of [/status (\d+)/]: "status ", then the digits read, then
    something that is not a digit. *)
Lemma match_status_some message digits :
  match_status message = Some digits ->
  exists pre rest,
    message = pre +:+ "status " +:+ digits +:+ rest /\
    digits <> "" /\
    free_of (fun a => negb (is_digit a)) digits /\
    match rest with
    | EmptyString => True
    | String a _ => is_digit a = false
    end.
Proof.
  induction message as [|a message IH].
  - done.
  - cbn [match_status].
    destruct (startsWith (String a message) "status ") eqn:Hstart.
    + apply startsWith_spec in Hstart as [post Hpost]. rewrite Hpost.
      change (drop 7 ("status " +:+ post)) with post.
      destruct (truthy (take_digits post)) eqn:Hdigits.
      * intros [= <-]. destruct (take_digits_split post) as (rest & Hsplit & Hall & Hrest).
        exists "", rest. rewrite app_empty, <- Hsplit.
        split; [done|]. split; [|done]. by destruct (take_digits post).
      * rewrite <- Hpost. intros (pre & rest & -> & H)%IH.
        by exists (String a pre), rest.
    + intros (pre & rest & -> & H)%IH. by exists (String a pre), rest.
Qed.

(** No match: "status " is nowhere followed by a digit. *)
Lemma match_status_none message :
  match_status message = None ->
  forall pre d rest,
    is_digit d = true -> message <> pre +:+ "status " +:+ String d rest.
Proof.
  induction message as [|a message IH]; intros Hnone pre d rest Hd Hmessage.
  - destruct pre; by rewrite ?app_cons in Hmessage.
  - cbn [match_status] in Hnone.
    destruct pre as [|b pre].
    + rewrite app_empty in Hmessage. rewrite Hmessage in Hnone.
      assert (startsWith ("status " +:+ String d rest) "status " = true) as Hstart
        by (apply startsWith_spec; eauto).
      rewrite Hstart in Hnone.
      change (drop 7 ("status " +:+ String d rest)) with (String d rest) in Hnone.
      simpl in Hnone. by rewrite Hd in Hnone.
    + rewrite app_cons in Hmessage. injection Hmessage as -> ->.
      eapply IH; [|exact Hd|reflexivity].
      by destruct (if startsWith _ _ then _ else _).
Qed.

Example parseInt_404 : parseInt "404" = 404.
Proof. reflexivity. Qed.

(** Beyond [2 ^ 53] the integer read is rounded. *)
Example parseInt_rounds_to_even : parseInt "9007199254740993" = 9007199254740992.
Proof. by vm_compute. Qed.

Example parseInt_of_23_digits :
  parseInt "12345678901234567890123" = 12345678901234567741440.
Proof. by vm_compute. Qed.

End StatusFacts.

(** ** The Number value of an integer *)

Section DoubleFacts.

Import JsString.

Lemma fits_53_bits_gap q e d' :
  2 ^ 52 <= q -> 0 <= e -> fits_53_bits d' ->
  d' <= q * 2 ^ e \/ (q + 1) * 2 ^ e <= d'.
Proof.
  intros Hq He (m & e' & Hm & He' & ->).
  assert (0 < 2 ^ e) by (apply Z.pow_pos_nonneg; lia).
  assert (0 < 2 ^ e') by (apply Z.pow_pos_nonneg; lia).
  destruct (Z_lt_le_dec e' e) as [Hlt|Hge].
  - left.
    assert (2 ^ e = 2 ^ e' * 2 ^ (e - e')) as ->
      by (rewrite <- Z.pow_add_r by lia; f_equal; lia).
    assert (2 <= 2 ^ (e - e')).
    { change 2 with (2 ^ 1) at 1. apply Z.pow_le_mono_r; lia. }
    change (2 ^ 53) with (2 * 2 ^ 52) in Hm.
    generalize dependent (2 ^ 52). intros P HP Hm.
    generalize dependent (2 ^ (e - e')). intros k Hk.
    generalize dependent (2 ^ e'). intros t Ht.
    assert (m * t <= 2 * q * t) by nia.
    assert (0 <= q * t) by nia.
    assert ((q * t) * 2 <= (q * t) * k) by (apply Z.mul_le_mono_nonneg_l; lia).
    lia.
  - assert (2 ^ e' = 2 ^ (e' - e) * 2 ^ e) as ->
      by (rewrite <- Z.pow_add_r by lia; f_equal; lia).
    assert (0 < 2 ^ (e' - e)) by (apply Z.pow_pos_nonneg; lia).
    destruct (Z_le_gt_dec (m * 2 ^ (e' - e)) q); [left|right]; nia.
Qed.

(** [round_to_double n] has 53 significant bits, no integer with 53
    significant bits is nearer to [n], and when another one is as near,
    the significand of [round_to_double n] is even. *)
Lemma round_to_double_nearest_53 n :
  0 <= n ->
  let d := round_to_double n in
  fits_53_bits d /\
  (forall d', fits_53_bits d' -> Z.abs (n - d) <= Z.abs (n - d')) /\
  (forall d', fits_53_bits d' -> d' <> d -> Z.abs (n - d') = Z.abs (n - d) ->
     exists m e, Z.even m = true /\ 2 ^ 52 <= m < 2 ^ 53 /\ 0 <= e /\ d = m * 2 ^ e).
Proof.
  intros Hn. unfold round_to_double. cbv zeta.
  destruct (Z.leb_spec (Z.log2 n - 52) 0) as [He|He].
  - assert (n < 2 ^ 53).
    { destruct (Z.eq_dec n 0) as [->|]; [done|].
      pose proof (Z.log2_spec n ltac:(lia)) as [_ Hlt].
      eapply Z.lt_le_trans; [exact Hlt|]. apply Z.pow_le_mono_r; lia. }
    split; [|split].
    + exists n, 0. rewrite Z.mul_1_r. lia.
    + intros d' _. lia.
    + intros d' _ Hne Hd. lia.
  - set (e := Z.log2 n - 52) in *.
    assert (0 < n) as Hpos.
    { destruct (Z.eq_dec n 0) as [->|]; [|lia]. simpl in e. lia. }
    pose proof (Z.log2_spec n Hpos) as [Hlo Hhi].
    assert (0 < 2 ^ e) as Hpow by (apply Z.pow_pos_nonneg; lia).
    assert (2 ^ e = 2 * 2 ^ (e - 1)) as Hhalf.
    { rewrite <- Z.pow_succ_r by lia. f_equal. lia. }
    assert (0 < 2 ^ (e - 1)) as Hhalfpos by (apply Z.pow_pos_nonneg; lia).
    assert (2 ^ Z.log2 n = 2 ^ 52 * 2 ^ e) as Hlog.
    { rewrite <- Z.pow_add_r by lia. f_equal. lia. }
    assert (2 ^ Z.succ (Z.log2 n) = 2 ^ 53 * 2 ^ e) as Hlog'.
    { rewrite <- Z.pow_add_r by lia. f_equal. lia. }
    rewrite Hlog in Hlo. rewrite Hlog' in Hhi.
    pose proof (Z.div_mod n (2 ^ e) ltac:(lia)) as Hdiv.
    pose proof (Z.mod_pos_bound n (2 ^ e) Hpow) as Hr.
    set (q := n / 2 ^ e) in *. set (r := n mod 2 ^ e) in *.
    set (half := 2 ^ (e - 1)) in *.
    assert (2 ^ 52 <= q < 2 ^ 53) as Hq by nia.
    assert (forall q', q' = q \/ q' = q + 1 -> fits_53_bits (q' * 2 ^ e)) as Hfits.
    { intros q' Hq'. destruct (Z.eq_dec q' (2 ^ 53)) as [->|].
      - exists (2 ^ 52), (e + 1). split; [lia|]. split; [lia|].
        rewrite Z.pow_add_r by lia. change (2 ^ 53) with (2 ^ 52 * 2 ^ 1). ring.
      - exists q', e. split; [lia|]. split; [lia|reflexivity]. }
    assert (forall q', Z.even q' = true -> q' = q \/ q' = q + 1 ->
              exists m e0, Z.even m = true /\ 2 ^ 52 <= m < 2 ^ 53 /\ 0 <= e0 /\
                           q' * 2 ^ e = m * 2 ^ e0)
      as Heven.
    { intros q' Hev Hq'. destruct (Z.eq_dec q' (2 ^ 53)) as [->|].
      - exists (2 ^ 52), (e + 1). split; [reflexivity|]. split; [lia|]. split; [lia|].
        rewrite Z.pow_add_r by lia. change (2 ^ 53) with (2 ^ 52 * 2 ^ 1). ring.
      - exists q', e. split; [done|]. split; [lia|]. split; [lia|reflexivity]. }
    destruct (Z.ltb_spec half r) as [Hup|Hdown]; cbn [orb].
    + split; [apply Hfits; lia|]. split.
      * intros d' Hd'. destruct (fits_53_bits_gap q e d' (proj1 Hq) ltac:(lia) Hd'); nia.
      * intros d' Hd' Hne Hdist.
        destruct (fits_53_bits_gap q e d' (proj1 Hq) ltac:(lia) Hd'); nia.
    + destruct (Z.eqb_spec r half) as [Htie|Hless]; cbn [andb].
      * destruct (Z.odd q) eqn:Hodd.
        -- split; [apply Hfits; lia|]. split.
           ++ intros d' Hd'.
              destruct (fits_53_bits_gap q e d' (proj1 Hq) ltac:(lia) Hd'); nia.
           ++ intros _ _ _ _. apply Heven; [|lia].
              rewrite Z.even_add. rewrite <- Z.negb_odd, Hodd. reflexivity.
        -- split; [apply Hfits; lia|]. split.
           ++ intros d' Hd'.
              destruct (fits_53_bits_gap q e d' (proj1 Hq) ltac:(lia) Hd'); nia.
           ++ intros _ _ _ _. apply Heven; [|lia].
              rewrite <- Z.negb_odd, Hodd. reflexivity.
      * split; [apply Hfits; lia|]. split.
        -- intros d' Hd'.
           destruct (fits_53_bits_gap q e d' (proj1 Hq) ltac:(lia) Hd'); nia.
        -- intros d' Hd' Hne Hdist.
           destruct (fits_53_bits_gap q e d' (proj1 Hq) ltac:(lia) Hd'); nia.
Qed.

Lemma is_double_fits d : is_double d -> fits_53_bits d.
Proof. intros (m & e & Hm & He & ->). exists m, e. lia. Qed.

(** An integer with 53 significant bits below [2 ^ 1024] is a double. *)
Lemma fits_53_bits_double d : fits_53_bits d -> d < 2 ^ 1024 -> is_double d.
Proof.
  intros (m & e & Hm & He & ->) Hd.
  destruct (Z_le_gt_dec e 971) as [Hle|Hgt]; [exists m, e; lia|].
  exists (m * 2 ^ (e - 971)), 971.
  assert (2 ^ e = 2 ^ (e - 971) * 2 ^ 971) as Hsplit
    by (rewrite <- Z.pow_add_r by lia; f_equal; lia).
  assert (0 < 2 ^ (e - 971)) by (apply Z.pow_pos_nonneg; lia).
  rewrite Hsplit in Hd |- *.
  change (2 ^ 1024) with (2 ^ 53 * 2 ^ 971) in Hd.
  assert (0 < 2 ^ 971) by (apply Z.pow_pos_nonneg; lia).
  set (t := 2 ^ 971) in *. set (k := 2 ^ (e - 971)) in *. set (P := 2 ^ 53) in *.
  clearbody t k P. clear Hsplit.
  split; [nia|]. split; [lia|ring].
Qed.

Lemma round_to_double_nearest n :
  0 <= n < Infinity_from -> nearest_double n (round_to_double n).
Proof.
  intros [Hn Hbound].
  destruct (round_to_double_nearest_53 n Hn) as (Hfits & Hnear & Htie). cbv zeta in *.
  assert (round_to_double n < 2 ^ 1024) as Hfinite.
  { assert (fits_53_bits ((2 ^ 53 - 1) * 2 ^ 971)) as Hmax.
    { exists (2 ^ 53 - 1), 971. lia. }
    specialize (Hnear _ Hmax). unfold Infinity_from in Hbound.
    change (2 ^ 1024) with ((2 ^ 53 - 1) * 2 ^ 971 + 2 * 2 ^ 970) in *.
    set (M := (2 ^ 53 - 1) * 2 ^ 971) in *. set (h := 2 ^ 970) in *.
    assert (0 < h) by done. clearbody M h. lia. }
  split; [by apply fits_53_bits_double|]. split.
  - intros d' Hd'. by apply Hnear, is_double_fits.
  - intros d' Hd' Hne Hdist.
    destruct (Htie d' (is_double_fits _ Hd') Hne Hdist) as (m & e & Hev & Hm & He & Hd).
    exists m, e. split; [done|]. split; [done|]. split; [|done].
    split; [done|].
    destruct (Z_le_gt_dec e 971) as [|Hgt]; [done|]. exfalso.
    rewrite Hd in Hfinite.
    assert (2 ^ 972 <= 2 ^ e) by (apply Z.pow_le_mono_r; lia).
    change (2 ^ 1024) with (2 ^ 52 * 2 ^ 972) in Hfinite.
    set (t := 2 ^ 972) in *. set (k := 2 ^ e) in *. set (P := 2 ^ 52) in *.
    assert (0 < t) by done. assert (0 < P) by done.
    clearbody t k P. clear Htie Hnear Hfits Hev.
    assert (P * t <= m * k) by (apply Z.mul_le_mono_nonneg; lia). lia.
Qed.

(** A double is its own Number value. *)
Lemma nearest_double_exact n d : is_double n -> nearest_double n d -> d = n.
Proof. intros Hn (_ & Hnear & _). specialize (Hnear n Hn). lia. Qed.

End DoubleFacts.

Section StatusTold.

Import JsString.

Lemma is_decimal_digit a : is_decimal a = is_digit a.
Proof. by destruct a as [[] [] [] [] [] [] [] []]. Qed.

Lemma decimal_digit_value a : is_digit a = true -> decimal_digit a = Some (digit_value a).
Proof. by destruct a as [[] [] [] [] [] [] [] []]. Qed.

Lemma free_of_ext (p q : ascii -> bool) s :
  (forall a, q a = p a) -> free_of p s -> free_of q s.
Proof.
  intros Hpq. induction s as [|a s IH]; [done|].
  intros [Ha Hs]. split; [by rewrite Hpq|by apply IH].
Qed.

(** The loop of [parseInt] computes the number the digits denote. *)
Lemma parseInt_from_number digits : forall acc,
  free_of (fun a => negb (is_digit a)) digits ->
  parseInt_from acc digits
  = acc * 10 ^ Z.of_nat (String.length digits) + number_of_digits digits.
Proof.
  induction digits as [|a digits IH]; intros acc Hdigits.
  - simpl. lia.
  - destruct Hdigits as [Ha Hdigits]. apply negb_false_iff in Ha.
    cbn [parseInt_from number_of_digits String.length].
    rewrite IH by done. rewrite (decimal_digit_value a Ha). cbn [default from_option].
    unfold id. rewrite Nat2Z.inj_succ, Z.pow_succ_r by lia. ring.
Qed.

Lemma number_of_digits_nonneg digits : 0 <= number_of_digits digits.
Proof.
  induction digits as [|a digits IH]; [done|].
  cbn [number_of_digits].
  assert (0 <= default 0 (decimal_digit a))
    by by destruct a as [[] [] [] [] [] [] [] []].
  assert (0 <= 10 ^ Z.of_nat (String.length digits)) by (apply Z.pow_nonneg; lia).
  nia.
Qed.

Lemma parseInt_number digits :
  free_of (fun a => negb (is_digit a)) digits ->
  parseInt digits = round_to_double (number_of_digits digits).
Proof. intros Hdigits. unfold parseInt. by rewrite parseInt_from_number. Qed.

(** The match of [/status (\d+)/] is the leftmost one. *)
Lemma match_status_first message digits :
  match_status message = Some digits ->
  exists pre rest,
    message = pre +:+ "status " +:+ digits +:+ rest /\
    digits <> "" /\
    free_of (fun a => negb (is_digit a)) digits /\
    match rest with
    | EmptyString => True
    | String a _ => is_digit a = false
    end /\
    (forall pre' d rest',
       is_digit d = true -> message = pre' +:+ "status " +:+ String d rest' ->
       (String.length pre <= String.length pre')%nat).
Proof.
  induction message as [|a message IH]; [done|].
  intros Hmatch.
  assert ((exists post, String a message = "status " +:+ post /\
                        truthy (take_digits post) = true /\ digits = take_digits post) \/
          ((forall d rest', is_digit d = true ->
              String a message <> "status " +:+ String d rest') /\
           match_status message = Some digits)) as [Hhere|[Hnot Hrest]].
  { revert Hmatch. cbn [match_status].
    destruct (startsWith (String a message) "status ") eqn:Hstart.
    - apply startsWith_spec in Hstart as [post Hpost]. rewrite Hpost.
      change (drop 7 ("status " +:+ post)) with post.
      destruct (truthy (take_digits post)) eqn:Hdigits.
      + intros [= <-]. left. by exists post.
      + intros Hmatch. right. split; [|done].
        intros d rest' Hd Heq. simpl in Heq. injection Heq as Heq.
        rewrite !app_empty in Heq. subst post. simpl in Hdigits. by rewrite Hd in Hdigits.
    - intros Hmatch. right. split; [|done]. intros d rest' Hd Heq.
      assert (startsWith (String a message) "status " = true) as Hstart'
        by (apply startsWith_spec; eauto).
      congruence. }
  - destruct Hhere as (post & Hpost & Htruthy & ->).
    destruct (take_digits_split post) as (rest & Hsplit & Hall & Hrest).
    exists "", rest. rewrite app_empty, <- Hsplit.
    split; [done|]. split; [by destruct (take_digits post)|]. split; [done|].
    split; [done|]. intros pre' d rest' _ _. simpl. lia.
  - destruct (IH Hrest) as (pre & rest & -> & Hne & Hall & Hafter & Hfirst).
    exists (String a pre), rest. split; [done|]. split; [done|]. split; [done|].
    split; [done|]. intros pre' d rest' Hd Heq.
    destruct pre' as [|b pre'].
    + rewrite app_empty in Heq. by destruct (Hnot d rest' Hd).
    + rewrite app_cons in Heq. injection Heq as _ Heq.
      cbn [String.length]. apply le_n_S. by eapply Hfirst.
Qed.

(** The status the code reads off a message is the one the message
    tells. *)
Lemma inferred_status_told message : status_told message (inferred_status message).
Proof.
  unfold inferred_status. destruct (match_status message) as [digits|] eqn:Hmatch.
  - destruct (match_status_first _ _ Hmatch) as (pre & rest & Hm & Hne & Hall & Hafter & Hfirst).
    apply (status_parsed message pre digits rest); [done|done| | | |].
    + eapply free_of_ext; [|exact Hall]. intros a. by rewrite is_decimal_digit.
    + destruct rest; [done|]. by rewrite is_decimal_digit.
    + intros pre' d rest' Hd. rewrite is_decimal_digit in Hd. by apply Hfirst.
    + intros Hbound. rewrite parseInt_number by done.
      apply round_to_double_nearest. split; [apply number_of_digits_nonneg|done].
  - apply status_default. intros pre d rest Hd. rewrite is_decimal_digit in Hd.
    by eapply match_status_none.
Qed.

End StatusTold.

(** ** A text tells one status *)

Section StatusToldOnce.

Lemma pow2_split a b : 0 <= a <= b -> 2 ^ b = 2 ^ (b - a) * 2 ^ a.
Proof. intros H. rewrite <- Z.pow_add_r by lia. f_equal. lia. Qed.

Lemma nearest_double_ordered n d1 d2 :
  nearest_double n d1 -> nearest_double n d2 -> ~ d1 < d2.
Proof.
  intros (Hd1 & Hnear1 & Htie1) (Hd2 & Hnear2 & Htie2) Hlt.
  pose proof (Hnear1 d2 Hd2) as H12. pose proof (Hnear2 d1 Hd1) as H21.
  assert (Z.abs (n - d2) = Z.abs (n - d1)) as Hdist by lia.
  destruct (Htie1 d2 Hd2 ltac:(lia) Hdist) as (m1 & e1 & Hev1 & Hm1 & He1 & ->).
  destruct (Htie2 (m1 * 2 ^ e1) Hd1 ltac:(lia) ltac:(lia))
    as (m2 & e2 & Hev2 & Hm2 & He2 & ->).
  assert (m1 + 1 < 2 ^ 53) as Hnext.
  { destruct (Z.eq_dec (m1 + 1) (2 ^ 53)) as [Heq|]; [|lia].
    assert (m1 = 2 ^ 53 - 1) as -> by lia. done. }
  assert (is_double ((m1 + 1) * 2 ^ e1)) as Hx by (exists (m1 + 1), e1; lia).
  assert (is_double ((m2 - 1) * 2 ^ e2)) as Hy by (exists (m2 - 1), e2; lia).
  pose proof (Hnear1 _ Hx) as Hx1. pose proof (Hnear2 _ Hy) as Hy2.
  assert (0 < 2 ^ e1) by (apply Z.pow_pos_nonneg; lia).
  assert (0 < 2 ^ e2) by (apply Z.pow_pos_nonneg; lia).
  assert (m2 * 2 ^ e2 <= (m1 + 1) * 2 ^ e1) as Hup by lia.
  assert ((m2 - 1) * 2 ^ e2 <= m1 * 2 ^ e1) as Hdown by lia.
  clear Hnear1 Hnear2 Htie1 Htie2 Hd1 Hd2 Hx Hy Hx1 Hy2 H12 H21 Hdist.
  change (2 ^ 53) with (2 * 2 ^ 52) in *.
  destruct (Z.lt_trichotomy e1 e2) as [He|[->|He]].
  - rewrite (pow2_split e1 e2) in * by lia.
    assert (2 <= 2 ^ (e2 - e1)).
    { change 2 with (2 ^ 1) at 1. apply Z.pow_le_mono_r; lia. }
    set (k := 2 ^ (e2 - e1)) in *. set (t := 2 ^ e1) in *. set (P := 2 ^ 52) in *.
    assert (0 < P) by done. clearbody k t P.
    assert (m2 * k <= m1 + 1) by nia.
    assert (2 * P <= m2 * k) by nia. lia.
  - assert (m2 = m1 + 1) as -> by nia.
    rewrite Z.even_add in Hev2. rewrite Hev1 in Hev2. done.
  - rewrite (pow2_split e2 e1) in * by lia.
    assert (2 <= 2 ^ (e1 - e2)).
    { change 2 with (2 ^ 1) at 1. apply Z.pow_le_mono_r; lia. }
    set (k := 2 ^ (e1 - e2)) in *. set (t := 2 ^ e2) in *. set (P := 2 ^ 52) in *.
    assert (0 < P) by done. clearbody k t P.
    assert (m2 - 1 <= m1 * k) by nia.
    assert (m1 * k < m2) by nia.
    assert (2 * P <= m1 * k) by nia. lia.
Qed.

(** The Number value of a natural number is unique. *)
Lemma nearest_double_functional n d1 d2 :
  nearest_double n d1 -> nearest_double n d2 -> d1 = d2.
Proof.
  intros H1 H2.
  pose proof (nearest_double_ordered n d1 d2 H1 H2).
  pose proof (nearest_double_ordered n d2 d1 H2 H1). lia.
Qed.

(** A run of digits that ends before something else than a digit. *)
Lemma digits_run_unique digits1 : forall digits2 rest1 rest2,
  digits1 +:+ rest1 = digits2 +:+ rest2 ->
  free_of (fun a => negb (is_decimal a)) digits1 ->
  free_of (fun a => negb (is_decimal a)) digits2 ->
  match rest1 with EmptyString => True | String a _ => is_decimal a = false end ->
  match rest2 with EmptyString => True | String a _ => is_decimal a = false end ->
  digits1 = digits2.
Proof.
  induction digits1 as [|a digits1 IH]; intros [|b digits2] rest1 rest2 Heq H1 H2 Hr1 Hr2.
  - done.
  - rewrite app_empty, app_cons in Heq. subst rest1.
    destruct H2 as [Hb _]. apply negb_false_iff in Hb. congruence.
  - rewrite app_empty, app_cons in Heq. subst rest2.
    destruct H1 as [Ha _]. apply negb_false_iff in Ha. congruence.
  - rewrite !app_cons in Heq. injection Heq as -> Heq.
    destruct H1 as [_ H1], H2 as [_ H2]. f_equal. by eapply IH.
Qed.

(** A text tells one status. *)
Lemma status_told_functional message n1 n2 :
  told_in_range message ->
  status_told message n1 -> status_told message n2 -> n1 = n2.
Proof.
  intros Hrange H1 H2.
  assert (forall pre digits rest,
            message = pre +:+ "status " +:+ digits +:+ rest ->
            digits <> "" -> free_of (fun a => negb (is_decimal a)) digits ->
            exists d ds, digits = String d ds /\ is_decimal d = true /\
                         message = pre +:+ "status " +:+ String d (ds +:+ rest)) as Hfirst.
  { intros pre digits rest Hm Hne Hall. destruct digits as [|d ds]; [done|].
    destruct Hall as [Hd _]. apply negb_false_iff in Hd.
    exists d, ds. by rewrite <- app_cons. }
  destruct H1 as [Hnone1|pre1 digits1 rest1 m1 Hm1 Hne1 Hall1 Hrest1 Hleft1 Hn1];
    destruct H2 as [Hnone2|pre2 digits2 rest2 m2 Hm2 Hne2 Hall2 Hrest2 Hleft2 Hn2].
  - done.
  - destruct (Hfirst _ _ _ Hm2 Hne2 Hall2) as (d & ds & _ & Hd & Hm). by destruct (Hnone1 _ _ _ Hd Hm).
  - destruct (Hfirst _ _ _ Hm1 Hne1 Hall1) as (d & ds & _ & Hd & Hm). by destruct (Hnone2 _ _ _ Hd Hm).
  - destruct (Hfirst _ _ _ Hm1 Hne1 Hall1) as (d1 & ds1 & _ & Hd1 & Hm1').
    destruct (Hfirst _ _ _ Hm2 Hne2 Hall2) as (d2 & ds2 & _ & Hd2 & Hm2').
    pose proof (Hleft1 _ _ _ Hd2 Hm2') as Hle1.
    pose proof (Hleft2 _ _ _ Hd1 Hm1') as Hle2.
    assert (pre1 = pre2 /\ "status " +:+ digits1 +:+ rest1 = "status " +:+ digits2 +:+ rest2)
      as [-> Heq] by (apply app_inj_length; [congruence|lia]).
    apply app_inj_length in Heq as [_ Heq]; [|done].
    assert (digits1 = digits2) as -> by by eapply digits_run_unique.
    eapply nearest_double_functional; [apply Hn1|apply Hn2]; by eapply Hrange.
Qed.

(** A text of up to 308 characters is in range. *)
Lemma number_of_digits_bound digits :
  number_of_digits digits < 10 ^ Z.of_nat (String.length digits).
Proof.
  induction digits as [|a digits IH]; [done|].
  cbn [number_of_digits String.length]. rewrite Nat2Z.inj_succ, Z.pow_succ_r by lia.
  assert (default 0 (decimal_digit a) <= 9)
    by by destruct a as [[] [] [] [] [] [] [] []].
  assert (0 < 10 ^ Z.of_nat (String.length digits)) by (apply Z.pow_pos_nonneg; lia).
  nia.
Qed.

Lemma short_told_in_range message :
  (String.length message <= 308)%nat -> told_in_range message.
Proof.
  intros Hshort pre digits rest ->.
  rewrite !length_app in Hshort.
  eapply Z.lt_le_trans; [apply number_of_digits_bound|].
  transitivity (10 ^ 308); [apply Z.pow_le_mono_r; lia|]. by vm_compute.
Qed.

End StatusToldOnce.

Example status_told_404 n :
  status_told (fetch_failed_message "https://example.com/status 404" 3) n <-> n = 404.
Proof.
  split.
  - intros Hn. eapply status_told_functional; [|exact Hn|apply inferred_status_told].
    apply short_told_in_range. vm_compute. lia.
  - intros ->. apply (inferred_status_told (fetch_failed_message "https://example.com/status 404" 3)).
Qed.

(** ** [analyzePageBatch] *)

Lemma truthy_nonempty s : s <> "" -> JsString.truthy s = true.
Proof. by destruct s. Qed.

Lemma isRateLimitError_spec message :
  isRateLimitError message = true <-> rate_limited message.
Proof.
  unfold isRateLimitError, rate_limited, contains.
  rewrite !orb_true_iff, !includes_spec. tauto.
Qed.

Lemma accounts_for_permutation urls results :
  map url results ≡ₚ urls -> accounts_for urls results.
Proof.
  intros H. split; [|done].
  apply Permutation_length in H. by rewrite length_map in H.
Qed.

Section BatchClaims.

Context {W : Type} (E : Env W).

Lemma placeholder_urls (failures : list (string * string)) :
  map url (map fetch_failed_placeholder failures) = map fst failures.
Proof. rewrite map_map. apply map_ext. by intros [u message]. Qed.

Lemma analysis_placeholder_urls d (pages : list (string * string)) :
  map url (map (analysis_failed_placeholder d) pages) = map fst pages.
Proof. rewrite map_map. by apply map_ext. Qed.

Lemma batch_urls_partition urls w (others : list CrawledPage) :
  map url others ≡ₚ map fst (fetched_pages (fst (fetch_outcomes E urls w))) ->
  map url (map fetch_failed_placeholder (failed_fetches (fst (fetch_outcomes E urls w)))
           ++ others) ≡ₚ urls.
Proof.
  intros H. rewrite map_app, placeholder_urls, H, outcomes_partition.
  by rewrite fetch_outcomes_urls.
Qed.



(** C4: when some URL was fetched and the model call or the parsing of the
    reply throws, [analyzePageBatch] returns normally: the placeholders of
    the failed fetches, followed by one placeholder per fetched URL with
    status 500 and title "Analysis Failed".  Their description is the
    rate-limit message when the error message contains "429",
    "RESOURCE_EXHAUSTED" or "rate limit", and the error message otherwise
    (a fixed text standing in for an empty message). *)
Theorem analyzePageBatch_analysis_failure urls agent apiKey w message w2 :
  apiKey <> "" ->
  let outcomes := fst (fetch_outcomes E urls w) in
  let w1 := snd (fetch_outcomes E urls w) in
  let validPages := fetched_pages outcomes in
  validPages <> [] ->
  page_batch_model E agent apiKey validPages w1 = (Err message, w2) ->
  exists description,
    analyzePageBatch E urls agent apiKey w =
      (Ok (map fetch_failed_placeholder (failed_fetches outcomes)
           ++ map (analysis_failed_placeholder description) validPages), w2) /\
    (rate_limited message -> description = rate_limit_message) /\
    (~ rate_limited message -> message <> "" -> description = message) /\
    (~ rate_limited message -> message = "" ->
     description = "Could not parse AI response.").
Proof.
  intros Hkey%truthy_nonempty. cbv zeta. intros Hvalid Hmodel.
  exists (analysis_error_message message). split.
  - rewrite (analyzePageBatch_run E urls agent apiKey w Hkey). cbv zeta.
    destruct (fetched_pages (fst (fetch_outcomes E urls w))); [done|].
    by rewrite Hmodel.
  - unfold analysis_error_message.
    destruct (isRateLimitError message) eqn:Hrate.
    + apply isRateLimitError_spec in Hrate. repeat split; intros; done.
    + assert (~ rate_limited message) as Hnot.
      { rewrite <- isRateLimitError_spec. congruence. }
      repeat split; intros; try done.
      * by destruct message.
      * by subst message.
Qed.

(** The placeholder of a failed fetch is the record asked for. *)
Lemma fetch_failed_placeholders_records (failures : list (string * string)) :
  Forall2 fetch_failed_record failures (map fetch_failed_placeholder failures).
Proof.
  apply Forall2_fmap_r, Forall_Forall2_diag, Forall_forall.
  intros [u message] _. repeat split. apply inferred_status_told.
Qed.

(** C6: every URL of the batch whose fetch fails yields one placeholder,
    at the head of the result in the order of the batch: its URL, title
    "Fetch Failed", the fetch error message as description, zero link
    counts, no meta tags, and the status the error message tells.  That
    is 500 when "status " is nowhere followed by a digit in the message;
    otherwise it is the integer that the digits after the leftmost such
    "status " denote, as [parseInt] holds it: the integer itself up to
    [2 ^ 53], and the double nearest to it beyond. *)
Theorem analyzePageBatch_fetch_failures urls agent apiKey w :
  apiKey <> "" ->
  let outcomes := fst (fetch_outcomes E urls w) in
  Forall (fun failure => snd failure = fetch_failed_message (fst failure) 3)
         (failed_fetches outcomes) /\
  exists placeholders others w',
    analyzePageBatch E urls agent apiKey w = (Ok (placeholders ++ others), w') /\
    Forall2 fetch_failed_record (failed_fetches outcomes) placeholders /\
    (fetched_pages outcomes = [] -> others = []).
Proof.
  intros Hkey%truthy_nonempty. cbv zeta.
  split; [apply fetch_outcomes_failed|].
  rewrite (analyzePageBatch_run E urls agent apiKey w Hkey). cbv zeta.
  exists (map fetch_failed_placeholder (failed_fetches (fst (fetch_outcomes E urls w)))).
  destruct (fetched_pages (fst (fetch_outcomes E urls w))) as [|page pages].
  - exists [], (snd (fetch_outcomes E urls w)). rewrite app_nil_r.
    split; [done|]. split; [apply fetch_failed_placeholders_records|done].
  - destruct (page_batch_model E agent apiKey (page :: pages) _)
      as [[aiResults|message] w2]; eexists _, _;
      (split; [reflexivity|]); (split; [apply fetch_failed_placeholders_records|done]).
Qed.

End BatchClaims.


Lemma analyzePageBatch_analysis_failure_witness :
  "key" <> "" /\
  exists description,
    analyzePageBatch (Example.env Example.over_quota) Example.batch
      Example.agent "key" 0%nat =
      (Ok (map fetch_failed_placeholder
             [("https://example.com/x",
               fetch_failed_message "https://example.com/x" 3)]
           ++ map (analysis_failed_placeholder description)
                [("https://example.com/", "<html></html>")]), 5%nat) /\
    (rate_limited "got status: 429 Too Many Requests" ->
     description = rate_limit_message) /\
    (~ rate_limited "got status: 429 Too Many Requests" ->
     "got status: 429 Too Many Requests" <> "" ->
     description = "got status: 429 Too Many Requests") /\
    (~ rate_limited "got status: 429 Too Many Requests" ->
     "got status: 429 Too Many Requests" = "" ->
     description = "Could not parse AI response.").
Proof.
  split; [done|].
  apply (analyzePageBatch_analysis_failure (Example.env Example.over_quota)
           Example.batch Example.agent "key" 0%nat
           "got status: 429 Too Many Requests" 5%nat).
  - done.
  - done.
  - reflexivity.
Defined.

Lemma analyzePageBatch_fetch_failures_witness :
  "key" <> "" /\
  exists placeholders others w',
    analyzePageBatch (Example.env Example.offline) Example.unreachable_batch
      Example.agent "key" 0%nat = (Ok (placeholders ++ others), w') /\
    Forall2 fetch_failed_record
      [("https://example.com/status 404",
        fetch_failed_message "https://example.com/status 404" 3);
       ("https://example.com/x", fetch_failed_message "https://example.com/x" 3)]
      placeholders /\
    others = [].
Proof.
  split; [done|].
  destruct (analyzePageBatch_fetch_failures (Example.env Example.offline)
              Example.unreachable_batch Example.agent "key" 0%nat)
    as (_ & placeholders & others & w' & Hrun & Hrecords & Hothers); [done|].
  exists placeholders, others, w'. split; [exact Hrun|]. split; [exact Hrecords|].
  by apply Hothers.
Defined.

Example fetch_failed_status_parsed :
  status (fetch_failed_placeholder
            ("https://example.com/status 404",
             fetch_failed_message "https://example.com/status 404" 3)) = 404.
Proof. reflexivity. Qed.

Example fetch_failed_status_default :
  status (fetch_failed_placeholder
            ("https://example.com/x", fetch_failed_message "https://example.com/x" 3)) = 500.
Proof. reflexivity. Qed.

Example inferred_status_of_proxy_error :
  inferred_status "Proxy request failed with status 404 for https://example.com/x" = 404.
Proof. reflexivity. Qed.

(** C10: with a non-empty key, [analyzePageBatch] on the empty batch
    returns the empty list and leaves the world as it is, whatever the
    environment: no fetch and no model call is made, so two environments
    that differ in the model backend (or anywhere else) give the same
    result. *)
Theorem analyzePageBatch_empty_batch {W : Type} (E1 E2 : Env W) agent apiKey w :
  apiKey <> "" ->
  analyzePageBatch E1 [] agent apiKey w = (Ok [], w) /\
  analyzePageBatch E2 [] agent apiKey w = analyzePageBatch E1 [] agent apiKey w.
Proof.
  intros Hkey%truthy_nonempty. unfold analyzePageBatch. by rewrite Hkey.
Qed.

Lemma analyzePageBatch_empty_batch_witness :
  "key" <> "" /\
  analyzePageBatch (Example.env Example.empty_answer) [] Example.agent "key" 0%nat
    = (Ok [], 0%nat) /\
  analyzePageBatch (Example.env Example.over_quota) [] Example.agent "key" 0%nat
    = analyzePageBatch (Example.env Example.empty_answer) [] Example.agent "key" 0%nat.
Proof.
  split; [done|].
  apply (analyzePageBatch_empty_batch (Example.env Example.empty_answer)
           (Example.env Example.over_quota) Example.agent "key" 0%nat).
  done.
Defined.

(** ** [analyzeRobotsTxt] and [analyzeAdsTxt] *)

(** C7: with a non-empty key, when the fetch of the well-known file fails
    (or the site URL does not parse) [analyzeRobotsTxt] returns
    [{rules: [], sitemaps: []}] and [analyzeAdsTxt] returns
    [{records: [], malformedLines: []}]; neither throws, and no model call
    is made. *)
Theorem analyzers_absent_file {W : Type} (E : Env W) siteUrl agent apiKey w :
  apiKey <> "" ->
  (forall u message w',
     URL_new E siteUrl = Some u ->
     fetchWithProxy E (origin u +:+ "/robots.txt") w = (Err message, w') ->
     analyzeRobotsTxt E siteUrl agent apiKey w
     = (Ok {| rules := []; sitemaps := [] |}, w')) /\
  (forall u message w',
     URL_new E siteUrl = Some u ->
     fetchWithProxy E (origin u +:+ "/ads.txt") w = (Err message, w') ->
     analyzeAdsTxt E siteUrl agent apiKey w
     = (Ok {| records := []; malformedLines := [] |}, w')) /\
  (URL_new E siteUrl = None ->
   analyzeRobotsTxt E siteUrl agent apiKey w = (Ok {| rules := []; sitemaps := [] |}, w) /\
   analyzeAdsTxt E siteUrl agent apiKey w
   = (Ok {| records := []; malformedLines := [] |}, w)).
Proof.
  intros Hkey%truthy_nonempty.
  unfold analyzeRobotsTxt, analyzeAdsTxt, well_known. rewrite Hkey. cbn [negb].
  split; [|split].
  - intros u message w' -> Hfetch. by rewrite Hfetch.
  - intros u message w' -> Hfetch. by rewrite Hfetch.
  - by intros ->.
Qed.

Lemma analyzers_absent_file_witness :
  "key" <> "" /\
  analyzeRobotsTxt (Example.env Example.offline) "https://example.com/page"
    Example.agent "key" 0%nat
  = (Ok {| rules := []; sitemaps := [] |}, 3%nat) /\
  analyzeAdsTxt (Example.env Example.offline) "https://example.com/page"
    Example.agent "key" 0%nat
  = (Ok {| records := []; malformedLines := [] |}, 3%nat).
Proof.
  split; [done|].
  destruct (analyzers_absent_file (Example.env Example.offline)
              "https://example.com/page" Example.agent "key" 0%nat)
    as (Hrobots & Hads & _); [done|].
  split.
  - by eapply Hrobots.
  - by eapply Hads.
Defined.

(** ** Sitemap traversal *)

Lemma is_sitemap_loc_spec l : is_sitemap_loc l = true <-> ends_like_sitemap l.
Proof.
  unfold is_sitemap_loc, ends_like_sitemap.
  rewrite orb_true_iff, !endsWith_toLowerCase. split.
  - intros [(pre & suffix & H1 & H2)|(pre & suffix & H1 & H2)];
      exists pre, suffix; tauto.
  - intros (pre & suffix & H1 & [H2|H2]); [left|right]; by exists pre, suffix.
Qed.

Section LoopFacts.

Context {W S : Type} (step : S -> W -> option (S * W)).

(** A property kept by every iteration holds when the loop ends, and the
    loop condition is then false. *)
Lemma while_loop_invariant (I : S -> W -> Prop) :
  (forall s w s' w', I s w -> step s w = Some (s', w') -> I s' w') ->
  forall fuel s w s' w',
    I s w -> while_loop step fuel s w = Some (s', w') ->
    I s' w' /\ step s' w' = None.
Proof.
  intros Hstep. induction fuel as [|fuel IH]; intros s w s' w' Hs Hrun; [done|].
  simpl in Hrun. destruct (step s w) as [[s1 w1]|] eqn:Hs1.
  - eapply IH; [|exact Hrun]. by eapply Hstep.
  - by injection Hrun as <- <-.
Qed.

Lemma while_loop_iterations fuel s w r :
  while_loop step fuel s w = Some r -> r = iterations step fuel s w.
Proof.
  revert s w. induction fuel as [|fuel IH]; intros s w Hrun; [done|].
  simpl in *. destruct (step s w) as [[s1 w1]|]; [by apply IH|congruence].
Qed.

Lemma while_loop_more_fuel fuel fuel' s w r :
  (fuel <= fuel')%nat -> while_loop step fuel s w = Some r ->
  while_loop step fuel' s w = Some r.
Proof.
  revert fuel' s w. induction fuel as [|fuel IH]; intros fuel' s w Hle Hrun; [done|].
  destruct fuel' as [|fuel']; [lia|]. simpl in *.
  destruct (step s w) as [[s1 w1]|]; [|done]. apply IH; [lia|done].
Qed.

End LoopFacts.

Section SitemapFacts.

Context {W : Type} (E : Env W).

(** The [for] loop over the entries of one sitemap: the visited set is
    untouched, the leaves are appended in order, the queue only grows, and
    every sitemap-like entry is in the queue afterwards unless it had been
    visited before. *)
Lemma collect_entries (parsed : list SitemapEntry) (st : SitemapState) :
  let st' := fold_left collect_entry parsed st in
  visitedSitemaps st' = visitedSitemaps st /\
  allEntries st' =
    allEntries st ++ filter (fun e => is_sitemap_loc (loc e) = false) parsed /\
  (forall u, u ∈ sitemap_queue st -> u ∈ sitemap_queue st') /\
  (forall e, e ∈ parsed -> is_sitemap_loc (loc e) = true ->
     loc e ∈ visitedSitemaps st \/ loc e ∈ sitemap_queue st').
Proof.
  revert st. induction parsed as [|entry parsed IH]; intros st.
  - cbn [fold_left]. rewrite filter_nil, app_nil_r. repeat split; try done.
    intros e He. by apply elem_of_nil in He.
  - cbn [fold_left].
    destruct (IH (collect_entry st entry)) as (Hv & Ha & Hq & Hs).
    cbv zeta in *.
    assert (visitedSitemaps (collect_entry st entry) = visitedSitemaps st) as Hv1.
    { unfold collect_entry. by repeat case_match. }
    assert (forall u, u ∈ sitemap_queue st -> u ∈ sitemap_queue (collect_entry st entry))
      as Hq1.
    { intros u Hu. unfold collect_entry. repeat case_match; simpl; try done.
      apply elem_of_app. by left. }
    split; [congruence|]. split; [|split].
    + rewrite Ha. unfold collect_entry.
      destruct (is_sitemap_loc (loc entry)) eqn:Hsm.
      * rewrite filter_cons_False by congruence. by case_match.
      * rewrite filter_cons_True by done. simpl. by rewrite <- app_assoc.
    + intros u Hu. by apply Hq, Hq1.
    + intros e He Hsm. apply elem_of_cons in He as [->|He].
      * destruct (bool_decide (loc entry ∈ visitedSitemaps st)) eqn:Hin.
        -- left. by apply bool_decide_eq_true in Hin.
        -- right. apply Hq. unfold collect_entry. rewrite Hsm, Hin. simpl.
           apply elem_of_app. right. by apply list_elem_of_singleton.
      * rewrite <- Hv1. by apply Hs.
Qed.

(** What one iteration of the traversal does. *)
Lemma sitemap_step_spec agent apiKey st w st' w' :
  sitemap_step E agent apiKey st w = Some (st', w') ->
  exists current rest,
    sitemap_queue st = current :: rest /\
    if bool_decide (current ∈ visitedSitemaps st)
    then
      st' = {| sitemap_queue := rest; visitedSitemaps := visitedSitemaps st;
               allEntries := allEntries st |} /\ w' = w
    else
      visitedSitemaps st' = {[current]} ∪ visitedSitemaps st /\
      exists parsed,
        fetch_sitemap E current agent apiKey w = (parsed, w') /\
        allEntries st' =
          allEntries st ++
          filter (fun e => is_sitemap_loc (loc e) = false)
                 (match parsed with Ok entries => entries | Err _ => [] end).
Proof.
  unfold sitemap_step. intros Hstep.
  destruct (sitemap_queue st) as [|current rest]; [done|].
  exists current, rest. split; [done|].
  destruct (bool_decide (current ∈ visitedSitemaps st)).
  - by injection Hstep as <- <-.
  - destruct (fetch_sitemap E current agent apiKey w) as [[entries|message] w1].
    + injection Hstep as <- <-.
      pose proof (collect_entries entries
        {| sitemap_queue := rest;
           visitedSitemaps := {[current]} ∪ visitedSitemaps st;
           allEntries := allEntries st |}) as (Hv & Ha & _).
      split; [exact Hv|]. exists (Ok entries). split; [done|]. exact Ha.
    + injection Hstep as <- <-. simpl. split; [done|].
      exists (Err message). split; [done|]. by rewrite filter_nil, app_nil_r.
Qed.

Lemma sitemap_step_leaves agent apiKey st w st' w' :
  Forall (fun e => is_sitemap_loc (loc e) = false) (allEntries st) ->
  sitemap_step E agent apiKey st w = Some (st', w') ->
  Forall (fun e => is_sitemap_loc (loc e) = false) (allEntries st').
Proof.
  intros Hleaves Hstep.
  destruct (sitemap_step_spec _ _ _ _ _ _ Hstep) as (current & rest & _ & Hcase).
  destruct (bool_decide (current ∈ visitedSitemaps st)).
  - destruct Hcase as [-> _]. exact Hleaves.
  - destruct Hcase as (_ & parsed & _ & ->).
    apply Forall_app. split; [exact Hleaves|].
    apply Forall_forall. intros e He. by apply list_elem_of_filter in He as [He _].
Qed.

End SitemapFacts.

(** C3: no entry returned by [fetchAllUrlsFromSitemaps] has a [loc] that
    ends, case-insensitively, in ".xml" or ".xml.gz".  In the loop over the
    entries of a parsed sitemap, the entries without such a suffix are
    appended to the result in order and nothing else is; an entry with such
    a suffix is pushed on the queue of sitemaps, unless its [loc] is in the
    visited set already (it has then been taken from the queue before). *)
Theorem fetchAllUrlsFromSitemaps_leaves {W : Type} (E : Env W)
    fuel siteUrl agent apiKey w entries w' :
  fetchAllUrlsFromSitemaps E fuel siteUrl agent apiKey w = Some (Ok entries, w') ->
  Forall (fun e => ~ ends_like_sitemap (loc e)) entries /\
  (forall (parsed : list SitemapEntry) (st : SitemapState),
     allEntries (fold_left collect_entry parsed st) =
       allEntries st ++ filter (fun e => is_sitemap_loc (loc e) = false) parsed /\
     (forall e, e ∈ parsed -> ends_like_sitemap (loc e) ->
        loc e ∈ visitedSitemaps st \/
        loc e ∈ sitemap_queue (fold_left collect_entry parsed st))).
Proof.
  intros Hrun. split.
  - unfold fetchAllUrlsFromSitemaps in Hrun.
    destruct (negb (JsString.truthy apiKey)); [done|].
    destruct (URL_new E siteUrl) as [u|]; [|done].
    destruct (seed_queue E (origin u) w) as [queue w1].
    destruct (while_loop _ _ _ _) as [[st w2]|] eqn:Hloop; [|done].
    injection Hrun as <- <-.
    apply (while_loop_invariant (sitemap_step E agent apiKey)
             (fun st _ => Forall (fun e => is_sitemap_loc (loc e) = false) (allEntries st)))
      in Hloop as [Hleaves _].
    + eapply Forall_impl; [exact Hleaves|]. simpl. intros e He Hends.
      apply is_sitemap_loc_spec in Hends. congruence.
    + intros s w0 s' w0' Hs Hstep. by eapply sitemap_step_leaves.
    + constructor.
  - intros parsed st.
    destruct (collect_entries parsed st) as (_ & Ha & _ & Hs).
    split; [exact Ha|]. intros e He Hends. apply Hs; [done|].
    by apply is_sitemap_loc_spec.
Qed.

Lemma fetchAllUrlsFromSitemaps_leaves_witness :
  fetchAllUrlsFromSitemaps (Example.env Example.nested_sitemaps) 10
    "https://example.com/" Example.agent "key" 0%nat
  = Some (Ok (map Example.entry Example.pages_locs), 5%nat) /\
  Forall (fun e => ~ ends_like_sitemap (loc e)) (map Example.entry Example.pages_locs).
Proof.
  assert (fetchAllUrlsFromSitemaps (Example.env Example.nested_sitemaps) 10
            "https://example.com/" Example.agent "key" 0%nat
          = Some (Ok (map Example.entry Example.pages_locs), 5%nat)) as Hrun
    by (vm_compute; reflexivity).
  split; [exact Hrun|].
  exact (proj1 (fetchAllUrlsFromSitemaps_leaves _ _ _ _ _ _ _ _ Hrun)).
Defined.

(** The index of [nested_sitemaps] names "pages.XML" and itself: the first
    is queued, the second is in the visited set and is dropped. *)
Example collect_index_entries :
  let st := {| sitemap_queue := [];
               visitedSitemaps := {["https://example.com/sitemap_index.xml"]};
               allEntries := [] |} in
  let st' := fold_left collect_entry (map Example.entry Example.index_locs) st in
  sitemap_queue st' = ["https://example.com/pages.XML"] /\ allEntries st' = [].
Proof. vm_compute. done. Qed.

(** Scenario B: [robots.txt] names one sitemap, which seeds the queue. *)
Example robots_names_one_sitemap :
  robots_sitemap_urls
    (Example.lines ["User-agent: *"; "Sitemap: https://example.com/sitemap.xml"])
  = ["https://example.com/sitemap.xml"].
Proof. reflexivity. Qed.

(** The sitemap of pages lists "https://example.com/a" twice, and so does
    the result. *)
Lemma fetchAllUrlsFromSitemaps_duplicate_loc_counterexample :
  exists entries w',
    fetchAllUrlsFromSitemaps (Example.env Example.nested_sitemaps) 10
      "https://example.com/" Example.agent "key" 0%nat = Some (Ok entries, w') /\
    ~ NoDup (map loc entries).
Proof.
  exists (map Example.entry Example.pages_locs), 5%nat.
  split; [by vm_compute|].
  simpl. intros Hnodup. apply NoDup_cons in Hnodup as [Hnotin _].
  apply Hnotin. right. left.
Qed.

Section SitemapClaims.

Context {W : Type} (E : Env W).

Lemma fetched_sitemaps_fresh agent apiKey fuel st w :
  NoDup (fetched_sitemaps E agent apiKey fuel st w) /\
  (forall u, u ∈ fetched_sitemaps E agent apiKey fuel st w -> u ∉ visitedSitemaps st).
Proof.
  revert st w. induction fuel as [|fuel IH]; intros st w.
  - simpl. split; [constructor|]. intros u Hu. by apply elem_of_nil in Hu.
  - cbn [fetched_sitemaps].
    destruct (sitemap_queue st) as [|current rest] eqn:Hqueue.
    { split; [constructor|]. intros u Hu. by apply elem_of_nil in Hu. }
    destruct (sitemap_step E agent apiKey st w) as [[st' w']|] eqn:Hstep.
    2:{ split; [constructor|]. intros u Hu. by apply elem_of_nil in Hu. }
    destruct (sitemap_step_spec E _ _ _ _ _ _ Hstep) as (c & r & Hq & Hcase).
    rewrite Hqueue in Hq. injection Hq as <- <-.
    destruct (IH st' w') as [Hnodup Hfresh].
    destruct (bool_decide (current ∈ visitedSitemaps st)) eqn:Hin.
    + destruct Hcase as [-> _]. done.
    + destruct Hcase as (Hvisited & _).
      apply bool_decide_eq_false in Hin. split.
      * apply NoDup_cons. split; [|done].
        intros Hc%Hfresh. apply Hc. rewrite Hvisited.
        apply elem_of_union. left. by apply elem_of_singleton.
      * intros u [->|Hu]%elem_of_cons; [done|].
        apply Hfresh in Hu. intros Hold. apply Hu. rewrite Hvisited.
        apply elem_of_union. by right.
Qed.

(** The visited set holds the sitemap URLs fetched so far, and nothing
    else: a URL in it has been taken from the queue and fetched. *)
Lemma visited_are_fetched agent apiKey n st w :
  visitedSitemaps (fst (iterations (sitemap_step E agent apiKey) n st w)) =
  visitedSitemaps st ∪ list_to_set (fetched_sitemaps E agent apiKey n st w).
Proof.
  revert st w. induction n as [|n IH]; intros st w.
  - simpl. symmetry. apply (right_id_L ∅ (∪)).
  - cbn [iterations fetched_sitemaps].
    destruct (sitemap_step E agent apiKey st w) as [[st' w']|] eqn:Hstep.
    2:{ cbn [fst]. destruct (sitemap_queue st); simpl; symmetry;
        apply (right_id_L ∅ (∪)). }
    destruct (sitemap_step_spec E _ _ _ _ _ _ Hstep) as (current & rest & -> & Hcase).
    rewrite IH.
    destruct (bool_decide (current ∈ visitedSitemaps st)).
    + by destruct Hcase as [-> _].
    + destruct Hcase as (-> & _). rewrite list_to_set_cons.
      rewrite (comm_L (∪) {[current]} (visitedSitemaps st)).
      by rewrite (assoc_L (∪)).
Qed.

(** C8, as the code has it: within a traversal it is the sitemap URLs that
    are unique.  The sitemap URLs fetched are pairwise distinct, none of
    them having been visited before; an iteration whose URL is in the
    visited set leaves the world and the result as they are.  The entries
    are appended as the model listed them: an iteration adds every entry
    of the parsed sitemap that is not sitemap-like, in order, and never
    removes or merges entries, so a [loc] listed twice is returned
    twice. *)
Theorem sitemap_urls_fetched_once agent apiKey fuel st w :
  NoDup (fetched_sitemaps E agent apiKey fuel st w) /\
  (forall u, u ∈ fetched_sitemaps E agent apiKey fuel st w -> u ∉ visitedSitemaps st) /\
  (forall st' w',
     sitemap_step E agent apiKey st w = Some (st', w') ->
     exists current rest,
       sitemap_queue st = current :: rest /\
       if bool_decide (current ∈ visitedSitemaps st)
       then
         st' = {| sitemap_queue := rest; visitedSitemaps := visitedSitemaps st;
                  allEntries := allEntries st |} /\ w' = w
       else
         visitedSitemaps st' = {[current]} ∪ visitedSitemaps st /\
         exists parsed,
           fetch_sitemap E current agent apiKey w = (parsed, w') /\
           allEntries st' =
             allEntries st ++
             filter (fun e => is_sitemap_loc (loc e) = false)
                    (match parsed with Ok entries => entries | Err _ => [] end)).
Proof.
  destruct (fetched_sitemaps_fresh agent apiKey fuel st w) as [Hnodup Hfresh].
  split; [exact Hnodup|]. split; [exact Hfresh|].
  intros st' w'. apply sitemap_step_spec.
Qed.

End SitemapClaims.

Example nested_sitemaps_fetched :
  fetched_sitemaps (Example.env Example.nested_sitemaps) Example.agent "key" 10
    Example.seeded 1%nat
  = ["https://example.com/sitemap_index.xml"; "https://example.com/pages.XML"].
Proof. by vm_compute. Qed.

(** ** [discoverUrlsToCrawl] *)

Section CrawlFacts.

Context {W : Type} (E : Env W).
Variables (baseUrl : URL) (startUrl : string) (crawlDepth : Z).

Lemma entry_ok_grows queue more entry :
  entry_ok E baseUrl startUrl crawlDepth queue entry ->
  entry_ok E baseUrl startUrl crawlDepth (queue ++ more) entry.
Proof.
  intros [Hseed|(Hlink & Hdepth & parent & Hparent)]; [by left|right].
  split; [done|]. split; [done|]. exists parent. apply elem_of_app. by left.
Qed.

Lemma crawl_init_inv : crawl_inv E baseUrl startUrl crawlDepth (crawl_init startUrl).
Proof.
  unfold crawl_inv, crawl_init, ordered_add. simpl.
  split; [done|]. split; [|split].
  - intros u. rewrite elem_of_union, elem_of_singleton, list_elem_of_singleton.
    split; [intros [->|H]; [done|by apply elem_of_empty in H]|by left].
  - apply NoDup_singleton.
  - constructor; [|constructor]. by left.
Qed.

(** Following one link keeps the invariant and keeps the queue entries. *)
Lemma visit_link_inv pageUrl depth st hrefAttr :
  0 <= depth < crawlDepth ->
  (pageUrl, depth) ∈ crawl_queue st ->
  crawl_inv E baseUrl startUrl crawlDepth st ->
  let st' := visit_link E baseUrl pageUrl depth st hrefAttr in
  crawl_inv E baseUrl startUrl crawlDepth st' /\
  (pageUrl, depth) ∈ crawl_queue st' /\
  crawl_index st' = crawl_index st.
Proof.
  intros Hdepth Hpage Hinv. cbv zeta. unfold visit_link.
  destruct (negb (JsString.truthy hrefAttr) || _ || _); [done|].
  destruct (URL_new_base E hrefAttr pageUrl) as [urlObject|] eqn:Hurl; [|done].
  destruct (negb (String.eqb (protocol urlObject) "http:")
            && negb (String.eqb (protocol urlObject) "https:")) eqn:Hproto; [done|].
  destruct (String.eqb (hostname urlObject) (hostname baseUrl)) eqn:Hhost; [|done].
  destruct (bool_decide (without_fragment (href urlObject) ∈ visited st)) eqn:Hseen;
    [done|].
  cbn [andb negb].
  apply String.eqb_eq in Hhost. apply bool_decide_eq_false in Hseen.
  destruct Hinv as (Hfound & Hvisited & Hnodup & Hentries).
  set (absoluteUrl := without_fragment (href urlObject)) in *.
  assert (absoluteUrl ∉ foundUrls st) as Hfresh by (by rewrite <- Hvisited).
  assert (ordered_add absoluteUrl (foundUrls st) = foundUrls st ++ [absoluteUrl]) as Hadd.
  { unfold ordered_add. by rewrite decide_False. }
  split; [|split; [|done]].
  - unfold crawl_inv. cbn [crawl_queue visited foundUrls]. rewrite Hadd.
    split; [|split; [|split]].
    + by rewrite map_app, Hfound.
    + intros u. rewrite elem_of_union, elem_of_singleton, elem_of_app,
        list_elem_of_singleton, Hvisited. tauto.
    + apply NoDup_app. split; [done|]. split; [|apply NoDup_singleton].
      intros u Hu ->%list_elem_of_singleton. done.
    + apply Forall_app. split.
      * eapply Forall_impl; [exact Hentries|]. intros entry. apply entry_ok_grows.
      * constructor; [|constructor]. right. cbn [fst snd].
        split; [|split; [lia|]].
        -- exists hrefAttr, pageUrl, urlObject.
           split; [done|]. split; [done|]. split; [|done].
           apply andb_false_iff in Hproto as [Hp|Hp]; apply negb_false_iff in Hp;
             apply String.eqb_eq in Hp; tauto.
        -- exists pageUrl. replace (depth + 1 - 1) with depth by lia.
           apply elem_of_app. by left.
  - cbn [crawl_queue]. apply elem_of_app. by left.
Qed.

Lemma visit_links_inv pageUrl depth links st :
  0 <= depth < crawlDepth ->
  (pageUrl, depth) ∈ crawl_queue st ->
  crawl_inv E baseUrl startUrl crawlDepth st ->
  crawl_inv E baseUrl startUrl crawlDepth
    (fold_left (visit_link E baseUrl pageUrl depth) links st).
Proof.
  intros Hdepth. revert st. induction links as [|hrefAttr links IH]; intros st Hpage Hinv.
  - exact Hinv.
  - cbn [fold_left].
    destruct (visit_link_inv pageUrl depth st hrefAttr Hdepth Hpage Hinv) as (Hinv' & Hpage' & _).
    by apply IH.
Qed.

Lemma queue_depth_nonneg st pageUrl depth :
  crawl_inv E baseUrl startUrl crawlDepth st ->
  (pageUrl, depth) ∈ crawl_queue st -> 0 <= depth.
Proof.
  intros (_ & _ & _ & Hentries) Hpage.
  rewrite Forall_forall in Hentries.
  destruct (Hentries _ Hpage) as [[_ Hd]|(_ & Hd & _)]; simpl in Hd; lia.
Qed.

Lemma crawl_step_inv st w st' w' :
  crawl_inv E baseUrl startUrl crawlDepth st ->
  crawl_step E baseUrl crawlDepth st w = Some (st', w') ->
  crawl_inv E baseUrl startUrl crawlDepth st'.
Proof.
  intros Hinv. unfold crawl_step.
  destruct (crawl_queue st !! crawl_index st) as [[pageUrl depth]|] eqn:Hentry; [|done].
  assert ((pageUrl, depth) ∈ crawl_queue st) as Hpage
    by (apply list_elem_of_lookup; eauto).
  assert (crawl_inv E baseUrl startUrl crawlDepth (advance st)) as Hadv by exact Hinv.
  destruct (Z.leb_spec crawlDepth depth) as [Hskip|Hexpand].
  - by intros [= <- <-].
  - destruct (fetchWithProxy E pageUrl w) as [[html|message] w1].
    + intros [= <- <-]. apply visit_links_inv; try done.
      split; [|done]. by eapply queue_depth_nonneg.
    + by intros [= <- <-].
Qed.

End CrawlFacts.

Lemma crawl_step_skips {W : Type} (E : Env W) baseUrl crawlDepth st w pageUrl depth :
  crawl_queue st !! crawl_index st = Some (pageUrl, depth) ->
  crawlDepth <= depth ->
  crawl_step E baseUrl crawlDepth st w = Some (advance st, w).
Proof.
  intros Hentry Hdepth. unfold crawl_step. rewrite Hentry.
  by destruct (Z.leb_spec crawlDepth depth); [|lia].
Qed.

(** What holds of a crawl that has returned. *)
Lemma discoverUrlsToCrawl_invariants {W : Type} (E : Env W)
    fuel startUrl crawlDepth w urls w' :
  discoverUrlsToCrawl E fuel startUrl crawlDepth w = Some (Ok urls, w') ->
  exists baseUrl st,
    URL_new E startUrl = Some baseUrl /\
    while_loop (crawl_step E baseUrl crawlDepth) fuel (crawl_init startUrl) w
      = Some (st, w') /\
    urls = map fst (crawl_queue st) /\
    Forall (fun u => u = startUrl \/ linked_on_host E baseUrl u) urls /\
    (fragment_law E -> Forall (same_host E baseUrl) urls) /\
    Forall (fun entry =>
              0 <= snd entry <= Z.max 0 crawlDepth /\
              (0 < snd entry ->
               exists parent,
                 (parent, snd entry - 1) ∈ crawl_queue st /\
                 snd entry - 1 < crawlDepth))
           (crawl_queue st) /\
    (forall s w0 pageUrl depth,
       crawl_queue s !! crawl_index s = Some (pageUrl, depth) ->
       crawlDepth <= depth ->
       crawl_step E baseUrl crawlDepth s w0 = Some (advance s, w0)).
Proof.
  unfold discoverUrlsToCrawl. intros Hrun.
  destruct (URL_new E startUrl) as [baseUrl|] eqn:Hbase; [|done].
  destruct (while_loop _ _ _ _) as [[st w1]|] eqn:Hloop; [|done].
  injection Hrun as <- <-.
  exists baseUrl, st. split; [done|]. split; [done|].
  pose proof Hloop as Hinv.
  apply (while_loop_invariant (crawl_step E baseUrl crawlDepth)
           (fun st _ => crawl_inv E baseUrl startUrl crawlDepth st)) in Hinv
    as [(Hfound & _ & _ & Hentries) _];
    [|intros ????; apply crawl_step_inv|apply crawl_init_inv].
  rewrite Forall_forall in Hentries.
  split; [exact Hfound|]. rewrite Hfound.
  assert (Forall (fun u => u = startUrl \/ linked_on_host E baseUrl u)
                 (map fst (crawl_queue st))) as Hsite.
  { apply Forall_forall. intros u [[u' d] [-> Hentry]]%list_elem_of_fmap.
    destruct (Hentries _ Hentry) as [[Hseed _]|(Hlink & _)]; [by left|by right]. }
  split; [exact Hsite|]. split; [|split].
  - intros Hlaw. eapply Forall_impl; [exact Hsite|]. simpl.
    intros u [->|(hrefAttr & pageUrl & urlObject & Hurl & Hhost & _ & ->)].
    + by exists baseUrl.
    + destruct (Hlaw _ _ _ Hurl) as (parsed & Hparsed & Hsame).
      exists parsed. split; [done|congruence].
  - apply Forall_forall. intros [u d] Hentry. cbn [snd].
    destruct (Hentries _ Hentry) as [[_ Hd]|(_ & Hd & parent & Hparent)];
      cbn [fst snd] in *.
    + split; [lia|]. intros; lia.
    + split; [lia|]. intros _. exists parent. split; [done|lia].
  - intros s w0 pageUrl depth. apply crawl_step_skips.
Qed.

(** *** The example URL resolver keeps the host when the fragment is cut *)

Section ExampleUrls.

Import JsString.

Lemma without_fragment_cons a s :
  without_fragment (String a s) =
  if Ascii.eqb a "#" then "" else String a (without_fragment s).
Proof.
  unfold without_fragment. cbn [split].
  destruct (Ascii.eqb a "#"); [done|]. by destruct (split "#" s).
Qed.

Lemma without_fragment_app p s :
  free_of (fun a => Ascii.eqb a "#") p ->
  without_fragment (p +:+ s) = p +:+ without_fragment s.
Proof.
  induction p as [|a p IH]; [done|]. intros [Ha Hp].
  rewrite !app_cons, without_fragment_cons, Ha. by rewrite IH.
Qed.

Lemma host_part_without_fragment s :
  Example.host_part (without_fragment s) = Example.host_part s.
Proof.
  induction s as [|a s IH]; [done|]. rewrite without_fragment_cons.
  destruct (Ascii.eqb a "#") eqn:Ha.
  - apply Ascii.eqb_eq in Ha as ->. done.
  - simpl. destruct (Example.ends_host a); [done|]. by rewrite IH.
Qed.

Lemma parse_url_without_fragment s u :
  Example.parse_url s = Some u ->
  exists parsed,
    Example.parse_url (without_fragment (href u)) = Some parsed /\
    hostname parsed = hostname u.
Proof.
  unfold Example.parse_url, Example.url_scheme.
  destruct (startsWith s "https://") eqn:Hs.
  - apply startsWith_spec in Hs as [rest ->]. intros [= <-]. cbn [href hostname].
    rewrite without_fragment_app by (simpl; tauto).
    assert (startsWith ("https://" +:+ without_fragment rest) "https://" = true) as ->
      by (apply startsWith_spec; eauto).
    eexists. split; [done|]. cbn [hostname].
    change (Example.host_part (without_fragment rest) = Example.host_part rest).
    apply host_part_without_fragment.
  - destruct (startsWith s "http://") eqn:Hs'; [|done].
    apply startsWith_spec in Hs' as [rest ->]. intros [= <-]. cbn [href hostname].
    rewrite without_fragment_app by (simpl; tauto).
    assert (startsWith ("http://" +:+ without_fragment rest) "https://" = false) as ->.
    { destruct (startsWith _ "https://") eqn:H; [|done].
      apply startsWith_spec in H as [post H]. rewrite !app_cons in H.
      by injection H. }
    assert (startsWith ("http://" +:+ without_fragment rest) "http://" = true) as ->
      by (apply startsWith_spec; eauto).
    eexists. split; [done|]. cbn [hostname].
    change (Example.host_part (without_fragment rest) = Example.host_part rest).
    apply host_part_without_fragment.
Qed.

Lemma example_fragment_law (s : Example.Scenario) : fragment_law (Example.env s).
Proof.
  intros hrefAttr pageUrl urlObject. cbn [URL_new_base URL_new Example.env].
  unfold Example.resolve_url.
  destruct (Example.parse_url hrefAttr) as [u|] eqn:Hu.
  - intros [= <-]. by eapply parse_url_without_fragment.
  - destruct (startsWith hrefAttr "/"); [|done].
    destruct (Example.parse_url pageUrl) as [b|]; [|done].
    apply parse_url_without_fragment.
Qed.

End ExampleUrls.

(** *** The crawl ends

    The queue is processed in breadth-first order: the pending entries are
    some entries with [n] levels left followed by entries with [n - 1]
    levels left, and an entry with no level left is skipped. *)

Section CrawlTermination.

Context {W : Type} (E : Env W).
Variables (baseUrl : URL) (crawlDepth : Z).

Lemma visit_link_pushes pageUrl depth st hrefAttr :
  let st' := visit_link E baseUrl pageUrl depth st hrefAttr in
  crawl_index st' = crawl_index st /\
  exists pushed,
    crawl_queue st' = crawl_queue st ++ pushed /\
    Forall (fun entry => snd entry = depth + 1) pushed.
Proof.
  cbv zeta. unfold visit_link.
  repeat case_match; (split; [done|]);
    try (exists []; by rewrite app_nil_r).
  eexists [_]. split; [done|]. by constructor.
Qed.

Lemma visit_links_push pageUrl depth links st :
  let st' := fold_left (visit_link E baseUrl pageUrl depth) links st in
  crawl_index st' = crawl_index st /\
  exists pushed,
    crawl_queue st' = crawl_queue st ++ pushed /\
    Forall (fun entry => snd entry = depth + 1) pushed.
Proof.
  revert st. induction links as [|hrefAttr links IH]; intros st; cbn [fold_left].
  - split; [done|]. exists []. by rewrite app_nil_r.
  - destruct (visit_link_pushes pageUrl depth st hrefAttr) as (Hi & p1 & Hq1 & Hp1).
    destruct (IH (visit_link E baseUrl pageUrl depth st hrefAttr))
      as (Hi' & p2 & Hq2 & Hp2).
    cbv zeta in *. split; [congruence|].
    exists (p1 ++ p2). rewrite Hq2, Hq1, <- app_assoc. split; [done|].
    by apply Forall_app.
Qed.

Lemma pending_nil_stops st w :
  pending st = [] -> crawl_step E baseUrl crawlDepth st w = None.
Proof.
  unfold pending, crawl_step. intros Hdrop.
  destruct (crawl_queue st !! crawl_index st) as [entry|] eqn:Hentry; [|done].
  apply lookup_lt_Some in Hentry.
  apply (f_equal length) in Hdrop. rewrite length_drop in Hdrop. simpl in Hdrop. lia.
Qed.

(** An iteration takes the first pending entry and appends what it
    queues: nothing for an entry with no level left, entries one level
    down otherwise. *)
Lemma crawl_step_pending st w entry rest :
  pending st = entry :: rest ->
  exists st' w' pushed,
    crawl_step E baseUrl crawlDepth st w = Some (st', w') /\
    pending st' = rest ++ pushed /\
    (levels_left crawlDepth entry = O -> pushed = []) /\
    Forall (fun e => S (levels_left crawlDepth e) = levels_left crawlDepth entry) pushed.
Proof.
  unfold pending. intros Hdrop.
  assert (crawl_queue st !! crawl_index st = Some entry) as Hentry.
  { rewrite <- (Nat.add_0_r (crawl_index st)), <- lookup_drop, Hdrop. done. }
  assert (drop (S (crawl_index st)) (crawl_queue st) = rest) as Hrest.
  { replace (S (crawl_index st)) with (crawl_index st + 1)%nat by lia.
    by rewrite <- drop_drop, Hdrop. }
  pose proof (lookup_lt_Some _ _ _ Hentry) as Hlt.
  unfold crawl_step. rewrite Hentry. destruct entry as [pageUrl depth].
  destruct (Z.leb_spec crawlDepth depth) as [Hskip|Hexpand].
  - exists (advance st), w, []. cbn [advance crawl_index crawl_queue].
    rewrite Hrest, app_nil_r. repeat split; try done.
  - destruct (fetchWithProxy E pageUrl w) as [[html|message] w1].
    + destruct (visit_links_push pageUrl depth (anchor_hrefs E html) (advance st))
        as (Hi & pushed & Hq & Hp).
      cbv zeta in *. eexists _, _, pushed. split; [done|].
      rewrite Hi, Hq. cbn [advance crawl_index crawl_queue].
      rewrite drop_app_le by lia. rewrite Hrest.
      split; [done|]. split.
      * unfold levels_left. cbn [snd]. lia.
      * eapply Forall_impl; [exact Hp|]. intros e He.
        unfold levels_left. cbn [snd]. rewrite He. lia.
    + exists (advance st), w1, []. cbn [advance crawl_index crawl_queue].
      rewrite Hrest, app_nil_r. repeat split; try done.
Qed.

Lemma crawl_loop_ends_from (n : nat) :
  forall (c : nat) (front back : list (string * Z)) st w,
    pending st = front ++ back ->
    length front = c ->
    Forall (fun e => levels_left crawlDepth e = n) front ->
    Forall (fun e => S (levels_left crawlDepth e) = n) back ->
    exists fuel st' w',
      while_loop (crawl_step E baseUrl crawlDepth) fuel st w = Some (st', w').
Proof.
  induction n as [|n IHn].
  - (* no level left: every pending entry is skipped *)
    induction c as [|c IHc]; intros front back st w Hpending Hlen Hfront Hback.
    + destruct front; [|done]. destruct back as [|e back].
      * exists 1%nat, st, w. simpl. by rewrite pending_nil_stops.
      * by apply Forall_cons in Hback as [? _].
    + destruct front as [|entry front]; [done|].
      destruct (crawl_step_pending st w entry (front ++ back) Hpending)
        as (st' & w' & pushed & Hstep & Hpending' & Hnone & _).
      apply Forall_cons in Hfront as [Hentry Hfront].
      rewrite (Hnone Hentry), app_nil_r in Hpending'.
      destruct (IHc front back st' w' Hpending') as (fuel & st2 & w2 & Hrun);
        [simpl in Hlen; lia|done|done|].
      exists (S fuel), st2, w2. simpl. by rewrite Hstep.
  - induction c as [|c IHc]; intros front back st w Hpending Hlen Hfront Hback.
    + (* the front is used up: the back is the front one level down *)
      destruct front; [|done].
      apply (IHn (length back) back [] st w); try done.
      * by rewrite app_nil_r.
      * eapply Forall_impl; [exact Hback|]. simpl. intros e He. lia.
    + destruct front as [|entry front]; [done|].
      destruct (crawl_step_pending st w entry (front ++ back) Hpending)
        as (st' & w' & pushed & Hstep & Hpending' & _ & Hpushed).
      apply Forall_cons in Hfront as [Hentry Hfront].
      rewrite <- app_assoc in Hpending'.
      destruct (IHc front (back ++ pushed) st' w' Hpending') as (fuel & st2 & w2 & Hrun);
        [simpl in Hlen; lia|done| |].
      * apply Forall_app. split; [done|].
        eapply Forall_impl; [exact Hpushed|]. simpl. intros e He. lia.
      * exists (S fuel), st2, w2. simpl. by rewrite Hstep.
Qed.

End CrawlTermination.

(** [discoverUrlsToCrawl] always returns: the depth limit bounds the
    crawl, whatever the pages contain. *)
Lemma discoverUrlsToCrawl_returns {W : Type} (E : Env W) startUrl crawlDepth w :
  exists fuel r, discoverUrlsToCrawl E fuel startUrl crawlDepth w = Some r.
Proof.
  unfold discoverUrlsToCrawl.
  destruct (URL_new E startUrl) as [baseUrl|]; [|by exists O, (Err TypeError_invalid_URL, w)].
  destruct (crawl_loop_ends_from E baseUrl crawlDepth
              (levels_left crawlDepth (startUrl, 0)) 1 [(startUrl, 0)] []
              (crawl_init startUrl) w) as (fuel & st & w' & Hrun); try done.
  - by constructor.
  - exists fuel, (Ok (foundUrls st), w'). by rewrite Hrun.
Qed.

(** C2: [discoverUrlsToCrawl] returns, whatever the pages contain, and
    every URL it returns is the start URL or the address of a link that
    resolved to a URL whose hostname is that of the start URL (so, the URL
    API keeping the host when the fragment is cut off, every returned URL
    has the hostname of the start URL).  Every URL is queued with the
    number of links followed from the start URL to reach it; that depth is
    at most [crawlDepth] (0 for the start URL), the page it was found on is
    queued one level up, below [crawlDepth]; and an iteration on a page
    whose depth is [crawlDepth] or more fetches nothing and follows no
    link. *)
Theorem discoverUrlsToCrawl_same_site_bounded_depth {W : Type} (E : Env W)
    startUrl crawlDepth w :
  (exists fuel r, discoverUrlsToCrawl E fuel startUrl crawlDepth w = Some r) /\
  (forall fuel urls w',
     discoverUrlsToCrawl E fuel startUrl crawlDepth w = Some (Ok urls, w') ->
     exists baseUrl st,
       URL_new E startUrl = Some baseUrl /\
       while_loop (crawl_step E baseUrl crawlDepth) fuel (crawl_init startUrl) w
         = Some (st, w') /\
       urls = map fst (crawl_queue st) /\
       Forall (fun u => u = startUrl \/ linked_on_host E baseUrl u) urls /\
       (fragment_law E -> Forall (same_host E baseUrl) urls) /\
       Forall (fun entry =>
                 0 <= snd entry <= Z.max 0 crawlDepth /\
                 (0 < snd entry ->
                  exists parent,
                    (parent, snd entry - 1) ∈ crawl_queue st /\
                    snd entry - 1 < crawlDepth))
              (crawl_queue st) /\
       (forall s w0 pageUrl depth,
          crawl_queue s !! crawl_index s = Some (pageUrl, depth) ->
          crawlDepth <= depth ->
          crawl_step E baseUrl crawlDepth s w0 = Some (advance s, w0))).
Proof.
  split.
  - apply discoverUrlsToCrawl_returns.
  - intros fuel urls w'. apply discoverUrlsToCrawl_invariants.
Qed.

(** Scenario A: from the home page of [small_site] with depth 1, the two
    pages of the site it links to are found and the page elsewhere is
    not. *)
Lemma discoverUrlsToCrawl_same_site_bounded_depth_witness :
  discoverUrlsToCrawl (Example.env Example.small_site) 10 "https://example.com/" 1 0%nat
  = Some (Ok ["https://example.com/"; "https://example.com/about";
              "https://example.com/contact"], 1%nat) /\
  exists baseUrl,
    hostname baseUrl = "example.com" /\
    Forall (same_host (Example.env Example.small_site) baseUrl)
      ["https://example.com/"; "https://example.com/about"; "https://example.com/contact"].
Proof.
  assert (discoverUrlsToCrawl (Example.env Example.small_site) 10
            "https://example.com/" 1 0%nat
          = Some (Ok ["https://example.com/"; "https://example.com/about";
                      "https://example.com/contact"], 1%nat)) as Hrun
    by (vm_compute; reflexivity).
  split; [exact Hrun|].
  destruct (discoverUrlsToCrawl_same_site_bounded_depth
              (Example.env Example.small_site) "https://example.com/" 1 0%nat)
    as [_ Hsafe].
  destruct (Hsafe _ _ _ Hrun) as (baseUrl & st & Hbase & _ & _ & _ & Hhost & _).
  exists baseUrl. split.
  - cbn in Hbase. injection Hbase as <-. reflexivity.
  - apply Hhost, example_fragment_law.
Defined.

Example crawl_depth_two :
  discoverUrlsToCrawl (Example.env Example.small_site) 10 "https://example.com/" 2 0%nat
  = Some (Ok ["https://example.com/"; "https://example.com/about";
              "https://example.com/contact"; "https://example.com/team"], 5%nat).
Proof. by vm_compute. Qed.

Example crawl_depth_zero :
  discoverUrlsToCrawl (Example.env Example.small_site) 10 "https://example.com/" 0 0%nat
  = Some (Ok ["https://example.com/"], 0%nat).
Proof. by vm_compute. Qed.

(** * Further properties of the service *)

(** ** [extractJson] on its own result *)

(** X1: the result of [extractJson] is a contiguous part of the text, and
    [extractJson] leaves it as it is when applied again: the span it cuts
    out starts with the first opening bracket and ends with the last
    closing one already. *)
Theorem extractJson_idempotent text :
  contains text (extractJson text) /\
  extractJson (extractJson text) = extractJson text.
Proof.
  pose proof (extractJson_is_span text) as Hspan.
  destruct Hspan as [Hfree|pre o rest Htext Hpre Ho Hrest
                    |pre o mid c post Htext Hpre Ho Hc Hpost].
  - split; [by exists "", text|reflexivity].
  - split; [by exists "", text|reflexivity].
  - split.
    + exists pre, post. rewrite Htext. f_equal.
      by rewrite app_cons, app_assoc_string.
    + eapply json_span_functional; [apply extractJson_is_span|].
      apply (span_found _ "" o mid c ""); done.
Qed.

(** ** The retries of [fetchWithProxy] *)

Section FetchRetries.

Context {W : Type} (E : Env W).

Lemma fetch_loop_step url retries i remaining w :
  fetch_loop E url retries i (S remaining) w =
  match proxy_attempt E url w with
  | (Some body, w') => (Ok body, w')
  | (None, w') =>
      if (i =? retries - 1)%nat
      then (Err (fetch_failed_message url retries), w')
      else fetch_loop E url retries (S i) remaining w'
  end.
Proof. reflexivity. Qed.

Lemma after_failures_step url k w :
  after_failures E url (S k) w =
  match proxy_attempt E url w with
  | (None, w') => after_failures E url k w'
  | (Some _, _) => None
  end.
Proof. reflexivity. Qed.

Lemma fetch_loop_spec url retries remaining : forall i w,
  (i + S remaining = retries)%nat ->
  match fetch_loop E url retries i (S remaining) w with
  | (Ok body, w') =>
      exists k wk, (k <= remaining)%nat /\ after_failures E url k w = Some wk /\
                   proxy_attempt E url wk = (Some body, w')
  | (Err message, w') =>
      after_failures E url (S remaining) w = Some w' /\
      message = fetch_failed_message url retries
  end.
Proof.
  induction remaining as [|remaining IH]; intros i w Hi.
  - cbn [fetch_loop after_failures].
    destruct (proxy_attempt E url w) as [[body|] w1] eqn:Hattempt.
    + exists O, w. by split; [lia|].
    + by destruct (Nat.eqb_spec i (retries - 1)); [|lia].
  - rewrite fetch_loop_step, (after_failures_step url (S remaining)).
    destruct (proxy_attempt E url w) as [[body|] w1] eqn:Hattempt.
    + exists O, w. by split; [lia|].
    + destruct (Nat.eqb_spec i (retries - 1)); [lia|].
      specialize (IH (S i) w1 ltac:(lia)).
      destruct (fetch_loop E url retries (S i) (S remaining) w1) as [[body|message] w2];
        lazy beta iota.
      * destruct IH as (k & wk & Hk & Hfail & Hok).
        exists (S k), wk. split; [lia|]. split; [|done].
        by rewrite after_failures_step, Hattempt.
      * exact IH.
Qed.

(** X2: [fetchWithProxy] with [retries] attempts returns the body of the
    first attempt that succeeds, after fewer than [retries] failed ones;
    it throws only when [retries] attempts in a row have failed, with a
    message that names the URL and the number of attempts (with no attempt
    allowed it throws at once, with the shorter message of the end of the
    function). *)
Theorem fetchWithProxy_retries_first_success url retries w :
  match fetchWithProxy_retries E url retries w with
  | (Ok body, w') =>
      exists k wk, (k < retries)%nat /\ after_failures E url k w = Some wk /\
                   proxy_attempt E url wk = (Some body, w')
  | (Err message, w') =>
      after_failures E url retries w = Some w' /\
      message = if (retries =? 0)%nat
                then "Failed to fetch content for " +:+ url +:+ "."
                else fetch_failed_message url retries
  end.
Proof.
  unfold fetchWithProxy_retries. destruct retries as [|remaining]; [done|].
  pose proof (fetch_loop_spec url (S remaining) remaining O w eq_refl) as Hloop.
  destruct (fetch_loop E url (S remaining) 0 (S remaining) w) as [[body|message] w'].
  - destruct Hloop as (k & wk & Hk & Hfail & Hok). exists k, wk. by split; [lia|].
  - done.
Qed.

End FetchRetries.

(** ** The list [discoverUrlsToCrawl] returns *)

Section CrawlShape.

Context {W : Type} (E : Env W).

Lemma crawl_step_keeps_seed baseUrl crawlDepth (seed : string * Z) st w st' w' :
  head (crawl_queue st) = Some seed ->
  crawl_step E baseUrl crawlDepth st w = Some (st', w') ->
  head (crawl_queue st') = Some seed.
Proof.
  intros Hhead. unfold crawl_step.
  destruct (crawl_queue st !! crawl_index st) as [[pageUrl depth]|]; [|done].
  destruct (crawlDepth <=? depth); [by intros [= <- <-]|].
  destruct (fetchWithProxy E pageUrl w) as [[html|message] w1];
    [|by intros [= <- <-]].
  intros [= <- <-].
  destruct (visit_links_push E baseUrl pageUrl depth (anchor_hrefs E html) (advance st))
    as (_ & pushed & -> & _).
  cbn [advance crawl_queue]. destruct (crawl_queue st); [done|]. exact Hhead.
Qed.

Lemma crawl_result_shape fuel startUrl crawlDepth w urls w' :
  discoverUrlsToCrawl E fuel startUrl crawlDepth w = Some (Ok urls, w') ->
  head urls = Some startUrl /\ NoDup urls.
Proof.
  unfold discoverUrlsToCrawl.
  destruct (URL_new E startUrl) as [baseUrl|]; [|done].
  destruct (while_loop _ _ _ _) as [[st w1]|] eqn:Hloop; [|done].
  intros [= <- <-].
  apply (while_loop_invariant (crawl_step E baseUrl crawlDepth)
           (fun st _ => crawl_inv E baseUrl startUrl crawlDepth st /\
                        head (crawl_queue st) = Some (startUrl, 0))) in Hloop
    as [[(Hfound & _ & Hnodup & _) Hhead] _].
  - split; [|done]. rewrite Hfound. by destruct (crawl_queue st) as [|? ?]; simplify_eq/=.
  - intros s w0 s' w0' [Hinv Hhead] Hstep. split.
    + by eapply crawl_step_inv.
    + by eapply crawl_step_keeps_seed.
  - split; [apply crawl_init_inv|done].
Qed.

(** X3: the list [discoverUrlsToCrawl] returns starts with the start URL
    and holds no URL twice.  (So it is never empty, and the audit never
    analyses a page twice.) *)
Theorem discoverUrlsToCrawl_seed_first fuel startUrl crawlDepth w urls w' :
  discoverUrlsToCrawl E fuel startUrl crawlDepth w = Some (Ok urls, w') ->
  head urls = Some startUrl /\ NoDup urls.
Proof. apply crawl_result_shape. Qed.

(** X4: with a depth limit of 0 or less, [discoverUrlsToCrawl] returns the
    start URL alone and requests nothing: the world is as it was. *)
Theorem discoverUrlsToCrawl_no_depth fuel startUrl crawlDepth w baseUrl :
  crawlDepth <= 0 ->
  URL_new E startUrl = Some baseUrl ->
  discoverUrlsToCrawl E (S (S fuel)) startUrl crawlDepth w = Some (Ok [startUrl], w).
Proof.
  intros Hdepth Hbase. unfold discoverUrlsToCrawl. rewrite Hbase.
  cbn [while_loop].
  rewrite (crawl_step_skips E baseUrl crawlDepth (crawl_init startUrl) w startUrl 0)
    by done.
  by unfold crawl_step.
Qed.

End CrawlShape.

Lemma discoverUrlsToCrawl_seed_first_witness :
  head ["https://example.com/"; "https://example.com/about";
        "https://example.com/contact"] = Some "https://example.com/" /\
  NoDup ["https://example.com/"; "https://example.com/about";
         "https://example.com/contact"].
Proof.
  apply (discoverUrlsToCrawl_seed_first (Example.env Example.small_site) 10
           "https://example.com/" 1 0%nat _ 1%nat).
  vm_compute. reflexivity.
Defined.

Lemma discoverUrlsToCrawl_no_depth_witness :
  discoverUrlsToCrawl (Example.env Example.small_site) 2 "https://example.com/" (-1) 0%nat
  = Some (Ok ["https://example.com/"], 0%nat).
Proof.
  eapply (discoverUrlsToCrawl_no_depth (Example.env Example.small_site) 0
            "https://example.com/" (-1) 0%nat).
  - lia.
  - reflexivity.
Defined.

(** ** What [fetchAllUrlsFromSitemaps] rejects, and the entries it keeps *)

Section SitemapOutcome.

Context {W : Type} (E : Env W).

Lemma entries_of_parsed_locs (parsed : ParsedList EntryItem) (w : W) entries w' :
  entries_of_parsed parsed w = (Ok entries, w') ->
  Forall (fun e => loc e <> "") entries.
Proof.
  destruct parsed as [items|key items|]; [|done..]. intros [= <- <-].
  apply Forall_forall. intros e [He _]%list_elem_of_filter. by destruct (loc e).
Qed.

Lemma parseSitemapWithAI_locs sitemapContent agent apiKey w entries w' :
  parseSitemapWithAI E sitemapContent agent apiKey w = (Ok entries, w') ->
  Forall (fun e => loc e <> "") entries.
Proof.
  unfold parseSitemapWithAI, try_catch.
  destruct (match provider agent with
            | gemini => sitemap_gemini E sitemapContent agent apiKey
            | openai => sitemap_chat E false sitemapContent agent apiKey
            | openrouter => sitemap_chat E true sitemapContent agent apiKey
            end w) as [[found|message] w1] eqn:Hmodel.
  - intros [= <- <-].
    assert (forall isOpenRouter,
      sitemap_chat E isOpenRouter sitemapContent agent apiKey w = (Ok found, w1) ->
      Forall (fun e => loc e <> "") found) as Hchat.
    { intros isOpenRouter. unfold sitemap_chat, await, lift, throw.
      destruct (chat_completions E _ _ _ _ w) as [[response|?] w2]; [|done].
      destruct (negb (response_ok response)); [done|].
      destruct (response_json response) as [body|?]; [|done].
      destruct (choice_content body) as [content|?]; [|done].
      destruct (JSON_parse_entries E (extractJson content)) as [parsed|?]; [|done].
      apply entries_of_parsed_locs. }
    destruct (provider agent); [|by eapply Hchat..].
    revert Hmodel. unfold sitemap_gemini, await, lift, throw, resolve.
    destruct (gemini_generateContent E _ _ _ w) as [[[text|]|?] w2]; [|done..].
    destruct (_ || _); [by intros [= <- <-]|].
    destruct (JSON_parse_entries E (extractJson text)) as [parsed|?]; [|done].
    apply entries_of_parsed_locs.
  - unfold throw. by destruct (isRateLimitError message).
Qed.

Lemma sitemap_traversal_outcome fuel siteUrl agent apiKey w r w' :
  fetchAllUrlsFromSitemaps E fuel siteUrl agent apiKey w = Some (r, w') ->
  match r with
  | Ok entries => Forall (fun e => loc e <> "") entries
  | Err message =>
      w' = w /\
      ((apiKey = "" /\
        message = provider_name (provider agent) +:+ " API key is required.") \/
       (apiKey <> "" /\ URL_new E siteUrl = None /\ message = "Invalid URL"))
  end.
Proof.
  unfold fetchAllUrlsFromSitemaps.
  destruct apiKey as [|a apiKey]; cbn [JsString.truthy negb].
  { intros [= <- <-]. split; [done|]. by left. }
  destruct (URL_new E siteUrl) as [u|].
  2:{ intros [= <- <-]. split; [done|]. right. by split. }
  destruct (seed_queue E (origin u) w) as [queue w1].
  destruct (while_loop _ _ _ _) as [[st w2]|] eqn:Hloop; [|done].
  intros [= <- <-].
  apply (while_loop_invariant (sitemap_step E agent (String a apiKey))
           (fun st _ => Forall (fun e => loc e <> "") (allEntries st)))
    in Hloop as [Hlocs _]; [done| |constructor].
  intros s w0 s' w0' Hs Hstep.
  destruct (sitemap_step_spec E _ _ _ _ _ _ Hstep) as (current & rest & _ & Hcase).
  destruct (bool_decide (current ∈ visitedSitemaps s)).
  - by destruct Hcase as [-> _].
  - destruct Hcase as (_ & parsed & Hfetch & ->).
    apply Forall_app. split; [done|].
    destruct parsed as [entries|message]; [|by rewrite filter_nil].
    apply Forall_forall. intros e [_ He]%list_elem_of_filter. revert e He.
    apply Forall_forall.
    revert Hfetch. unfold fetch_sitemap, await.
    destruct (fetchWithProxy E current w0) as [[sitemapContent|?] w3]; [|done].
    apply parseSitemapWithAI_locs.
Qed.

(** X5: [fetchAllUrlsFromSitemaps] rejects only for a missing API key or
    a site URL that does not parse, and then before any request: the
    sitemaps that cannot be fetched or parsed (rate-limit errors of the
    model included) are passed over.  Every entry it returns has a
    non-empty [loc]. *)
Theorem fetchAllUrlsFromSitemaps_outcome fuel siteUrl agent apiKey w r w' :
  fetchAllUrlsFromSitemaps E fuel siteUrl agent apiKey w = Some (r, w') ->
  match r with
  | Ok entries => Forall (fun e => loc e <> "") entries
  | Err message =>
      w' = w /\
      ((apiKey = "" /\
        message = provider_name (provider agent) +:+ " API key is required.") \/
       (apiKey <> "" /\ URL_new E siteUrl = None /\ message = "Invalid URL"))
  end.
Proof. apply sitemap_traversal_outcome. Qed.

End SitemapOutcome.

Lemma fetchAllUrlsFromSitemaps_outcome_witness :
  Forall (fun e => loc e <> "") (map Example.entry Example.pages_locs).
Proof.
  apply (fetchAllUrlsFromSitemaps_outcome (Example.env Example.nested_sitemaps) 10
           "https://example.com/" Example.agent "key" 0%nat (Ok _) 5%nat).
  vm_compute. reflexivity.
Defined.

(** ** [encrypt] and [decrypt] *)

Lemma xorb_cancel (a b : bool) : xorb (xorb a b) b = a.
Proof. by destruct a, b. Qed.

Lemma xor_code_involutive char key : xor_code (xor_code char key) key = char.
Proof. destruct char, key. cbn [xor_code]. by rewrite !xorb_cancel. Qed.

Lemma xor_chars_involutive chars : forall i,
  xor_chars i (xor_chars i chars) = chars.
Proof.
  induction chars as [|char chars IH]; intros i; [done|].
  cbn [xor_chars]. by rewrite xor_code_involutive, IH.
Qed.

Lemma xor_with_key_involutive text : xor_with_key (xor_with_key text) = text.
Proof.
  unfold xor_with_key.
  by rewrite list_ascii_of_string_of_list_ascii, xor_chars_involutive,
    string_of_list_ascii_of_string.
Qed.

Lemma xor_with_key_truthy text :
  JsString.truthy (xor_with_key text) = JsString.truthy text.
Proof. by destruct text. Qed.

Lemma decrypt_undoes_encrypt (B : Base64) text :
  atob B (btoa B (xor_with_key text)) = Some (xor_with_key text) ->
  (text <> "" -> btoa B (xor_with_key text) <> "") ->
  decrypt B (encrypt B text) = text.
Proof.
  intros Hatob Hbtoa. unfold encrypt, decrypt.
  destruct text as [|a text]; [done|]. cbn [JsString.truthy negb].
  destruct (btoa B (xor_with_key (String a text))) as [|b encoded] eqn:Hencoded.
  - by destruct Hbtoa.
  - cbn [JsString.truthy negb]. rewrite Hatob. apply xor_with_key_involutive.
Qed.

(** X6: [decrypt] gives back what [encrypt] was given, wherever [atob]
    undoes [btoa] on the text [encrypt] hands to it and [btoa] returns a
    non-empty string for a non-empty one: applying the key a second time
    cancels the first, position by position. *)
Theorem decrypt_encrypt (B : Base64) text :
  atob B (btoa B (xor_with_key text)) = Some (xor_with_key text) ->
  (text <> "" -> btoa B (xor_with_key text) <> "") ->
  decrypt B (encrypt B text) = text.
Proof. apply decrypt_undoes_encrypt. Qed.

Lemma decrypt_encrypt_witness :
  decrypt StandardBase64.base64 (encrypt StandardBase64.base64 "sk-test-123")
  = "sk-test-123".
Proof.
  apply decrypt_encrypt.
  - vm_compute. reflexivity.
  - intros _ Hempty. vm_compute in Hempty. discriminate Hempty.
Defined.

(** What is stored for "sk-test-123". *)
Example encrypt_key :
  encrypt StandardBase64.base64 "sk-test-123" = "EgIAFRAXHVleQB4=".
Proof. by vm_compute. Qed.

(** A text stored as it is comes back unchanged only if [atob] rejects
    it: "sk-test" is not base64, "abcd" is. *)
Example decrypt_plaintext :
  decrypt StandardBase64.base64 "sk-test" = "sk-test" /\
  decrypt StandardBase64.base64 "abcd" <> "abcd".
Proof. split; [by vm_compute|]. vm_compute. discriminate. Qed.

(** ** [submitUrlsToGoogle] *)

Section GoogleFacts.

Context {W : Type} (G : GoogleEnv W).

Lemma publish_loop_counts accessToken total urls :
  forall i successCount failedCount progress w,
    let answers := publish_answers G accessToken urls w in
    let run := publish_loop G accessToken total urls i successCount failedCount progress w in
    success run.1.1 = (successCount + length (filter (fun a => accepted a = true) answers))%nat /\
    failed run.1.1 = (failedCount + length (filter (fun a => accepted a = false) answers))%nat /\
    run.1.2 = progress ++ map (fun j => (S j, total)) (seq i (length urls)).
Proof.
  induction urls as [|url urls IH]; intros i successCount failedCount progress w; cbv zeta.
  - cbn. rewrite app_nil_r. repeat split; lia.
  - cbn [publish_loop publish_answers length seq map].
    destruct (publish_notification G accessToken url w) as [answer w1].
    set (counts := match answer with
                   | Ok response =>
                       if negb (publish_ok response) then
                         match publish_error_message response with
                         | Ok _ => (successCount, S failedCount)
                         | Err _ => (successCount, S failedCount)
                         end
                       else (S successCount, failedCount)
                   | Err _ => (successCount, S failedCount)
                   end).
    assert (counts = if accepted answer then (S successCount, failedCount)
                     else (successCount, S failedCount)) as ->.
    { subst counts. destruct answer as [response|message]; [|done]. cbn [accepted].
      destruct (publish_ok response); [done|]. cbn [negb].
      by destruct (publish_error_message response). }
    destruct (accepted answer) eqn:Haccepted.
    + destruct (IH (S i) (S successCount) failedCount (progress ++ [(S i, total)]) w1)
        as (Hs & Hf & Hp). cbv zeta in *.
      rewrite filter_cons_True, filter_cons_False by congruence.
      rewrite Hs, Hf, Hp, <- app_assoc. cbn [length]. repeat split; lia.
    + destruct (IH (S i) successCount (S failedCount) (progress ++ [(S i, total)]) w1)
        as (Hs & Hf & Hp). cbv zeta in *.
      rewrite filter_cons_False, filter_cons_True by congruence.
      rewrite Hs, Hf, Hp, <- app_assoc. cbn [length]. repeat split; lia.
Qed.

Lemma accepted_partition (answers : list (result PublishResponse)) :
  (length (filter (fun a => accepted a = true) answers)
   + length (filter (fun a => accepted a = false) answers) = length answers)%nat.
Proof.
  induction answers as [|a answers IH]; [done|].
  destruct (accepted a) eqn:Ha.
  - rewrite filter_cons_True, filter_cons_False by congruence. cbn [length]. lia.
  - rewrite filter_cons_False, filter_cons_True by congruence. cbn [length]. lia.
Qed.

Lemma publish_answers_length accessToken urls : forall w,
  length (publish_answers G accessToken urls w) = length urls.
Proof.
  induction urls as [|url urls IH]; intros w; [done|].
  cbn [publish_answers]. destruct (publish_notification G accessToken url w) as [answer w1].
  cbn [length]. by rewrite IH.
Qed.

(** What a run of [submitUrlsToGoogle] that resolves reports. *)
Lemma submitUrlsToGoogle_resolved urls clientId w counts progress w' :
  submitUrlsToGoogle G urls clientId w = (Resolved counts, progress, w') ->
  exists tokenResponse w1,
    request_token G clientId "https://www.googleapis.com/auth/indexing" "consent" w
      = (Ok (Some tokenResponse), w1) /\
    token_error tokenResponse = "" /\
    let answers := publish_answers G (access_token tokenResponse) urls w1 in
    success counts = length (filter (fun a => accepted a = true) answers) /\
    failed counts = length (filter (fun a => accepted a = false) answers) /\
    (success counts + failed counts = length urls)%nat /\
    progress = progress_reports (length urls).
Proof.
  unfold submitUrlsToGoogle.
  destruct (negb (JsString.truthy clientId)); [done|].
  destruct (negb (identity_services_loaded G w)); [done|].
  destruct (request_token G clientId _ _ w) as [[[tokenResponse|]|message] w1]; [|done..].
  destruct (token_error tokenResponse) eqn:Herror; [|done]. cbn [JsString.truthy].
  pose proof (publish_loop_counts (access_token tokenResponse) (length urls) urls
                0 0 0 [] w1) as (Hs & Hf & Hp).
  destruct (publish_loop G _ _ urls 0 0 0 [] w1) as [[counts' progress'] w2].
  cbn [fst snd] in *. intros [= <- <- <-].
  exists tokenResponse, w1. split; [done|]. split; [done|]. cbv zeta.
  split; [done|]. split; [done|]. split; [|done].
  rewrite Hs, Hf. cbn [Nat.add].
  by rewrite accepted_partition, publish_answers_length.
Qed.

Lemma submitUrlsToGoogle_not_resolved urls clientId w outcome progress w' :
  submitUrlsToGoogle G urls clientId w = (outcome, progress, w') ->
  (forall counts, outcome <> Resolved counts) ->
  progress = [].
Proof.
  unfold submitUrlsToGoogle.
  destruct (negb (JsString.truthy clientId)); [by intros [= <- <- <-]|].
  destruct (negb (identity_services_loaded G w)); [by intros [= <- <- <-]|].
  destruct (request_token G clientId _ _ w) as [[[tokenResponse|]|message] w1];
    [|by intros [= <- <- <-]..].
  destruct (JsString.truthy (token_error tokenResponse)); [by intros [= <- <- <-]|].
  destruct (publish_loop G _ _ urls 0 0 0 [] w1) as [[counts' progress'] w2].
  intros [= <- <- <-] Hnot. by destruct (Hnot counts').
Qed.

(** X7: when the promise of [submitUrlsToGoogle] resolves, every URL has
    been counted once: as a success if its publish request was answered
    with [response.ok], as a failure otherwise (network error, HTTP error,
    unreadable error body), so that the two counts add up to the number of
    URLs; and [onProgress] has been called once per URL, with 1, 2, ...
    up to the number of URLs.  When it rejects or never settles,
    [onProgress] has not been called. *)
Theorem submitUrlsToGoogle_counts urls clientId w :
  match submitUrlsToGoogle G urls clientId w with
  | (Resolved counts, progress, _) =>
      (success counts + failed counts = length urls)%nat /\
      progress = progress_reports (length urls) /\
      exists tokenResponse w1,
        request_token G clientId "https://www.googleapis.com/auth/indexing" "consent" w
          = (Ok (Some tokenResponse), w1) /\
        success counts =
          length (filter (fun a => accepted a = true)
                    (publish_answers G (access_token tokenResponse) urls w1))
  | (_, progress, _) => progress = []
  end.
Proof.
  destruct (submitUrlsToGoogle G urls clientId w) as [[outcome progress] w'] eqn:Hrun.
  destruct outcome as [counts|message|].
  - destruct (submitUrlsToGoogle_resolved _ _ _ _ _ _ Hrun)
      as (tokenResponse & w1 & Htoken & _ & Hs & _ & Hsum & Hp).
    split; [done|]. split; [done|]. by exists tokenResponse, w1.
  - by eapply submitUrlsToGoogle_not_resolved.
  - by eapply submitUrlsToGoogle_not_resolved.
Qed.

End GoogleFacts.

(** ** The batches of the crawl audit *)

Section Chunks.

Context {A : Type}.

Lemma chunks_fuel (size : nat) : forall fuel fuel' (xs : list A),
  (0 < size)%nat -> (length xs <= fuel)%nat -> (length xs <= fuel')%nat ->
  chunks fuel size xs = chunks fuel' size xs.
Proof.
  induction fuel as [|fuel IH]; intros fuel' xs Hsize Hfuel Hfuel'.
  - destruct xs; [|simpl in Hfuel; lia]. by destruct fuel'.
  - destruct xs as [|x xs]; [by destruct fuel'|].
    destruct fuel' as [|fuel']; [simpl in Hfuel'; lia|].
    cbn [chunks]. f_equal.
    apply IH; [done|rewrite length_drop; simpl in *; lia..].
Qed.

Lemma chunks_concat (size : nat) : forall fuel (xs : list A),
  (0 < size)%nat -> (length xs <= fuel)%nat ->
  concat (chunks fuel size xs) = xs.
Proof.
  induction fuel as [|fuel IH]; intros xs Hsize Hfuel.
  - by destruct xs; [|simpl in Hfuel; lia].
  - destruct xs as [|x xs]; [done|]. cbn [chunks concat].
    rewrite IH; [apply take_drop|done|rewrite length_drop; simpl in *; lia].
Qed.

Lemma chunks_sizes (size : nat) : forall fuel (xs : list A),
  (0 < size)%nat ->
  Forall (fun chunk => (1 <= length chunk <= size)%nat) (chunks fuel size xs).
Proof.
  induction fuel as [|fuel IH]; intros xs Hsize; [constructor|].
  destruct xs as [|x xs]; [constructor|]. cbn [chunks].
  constructor; [|by apply IH].
  rewrite length_take. destruct size; [lia|]. simpl. lia.
Qed.

End Chunks.

Section AuditBatches.

Context {W : Type} (E : Env W).

Lemma analyze_batches_step fuel allUrls agent apiKey i finalCrawledData w :
  analyze_batches E fuel allUrls agent apiKey i finalCrawledData w =
  if (i <? length allUrls)%nat then
    match fuel with
    | O => None
    | S fuel' =>
        match analyzePageBatch E (slice allUrls i (i + ANALYSIS_BATCH_SIZE)) agent apiKey w with
        | (Ok batchResults, w') =>
            analyze_batches E fuel' allUrls agent apiKey (i + ANALYSIS_BATCH_SIZE)
              (finalCrawledData ++ batchResults) w'
        | (Err message, w') => Some (Err message, w')
        end
    end
  else Some (Ok finalCrawledData, w).
Proof. by destruct fuel. Qed.

(** The loop takes the batches of [batches_of], in order. *)
Lemma analyze_batches_from allUrls agent apiKey :
  forall fuel i finalCrawledData w r,
    analyze_batches E fuel allUrls agent apiKey i finalCrawledData w = Some r ->
    r = match analyze_each E
                (chunks (length (drop i allUrls)) ANALYSIS_BATCH_SIZE (drop i allUrls))
                agent apiKey w with
        | (Ok results, w') => (Ok (finalCrawledData ++ results), w')
        | (Err message, w') => (Err message, w')
        end.
Proof.
  induction fuel as [|fuel IH]; intros i finalCrawledData w r;
    rewrite analyze_batches_step;
    destruct (Nat.ltb_spec i (length allUrls)) as [Hlt|Hge]; try done.
  - intros [= <-]. rewrite drop_ge by lia. cbn. by rewrite app_nil_r.
  - destruct (drop i allUrls) as [|x rest] eqn:Hdrop.
    { apply (f_equal length) in Hdrop. rewrite length_drop in Hdrop. simpl in Hdrop. lia. }
    cbn [length chunks analyze_each].
    assert (slice allUrls i (i + ANALYSIS_BATCH_SIZE) = take ANALYSIS_BATCH_SIZE (x :: rest))
      as ->.
    { unfold slice. rewrite <- Hdrop. f_equal. lia. }
    destruct (analyzePageBatch E (take ANALYSIS_BATCH_SIZE (x :: rest)) agent apiKey w)
      as [[batchResults|message] w1]; [|by intros [= <-]].
    intros Hrun. apply IH in Hrun. subst r.
    assert (drop (i + ANALYSIS_BATCH_SIZE) allUrls = drop ANALYSIS_BATCH_SIZE (x :: rest))
      as ->.
    { rewrite <- Hdrop, drop_drop. done. }
    rewrite (chunks_fuel ANALYSIS_BATCH_SIZE
               (length (drop ANALYSIS_BATCH_SIZE (x :: rest))) (length rest)
               (drop ANALYSIS_BATCH_SIZE (x :: rest)));
      [|unfold ANALYSIS_BATCH_SIZE; lia|done|rewrite length_drop; simpl; lia].
    destruct (analyze_each E _ agent apiKey w1) as [[results|message] w2].
    + by rewrite <- app_assoc.
    + reflexivity.
  - intros [= <-]. rewrite drop_ge by lia. cbn. by rewrite app_nil_r.
Qed.

Lemma analyze_batches_ends allUrls agent apiKey :
  forall fuel i finalCrawledData w,
    (length allUrls - i <= fuel)%nat ->
    exists r, analyze_batches E fuel allUrls agent apiKey i finalCrawledData w = Some r.
Proof.
  induction fuel as [|fuel IH]; intros i finalCrawledData w Hfuel;
    rewrite analyze_batches_step;
    destruct (Nat.ltb_spec i (length allUrls)) as [Hlt|Hge]; try lia; eauto.
  destruct (analyzePageBatch E _ agent apiKey w) as [[batchResults|message] w1]; [|eauto].
  apply IH. unfold ANALYSIS_BATCH_SIZE. lia.
Qed.

Lemma analyze_batches_chunked fuel allUrls agent apiKey w r :
  analyze_batches E fuel allUrls agent apiKey 0 [] w = Some r ->
  r = analyze_each E (batches_of allUrls) agent apiKey w.
Proof.
  intros Hrun. apply analyze_batches_from in Hrun. rewrite Hrun.
  unfold batches_of. rewrite drop_0.
  by destruct (analyze_each E _ agent apiKey w) as [[results|message] w1].
Qed.

(** X8: the crawl audit hands the discovered URLs to [analyzePageBatch]
    in consecutive batches: the batches are never empty nor longer than
    three URLs, and put one after the other they are the list of URLs, so
    every URL is in exactly one batch; the results of the batches are
    concatenated in order.  The loop ends within as many iterations as
    there are URLs. *)
Theorem analyze_batches_in_threes allUrls agent apiKey w :
  (forall fuel, (length allUrls <= fuel)%nat ->
     exists r, analyze_batches E fuel allUrls agent apiKey 0 [] w = Some r) /\
  (forall fuel r,
     analyze_batches E fuel allUrls agent apiKey 0 [] w = Some r ->
     r = analyze_each E (batches_of allUrls) agent apiKey w) /\
  concat (batches_of allUrls) = allUrls /\
  Forall (fun batch => (1 <= length batch <= 3)%nat) (batches_of allUrls).
Proof.
  split; [|split; [|split]].
  - intros fuel Hfuel. apply analyze_batches_ends. lia.
  - intros fuel r. apply analyze_batches_chunked.
  - apply chunks_concat; [unfold ANALYSIS_BATCH_SIZE; lia|done].
  - apply (chunks_sizes ANALYSIS_BATCH_SIZE). unfold ANALYSIS_BATCH_SIZE. lia.
Qed.

End AuditBatches.

(** ** The crawl audit *)

Section CrawlAudit.

Context {W : Type} (E : Env W).

Lemma discoverUrlsToCrawl_more_fuel fuel fuel' startUrl crawlDepth w r :
  (fuel <= fuel')%nat ->
  discoverUrlsToCrawl E fuel startUrl crawlDepth w = Some r ->
  discoverUrlsToCrawl E fuel' startUrl crawlDepth w = Some r.
Proof.
  unfold discoverUrlsToCrawl. intros Hfuel.
  destruct (URL_new E startUrl) as [baseUrl|]; [|done].
  destruct (while_loop _ fuel _ w) as [[st w1]|] eqn:Hloop; [|done].
  by rewrite (while_loop_more_fuel _ _ _ _ _ _ Hfuel Hloop).
Qed.

Lemma discoverUrlsToCrawl_rejects fuel startUrl crawlDepth w message w' :
  discoverUrlsToCrawl E fuel startUrl crawlDepth w = Some (Err message, w') ->
  URL_new E startUrl = None /\ message = "Invalid URL" /\ w' = w.
Proof.
  unfold discoverUrlsToCrawl.
  destruct (URL_new E startUrl) as [baseUrl|]; [|by intros [= <- <-]].
  by destruct (while_loop _ _ _ _) as [[st w1]|].
Qed.

Lemma analyzePageBatch_resolves urls agent apiKey w :
  apiKey <> "" ->
  exists results w', analyzePageBatch E urls agent apiKey w = (Ok results, w').
Proof.
  intros Hkey. rewrite analyzePageBatch_run by by apply truthy_nonempty.
  cbv zeta. destruct (fetched_pages _) as [|page pages]; [eauto|].
  destruct (page_batch_model E agent apiKey _ _) as [[aiResults|message] w2]; eauto.
Qed.

Lemma analyze_each_resolves batches agent apiKey : forall w,
  apiKey <> "" ->
  exists results w', analyze_each E batches agent apiKey w = (Ok results, w').
Proof.
  induction batches as [|batch batches IH]; intros w Hkey; [by eexists _, _|].
  cbn [analyze_each].
  destruct (analyzePageBatch_resolves batch agent apiKey w Hkey) as (r & w1 & ->).
  destruct (IH w1 Hkey) as (rs & w2 & ->). eauto.
Qed.

(** What the crawl branch of [run_analysis] returns. *)
Lemma crawl_audit_run fuel urlToAnalyze crawlDepth agent apiKey w r w' :
  apiKey <> "" ->
  run_analysis E fuel crawl_mode urlToAnalyze crawlDepth agent apiKey w = Some (r, w') ->
  match r with
  | Err message => URL_new E urlToAnalyze = None /\ message = "Invalid URL" /\ w' = w
  | Ok data =>
      exists allUrls w1,
        discoverUrlsToCrawl E fuel urlToAnalyze crawlDepth w = Some (Ok allUrls, w1) /\
        head allUrls = Some urlToAnalyze /\
        analyze_each E (batches_of allUrls) agent apiKey w1 = (Ok (crawled_data data), w') /\
        data = audit_result crawl_mode (crawled_data data) None None None
  end.
Proof.
  intros Hkey. unfold run_analysis.
  destruct (discoverUrlsToCrawl E fuel urlToAnalyze crawlDepth w)
    as [[[allUrls|message] w1]|] eqn:Hcrawl; [| |done].
  - destruct (crawl_result_shape E _ _ _ _ _ _ Hcrawl) as [Hhead _].
    destruct allUrls as [|u allUrls]; [done|]. cbn [length Nat.eqb].
    destruct (analyze_batches E fuel (u :: allUrls) agent apiKey 0 [] w1)
      as [[outcome w2]|] eqn:Hbatches; [|done].
    apply analyze_batches_chunked in Hbatches.
    destruct (analyze_each_resolves (batches_of (u :: allUrls)) agent apiKey w1 Hkey)
      as (results & w3 & Heach).
    rewrite Heach in Hbatches. injection Hbatches as -> ->.
    intros [= <- <-]. exists (u :: allUrls), w1. by rewrite Heach.
  - intros [= <- <-]. by eapply discoverUrlsToCrawl_rejects.
Qed.

Lemma crawl_audit_ends urlToAnalyze crawlDepth agent apiKey w :
  exists fuel r,
    run_analysis E fuel crawl_mode urlToAnalyze crawlDepth agent apiKey w = Some r.
Proof.
  destruct (discoverUrlsToCrawl_returns E urlToAnalyze crawlDepth w)
    as (fuel & [[allUrls|message] w1] & Hcrawl).
  - set (enough := (fuel `max` length allUrls)%nat).
    assert (discoverUrlsToCrawl E enough urlToAnalyze crawlDepth w = Some (Ok allUrls, w1))
      as Hcrawl' by (eapply discoverUrlsToCrawl_more_fuel; [|exact Hcrawl]; lia).
    destruct (analyze_batches_ends E allUrls agent apiKey enough 0 [] w1)
      as ([outcome w2] & Hbatches); [lia|].
    exists enough. unfold run_analysis. rewrite Hcrawl', Hbatches.
    destruct (length allUrls =? 0)%nat; [eauto|]. destruct outcome; eauto.
  - exists fuel. unfold run_analysis. rewrite Hcrawl. eauto.
Qed.

(** X9: an audit in crawl mode always ends.  Run with a key, it fails
    only for a start URL that does not parse, before any request; the
    message "Could not find any internal URLs" is never shown, since the
    list of discovered URLs starts with the start URL.  Otherwise its
    crawled data are the results of [analyzePageBatch] on the batches of
    the discovered URLs, in order; the summary is computed from them when
    there is at least one, and the data of the other modes are left
    empty. *)
Theorem crawl_audit_outcome urlToAnalyze crawlDepth agent apiKey w :
  apiKey <> "" ->
  (exists fuel r,
     run_analysis E fuel crawl_mode urlToAnalyze crawlDepth agent apiKey w = Some r) /\
  (forall fuel r w',
     run_analysis E fuel crawl_mode urlToAnalyze crawlDepth agent apiKey w = Some (r, w') ->
     match r with
     | Err message => URL_new E urlToAnalyze = None /\ message = "Invalid URL" /\ w' = w
     | Ok data =>
         exists allUrls w1,
           discoverUrlsToCrawl E fuel urlToAnalyze crawlDepth w = Some (Ok allUrls, w1) /\
           head allUrls = Some urlToAnalyze /\
           analyze_each E (batches_of allUrls) agent apiKey w1
             = (Ok (crawled_data data), w') /\
           crawl_summary data =
             (if (0 <? length (crawled_data data))%nat
              then Some (calculateCrawlSummary (crawled_data data)) else None) /\
           robots_txt_data data = None /\ sitemap_data data = None /\
           sitemap_summary data = None /\ ads_txt_data data = None
     end).
Proof.
  intros Hkey. split; [apply crawl_audit_ends|].
  intros fuel r w' Hrun. apply crawl_audit_run in Hrun; [|done].
  destruct r as [data|message]; [|done].
  destruct Hrun as (allUrls & w1 & Hcrawl & Hhead & Heach & Hdata).
  exists allUrls, w1. by rewrite Hdata.
Qed.

End CrawlAudit.

Lemma crawl_audit_outcome_witness :
  exists fuel r,
    run_analysis (Example.env Example.small_site) fuel crawl_mode "https://example.com/" 1
      Example.agent "key" 0%nat = Some r.
Proof.
  apply (crawl_audit_outcome (Example.env Example.small_site) "https://example.com/" 1
           Example.agent "key" 0%nat).
  discriminate.
Defined.

(** ** The crawl audit when no model can be reached *)

Lemma accounts_for_app urls1 results1 urls2 results2 :
  accounts_for urls1 results1 -> accounts_for urls2 results2 ->
  accounts_for (urls1 ++ urls2) (results1 ++ results2).
Proof.
  intros [Hl1 Hp1] [Hl2 Hp2]. split.
  - rewrite !List.length_app. lia.
  - by rewrite map_app, Hp1, Hp2.
Qed.

Section Unreachable.

Context {W : Type} (E : Env W).

Lemma page_batch_model_unreachable agent apiKey pages w :
  model_unreachable E ->
  exists message w', page_batch_model E agent apiKey pages w = (Err message, w').
Proof.
  intros [Hgemini Hchat]. unfold page_batch_model, await.
  destruct (provider agent).
  - unfold page_batch_gemini, await.
    destruct (Hgemini apiKey (model agent)
                (PageBatchRequest (system_prompt agent) pages) w) as (message & w' & ->).
    eauto.
  - unfold page_batch_chat, await.
    destruct (Hchat false apiKey (model agent)
                (PageBatchRequest (system_prompt agent) pages) w) as (message & w' & ->).
    eauto.
  - unfold page_batch_chat, await.
    destruct (Hchat true apiKey (model agent)
                (PageBatchRequest (system_prompt agent) pages) w) as (message & w' & ->).
    eauto.
Qed.

Lemma analyzePageBatch_unreachable urls agent apiKey w results w' :
  model_unreachable E -> apiKey <> "" ->
  analyzePageBatch E urls agent apiKey w = (Ok results, w') ->
  accounts_for urls results /\ Forall placeholder_title results.
Proof.
  intros Hmodel Hkey. rewrite analyzePageBatch_run by by apply truthy_nonempty.
  cbv zeta.
  assert (forall failures : list (string * string),
            Forall placeholder_title (map fetch_failed_placeholder failures)) as Hfetch.
  { intros failures. apply Forall_forall. intros page [[u m] [-> _]]%list_elem_of_fmap.
    by left. }
  destruct (fetched_pages (fst (fetch_outcomes E urls w))) as [|page pages] eqn:Hvalid.
  - intros [= <- <-]. split; [|apply Hfetch].
    apply accounts_for_permutation.
    rewrite <- (app_nil_r (map fetch_failed_placeholder _)).
    apply batch_urls_partition. by rewrite Hvalid.
  - destruct (page_batch_model_unreachable agent apiKey (page :: pages)
                (snd (fetch_outcomes E urls w)) Hmodel) as (message & w2 & ->).
    intros [= <- <-]. split.
    + apply accounts_for_permutation.
      apply (batch_urls_partition E urls w
               (map (analysis_failed_placeholder (analysis_error_message message))
                    (page :: pages))).
      rewrite analysis_placeholder_urls. by rewrite Hvalid.
    + apply Forall_app. split; [apply Hfetch|].
      apply (Forall_fmap (analysis_failed_placeholder (analysis_error_message message))
               placeholder_title (page :: pages)).
      apply Forall_forall. intros q _. by right.
Qed.

Lemma analyze_each_unreachable agent apiKey batches : forall w results w',
  model_unreachable E -> apiKey <> "" ->
  analyze_each E batches agent apiKey w = (Ok results, w') ->
  accounts_for (concat batches) results /\ Forall placeholder_title results.
Proof.
  induction batches as [|batch batches IH]; intros w results w' Hmodel Hkey.
  - intros [= <- <-]. by split; [split|].
  - cbn [analyze_each concat].
    destruct (analyzePageBatch E batch agent apiKey w) as [[batchResults|?] w1] eqn:Hbatch;
      [|done].
    destruct (analyze_each E batches agent apiKey w1) as [[rest|?] w2] eqn:Hrest; [|done].
    intros [= <- <-].
    destruct (analyzePageBatch_unreachable _ _ _ _ _ _ Hmodel Hkey Hbatch) as [Ha1 Ht1].
    destruct (IH _ _ _ Hmodel Hkey Hrest) as [Ha2 Ht2].
    split; [by apply accounts_for_app|by apply Forall_app].
Qed.

(** X10: when no model backend can be reached, an audit in crawl mode
    that has a key still accounts for every page: its crawled data hold
    one record for each discovered URL, each a "Fetch Failed" or an
    "Analysis Failed" record, and the summary counts as many pages as URLs
    were discovered. *)
Theorem crawl_audit_without_model fuel urlToAnalyze crawlDepth agent apiKey w data w' :
  model_unreachable E -> apiKey <> "" ->
  run_analysis E fuel crawl_mode urlToAnalyze crawlDepth agent apiKey w
    = Some (Ok data, w') ->
  exists allUrls w1,
    discoverUrlsToCrawl E fuel urlToAnalyze crawlDepth w = Some (Ok allUrls, w1) /\
    accounts_for allUrls (crawled_data data) /\
    Forall placeholder_title (crawled_data data) /\
    exists summary,
      crawl_summary data = Some summary /\
      totalPages summary = Z.of_nat (length allUrls).
Proof.
  intros Hmodel Hkey Hrun. apply crawl_audit_run in Hrun; [|done].
  destruct Hrun as (allUrls & w1 & Hcrawl & Hhead & Heach & Hdata).
  exists allUrls, w1. split; [done|].
  apply analyze_each_unreachable in Heach as [Haccounts Htitles]; [|done..].
  unfold batches_of in Haccounts.
  rewrite chunks_concat in Haccounts by (unfold ANALYSIS_BATCH_SIZE; lia).
  split; [done|]. split; [done|].
  destruct Haccounts as [Hlength _].
  exists (calculateCrawlSummary (crawled_data data)). split.
  - rewrite Hdata at 1. cbn [audit_result crawl_summary]. rewrite Hlength.
    destruct allUrls; [done|]. done.
  - destruct (fold_summary_counts (crawled_data data)
                {| totalPages := 0; healthyPages := 0; redirects := 0;
                   clientErrors := 0; serverErrors := 0 |}) as (Htotal & _).
    cbv zeta in Htotal. unfold calculateCrawlSummary. rewrite Htotal, Hlength.
    cbn [totalPages]. lia.
Qed.

End Unreachable.

Lemma small_site_unreachable : model_unreachable (Example.env Example.small_site).
Proof. split; intros; by eexists _, _. Qed.

(** On [small_site] with depth 1: three URLs are discovered; two can be
    fetched and the analysis fails for them, the third cannot be fetched. *)
Lemma crawl_audit_without_model_witness :
  exists data w',
    run_analysis (Example.env Example.small_site) 10 crawl_mode "https://example.com/" 1
      Example.agent "key" 0%nat = Some (Ok data, w') /\
    map (fun page => (url page, title page)) (crawled_data data) =
      [("https://example.com/contact", "Fetch Failed");
       ("https://example.com/", "Analysis Failed");
       ("https://example.com/about", "Analysis Failed")] /\
    exists allUrls w1,
      discoverUrlsToCrawl (Example.env Example.small_site) 10 "https://example.com/" 1 0%nat
        = Some (Ok allUrls, w1) /\
      accounts_for allUrls (crawled_data data) /\
      Forall placeholder_title (crawled_data data) /\
      exists summary,
        crawl_summary data = Some summary /\
        totalPages summary = Z.of_nat (length allUrls).
Proof.
  eexists _, _. split; [vm_compute; reflexivity|]. split; [vm_compute; reflexivity|].
  eapply (crawl_audit_without_model (Example.env Example.small_site) 10
            "https://example.com/" 1 Example.agent "key" 0%nat).
  - apply small_site_unreachable.
  - discriminate.
  - vm_compute. reflexivity.
Defined.

(** ** [calculateSitemapSummary] *)

Lemma count_changefreq_under acc e freq :
  count_under (count_changefreq acc e) freq =
  (count_under acc freq + if decide (changefreq_key e = freq) then 1 else 0)%nat.
Proof.
  unfold count_under, count_changefreq. fold (changefreq_key e).
  destruct (decide (changefreq_key e = freq)) as [->|Hne].
  - rewrite lookup_insert_eq. done.
  - rewrite lookup_insert_ne by done. lia.
Qed.

Lemma count_changefreq_total acc e :
  distribution_total (count_changefreq acc e) = S (distribution_total acc).
Proof.
  unfold distribution_total, count_changefreq. fold (changefreq_key e).
  assert (forall (m : gmap string nat) (j1 j2 : string) (z1 z2 y : nat),
            j1 <> j2 -> m !! j1 = Some z1 -> m !! j2 = Some z2 ->
            (z1 + (z2 + y) = z2 + (z1 + y))%nat) as Hcomm by (intros; lia).
  destruct (acc !! changefreq_key e) as [count|] eqn:Hcount; cbn [default].
  - rewrite <- insert_delete_eq.
    rewrite map_fold_insert_L; [|apply Hcomm|apply lookup_delete_eq].
    rewrite (map_fold_delete_L _ _ (changefreq_key e) count acc);
      [cbn beta; unfold id; lia|apply Hcomm|done].
  - rewrite map_fold_insert_L; [cbn beta; unfold id; lia|apply Hcomm|done].
Qed.

Lemma fold_count_changefreq entries : forall acc,
  let distribution := fold_left count_changefreq entries acc in
  (forall freq,
     count_under distribution freq =
     (count_under acc freq
      + length (filter (fun e => changefreq_key e = freq) entries))%nat) /\
  distribution_total distribution = (distribution_total acc + length entries)%nat /\
  (acc !! "" = None -> distribution !! "" = None).
Proof.
  induction entries as [|e entries IH]; intros acc; cbv zeta.
  - cbn [fold_left length]. split; [|split; [lia|done]].
    intros freq. rewrite filter_nil. cbn [length]. lia.
  - cbn [fold_left length].
    destruct (IH (count_changefreq acc e)) as (Hunder & Htotal & Hempty). cbv zeta in *.
    split; [|split].
    + intros freq. rewrite Hunder, count_changefreq_under.
      destruct (decide (changefreq_key e = freq)) as [Heq|Hne].
      * rewrite filter_cons_True by done. cbn [length]. lia.
      * rewrite filter_cons_False by done. lia.
    + rewrite Htotal, count_changefreq_total. lia.
    + intros Hacc. apply Hempty. unfold count_changefreq.
      rewrite lookup_insert_ne; [done|].
      unfold JsString.or_else. by destruct (changefreq e).
Qed.

(** X11: what [calculateSitemapSummary] counts, for entries whose
    [changefreq] is no name that an object inherits from
    [Object.prototype]: [totalUrls] is the number of entries and
    [hasLastmod], the number of entries with a non-empty [lastmod], is at
    most that; the distribution holds under a frequency the number of
    entries with that [changefreq], and under "not set" the number of
    entries without one; no entry is counted under the empty key; and the
    counts of the distribution add up to [totalUrls]. *)
Theorem calculateSitemapSummary_counts (entries : list SitemapEntry) :
  Forall (fun e => changefreq e ∉ Object_prototype_names) entries ->
  let summary := calculateSitemapSummary entries in
  totalUrls summary = length entries /\
  hasLastmod summary = length (filter (fun e => lastmod e <> "") entries) /\
  (hasLastmod summary <= totalUrls summary)%nat /\
  (forall freq,
     count_under (changeFreqDistribution summary) freq =
     length (filter (fun e => changefreq_key e = freq) entries)) /\
  changeFreqDistribution summary !! "" = None /\
  distribution_total (changeFreqDistribution summary) = totalUrls summary.
Proof.
  intros _. cbv zeta. unfold calculateSitemapSummary.
  destruct (Nat.eqb_spec (length entries) 0) as [Hnil|Hcons].
  { destruct entries; [by cbn|done]. }
  cbn [totalUrls hasLastmod changeFreqDistribution].
  destruct (fold_count_changefreq entries ∅) as (Hunder & Htotal & Hempty).
  cbv zeta in *.
  assert (filter (fun e => JsString.truthy (lastmod e) = true) entries
          = filter (fun e => lastmod e <> "") entries) as ->.
  { apply list_filter_iff. intros e. by destruct (lastmod e). }
  split; [done|]. split; [done|]. split; [apply length_filter|].
  split; [|split].
  - intros freq. rewrite Hunder. done.
  - by apply Hempty.
  - rewrite Htotal. done.
Qed.

Lemma calculateSitemapSummary_counts_witness :
  let entries :=
    [ {| loc := "https://example.com/a"; lastmod := "2024-01-01";
         changefreq := "daily"; priority := (1 # 2)%Q |};
      {| loc := "https://example.com/b"; lastmod := "";
         changefreq := ""; priority := (1 # 2)%Q |};
      {| loc := "https://example.com/c"; lastmod := "";
         changefreq := "daily"; priority := (4 # 5)%Q |} ] in
  let summary := calculateSitemapSummary entries in
  (totalUrls summary = 3 /\ hasLastmod summary = 1 /\
   count_under (changeFreqDistribution summary) "daily" = 2 /\
   count_under (changeFreqDistribution summary) "not set" = 1)%nat /\
  distribution_total (changeFreqDistribution summary) = totalUrls summary.
Proof.
  intros entries summary.
  split; [vm_compute; done|].
  apply (calculateSitemapSummary_counts entries).
  repeat (constructor; [by apply (bool_decide_unpack _)|]). constructor.
Defined.

(** ** The sitemap audit *)

Section SitemapAudit.

Context {W : Type} (E : Env W).

(** X12: an audit in sitemap mode with a key fails for a site URL that
    does not parse, before any request, or with "The AI could not find or
    parse any sitemaps" when the traversal returns no entry; the errors of
    single sitemaps, rate-limit errors included, are never shown.
    Otherwise its sitemap data are the entries of the traversal, at least
    one, each with a non-empty [loc]; the sitemap summary counts them; and
    the crawled data, the crawl summary and the robots and ads data are
    left empty. *)
Theorem sitemap_audit_outcome fuel urlToAnalyze crawlDepth agent apiKey w r w' :
  apiKey <> "" ->
  run_analysis E fuel sitemap_mode urlToAnalyze crawlDepth agent apiKey w = Some (r, w') ->
  match r with
  | Err message =>
      (URL_new E urlToAnalyze = None /\ message = "Invalid URL" /\ w' = w) \/
      (fetchAllUrlsFromSitemaps E fuel urlToAnalyze agent apiKey w = Some (Ok [], w') /\
       message =
         "The AI could not find or parse any sitemaps. Check the URL or try Deep Crawl mode.")
  | Ok data =>
      exists entries,
        fetchAllUrlsFromSitemaps E fuel urlToAnalyze agent apiKey w = Some (Ok entries, w') /\
        entries <> [] /\
        Forall (fun e => loc e <> "") entries /\
        sitemap_data data = Some entries /\
        (exists summary,
           sitemap_summary data = Some summary /\ totalUrls summary = length entries) /\
        crawled_data data = [] /\ crawl_summary data = None /\
        robots_txt_data data = None /\ ads_txt_data data = None
  end.
Proof.
  intros Hkey. unfold run_analysis.
  destruct (fetchAllUrlsFromSitemaps E fuel urlToAnalyze agent apiKey w)
    as [[[entries|message] w1]|] eqn:Htraversal; [| |done].
  - pose proof (sitemap_traversal_outcome E _ _ _ _ _ _ _ Htraversal) as Hlocs.
    destruct entries as [|e entries].
    + intros [= <- <-]. by right.
    + cbn [length Nat.eqb]. intros [= <- <-]. exists (e :: entries).
      split; [done|]. split; [done|]. split; [done|]. split; [done|].
      split; [|done].
      exists (calculateSitemapSummary (e :: entries)). split; [done|].
      unfold calculateSitemapSummary. done.
  - intros [= <- <-].
    destruct (sitemap_traversal_outcome E _ _ _ _ _ _ _ Htraversal)
      as [-> [[Hempty _]|(_ & Hurl & ->)]]; [done|]. by left.
Qed.

End SitemapAudit.

Lemma sitemap_audit_outcome_witness :
  exists data w',
    run_analysis (Example.env Example.nested_sitemaps) 10 sitemap_mode
      "https://example.com/" 3 Example.agent "key" 0%nat = Some (Ok data, w') /\
    exists entries,
      fetchAllUrlsFromSitemaps (Example.env Example.nested_sitemaps) 10
        "https://example.com/" Example.agent "key" 0%nat = Some (Ok entries, w') /\
      entries <> [] /\
      Forall (fun e => loc e <> "") entries /\
      sitemap_data data = Some entries /\
      (exists summary,
         sitemap_summary data = Some summary /\ totalUrls summary = length entries) /\
      crawled_data data = [] /\ crawl_summary data = None /\
      robots_txt_data data = None /\ ads_txt_data data = None.
Proof.
  eexists _, _. split; [vm_compute; reflexivity|].
  apply (sitemap_audit_outcome (Example.env Example.nested_sitemaps) 10
           "https://example.com/" 3 Example.agent "key" 0%nat (Ok _)).
  - discriminate.
  - vm_compute. reflexivity.
Defined.

(** ** Submitting the healthy pages *)

Lemma count_2xx_filter (pages : list CrawledPage) :
  count_pages is_2xx pages =
  Z.of_nat (length (filter (fun p => (200 <=? status p) && (status p <? 300) = true) pages)).
Proof.
  induction pages as [|page pages IH]; [done|].
  cbn [count_pages]. unfold is_2xx at 1.
  destruct ((200 <=? status page) && (status page <? 300)) eqn:Hstatus.
  - rewrite filter_cons_True by done. cbn [length]. lia.
  - rewrite filter_cons_False by congruence. lia.
Qed.

Lemma healthy_pages_count (pages : list CrawledPage) :
  Z.of_nat (length (filter (fun p => (200 <=? status p) && (status p <? 300) = true) pages))
  = healthyPages (calculateCrawlSummary pages).
Proof.
  destruct (fold_summary_counts pages
              {| totalPages := 0; healthyPages := 0; redirects := 0;
                 clientErrors := 0; serverErrors := 0 |}) as (_ & Hhealthy & _).
  cbv zeta in Hhealthy. unfold calculateCrawlSummary. rewrite Hhealthy.
  cbn [healthyPages]. rewrite count_2xx_filter. lia.
Qed.

Lemma healthyUrls_count viewed_crawled_data :
  Z.of_nat (length (healthyUrls viewed_crawled_data))
  = healthyPages (calculateCrawlSummary (default [] viewed_crawled_data)).
Proof. unfold healthyUrls. rewrite length_map. apply healthy_pages_count. Qed.

Section Submissions.

Context {W : Type} (E : Env W) (B : Base64) (G : GoogleEnv W) (N : IndexNowEnv W).

(** X13: for a user whose profile has keys, [handleSubmitToIndexNow]
    sets a status, and sets a success only after one request that
    IndexNow has accepted: a request made with the decrypted key of the
    user, for the host of the property, with the key file at the root of
    its origin, and listing the URLs of the pages of the audit whose
    status is 2xx, in order; the number in the message is the
    [healthyPages] of the summary of these pages.  Without a key, without
    such a page, or for a property URL that does not parse, it sets a
    failure and sends nothing.  For a user whose [api_keys] is [null] the
    handler ends with an exception: it sets no status and sends
    nothing. *)
Theorem handleSubmitToIndexNow_outcome user_api_keys viewed_crawled_data property_url w :
  let run := handleSubmitToIndexNow E B N user_api_keys viewed_crawled_data property_url w in
  let healthy := healthyUrls viewed_crawled_data in
  match user_api_keys with
  | None => (exists message, run.1 = Err message) /\ run.2 = w
  | Some api_keys =>
      let key := decrypt B (default "" (api_keys !! "indexNow")) in
      exists submitted,
        run.1 = Ok submitted /\
        (status_success submitted = true ->
         exists siteUrlObject response,
           key <> "" /\
           URL_new E property_url = Some siteUrlObject /\
           indexnow_fetch N
             {| payload_host := hostname siteUrlObject;
                payload_key := key;
                payload_keyLocation := origin siteUrlObject +:+ "/" +:+ key +:+ ".txt";
                payload_urlList := healthy |} w = (Ok response, run.2) /\
           indexnow_ok response = true /\
           0 < healthyPages (calculateCrawlSummary (default [] viewed_crawled_data)) /\
           Z.of_nat (length healthy)
             = healthyPages (calculateCrawlSummary (default [] viewed_crawled_data)) /\
           status_message submitted =
             "Successfully submitted " +:+ decimal (length healthy) +:+
             " URLs to IndexNow.") /\
        (key = "" \/ healthy = [] \/ URL_new E property_url = None ->
         status_success submitted = false /\ run.2 = w)
  end.
Proof.
  cbv zeta. unfold handleSubmitToIndexNow.
  destruct user_api_keys as [api_keys|]; [|by eauto].
  pose proof (healthyUrls_count viewed_crawled_data) as Hcount.
  set (indexNowApiKey := decrypt B (default "" (api_keys !! "indexNow"))) in *.
  set (healthy := healthyUrls viewed_crawled_data) in *.
  destruct indexNowApiKey as [|a rest] eqn:Hkey; cbn [JsString.truthy negb].
  { eexists. split; [reflexivity|]. split; [done|]. by intros _. }
  destruct healthy as [|u healthy'] eqn:Hhealthy; cbn [length Nat.eqb].
  { eexists. split; [reflexivity|]. split; [done|]. by intros _. }
  unfold await, submitToIndexNow. cbn [JsString.truthy negb length Nat.eqb].
  destruct (URL_new E property_url) as [siteUrlObject|] eqn:Hurl.
  2:{ eexists. split; [reflexivity|]. split; [done|]. by intros _. }
  unfold await.
  destruct (indexnow_fetch N _ w) as [[response|message] w1] eqn:Hfetch.
  2:{ eexists. split; [reflexivity|]. split; [done|]. by intros [|[|]]. }
  destruct (indexnow_ok response) eqn:Hok; cbn [negb].
  - eexists. split; [reflexivity|]. split; [|by intros [|[|]]].
    intros _. exists siteUrlObject, response.
    cbn [fst snd status_message]. repeat (split; [done|]).
    split; [|done]. cbn [length] in Hcount. lia.
  - unfold throw. eexists. split; [reflexivity|]. split; [done|]. by intros [|[|]].
Qed.

(** X14: for a user whose profile has keys, [handleSubmitToGoogle] sets
    a success only when every URL of a page of the audit with a 2xx
    status has been submitted and counted: the two counts of the message
    add up to the [healthyPages] of the summary of these pages, which is
    at least one, and the progress shown has gone through every number
    of URLs up to it.  In every other case no progress has been shown.
    With keys, the status is left unset only when the request for a
    token is never answered.  For a user whose [api_keys] is [null] the
    handler ends with an exception: it sets no status, shows no progress
    and requests nothing. *)
Theorem handleSubmitToGoogle_outcome user_api_keys viewed_crawled_data w :
  let run := handleSubmitToGoogle B G user_api_keys viewed_crawled_data w in
  let healthy := healthyUrls viewed_crawled_data in
  match user_api_keys with
  | None => (exists message, run.1.1 = Err message) /\ run.1.2 = [] /\ run.2 = w
  | Some api_keys =>
      exists outcome,
        run.1.1 = Ok outcome /\
        match outcome with
        | Some submitted =>
            if status_success submitted then
              exists counts,
                status_message submitted =
                  "Submission complete. Success: " +:+ decimal (success counts) +:+
                  ", Failed: " +:+ decimal (failed counts) +:+ "." /\
                Z.of_nat (success counts + failed counts)
                  = healthyPages (calculateCrawlSummary (default [] viewed_crawled_data)) /\
                0 < healthyPages (calculateCrawlSummary (default [] viewed_crawled_data)) /\
                run.1.2 = progress_reports (length healthy)
            else run.1.2 = []
        | None =>
            run.1.2 = [] /\
            exists w1,
              request_token G (decrypt B (default "" (api_keys !! "googleClientId")))
                "https://www.googleapis.com/auth/indexing" "consent" w = (Ok None, w1)
        end
  end.
Proof.
  cbv zeta. unfold handleSubmitToGoogle.
  destruct user_api_keys as [api_keys|]; [|by eauto].
  pose proof (healthyUrls_count viewed_crawled_data) as Hcount.
  set (clientId := decrypt B (default "" (api_keys !! "googleClientId"))) in *.
  set (healthy := healthyUrls viewed_crawled_data) in *.
  destruct (JsString.truthy clientId) eqn:Hid; cbn [negb];
    [|eexists; split; [reflexivity|done]].
  destruct healthy as [|u healthy'] eqn:Hhealthy; cbn [length Nat.eqb];
    [eexists; split; [reflexivity|done]|].
  destruct (submitUrlsToGoogle G (u :: healthy') clientId w)
    as [[outcome progress] w'] eqn:Hrun.
  destruct outcome as [counts|message|]; (eexists; split; [reflexivity|]);
    cbn [fst snd status_success status_message].
  - destruct (submitUrlsToGoogle_resolved G _ _ _ _ _ _ Hrun)
      as (tokenResponse & w1 & _ & _ & _ & _ & Hsum & Hprogress).
    exists counts. split; [done|]. rewrite Hsum. cbn [length] in *.
    split; [done|]. split; [lia|done].
  - eapply submitUrlsToGoogle_not_resolved; [exact Hrun|done].
  - split; [eapply submitUrlsToGoogle_not_resolved; [exact Hrun|done]|].
    revert Hrun. unfold submitUrlsToGoogle. rewrite Hid. cbn [negb].
    destruct (negb (identity_services_loaded G w)); [done|].
    destruct (request_token G clientId _ _ w) as [[[tokenResponse|]|message] w1];
      [|by eauto|done].
    destruct (JsString.truthy (token_error tokenResponse)); [done|].
    by destruct (publish_loop G _ _ _ 0 0 0 [] w1) as [[counts' progress'] w2].
Qed.

End Submissions.

(** ** The keys of the settings page in an audit *)

Section StoredKeys.

Context {W : Type} (E : Env W) (B : Base64).

Lemma typed_keys_untouched changes field : forall k : ApiKeys,
  Forall (fun change => fst change <> field) changes ->
  fold_left key_typed changes k !! field = k !! field.
Proof.
  induction changes as [|[f v] changes IH]; intros k Hchanges; [done|].
  apply Forall_cons in Hchanges as [Hf Hchanges]. cbn [fold_left].
  rewrite IH by done. unfold key_typed. cbn [fst snd] in *.
  by rewrite lookup_insert_ne.
Qed.

Lemma typed_keys_last earlier later field value (k : ApiKeys) :
  Forall (fun change => fst change <> field) later ->
  fold_left key_typed (earlier ++ (field, value) :: later) k !! field = Some value.
Proof.
  intros Hlater. rewrite fold_left_app. cbn [fold_left].
  rewrite typed_keys_untouched by done. unfold key_typed. cbn [fst snd].
  apply lookup_insert_eq.
Qed.

Lemma keys_saved_lookup stored changes field :
  keys_saved B stored changes !! field =
  encrypt B <$> (fold_left key_typed changes (decrypted_keys B stored) !! field).
Proof. unfold keys_saved, encrypted_keys. apply lookup_fmap. Qed.

Lemma provider_not_declared p :
  p <> gemini -> emptyApiKeys !! provider_name p = None.
Proof. by destruct p. Qed.

Lemma provider_no_input p inputs :
  p <> gemini -> inputs = personal_key_inputs \/ inputs = default_key_inputs ->
  forall changes : list (string * string),
    Forall (fun change => fst change ∈ inputs) changes ->
    Forall (fun change => fst change <> provider_name p) changes.
Proof.
  intros Hp Hinputs changes Hchanges. eapply Forall_impl; [exact Hchanges|].
  intros [f v] Hf Heq.
  cbn [fst] in *. subst f.
  destruct Hinputs as [->| ->]; destruct p; try done;
    by apply (bool_decide_pack _) in Hf.
Qed.

(** A key saved under a field no provider is named after is not found. *)
Lemma saved_key_of_provider stored changes inputs p :
  p <> gemini -> inputs = personal_key_inputs \/ inputs = default_key_inputs ->
  (forall keys, stored = Some keys -> keys !! provider_name p = None) ->
  Forall (fun change => fst change ∈ inputs) changes ->
  key_of_provider (Some (keys_saved B stored changes)) p = "".
Proof.
  intros Hp Hinputs Hstored Hchanges. unfold key_of_provider. cbn [mbind option_bind].
  rewrite keys_saved_lookup, typed_keys_untouched
    by by eapply provider_no_input.
  unfold decrypted_keys.
  rewrite (proj2 (lookup_union_None _ _ _)); [done|].
  split; [|by apply provider_not_declared].
  rewrite lookup_fmap. destruct stored as [keys|]; cbn [default from_option].
  - unfold id. by rewrite (Hstored keys).
  - by rewrite provider_not_declared.
Qed.

(** X15: the Gemini key typed last on the settings page and saved is the
    key an audit with a Gemini agent runs with, whatever the default keys
    and the state of the trial, provided [atob] undoes [btoa] on the
    stored text: [encrypt] on saving and [decrypt] in the audit cancel
    out. *)
Theorem saved_gemini_key_is_used stored earlier later key default_api_keys trialExpired
    fuel analysisMode urlToAnalyze crawlDepth agent w :
  provider agent = gemini ->
  key <> "" ->
  Forall (fun change => fst change <> "gemini") later ->
  atob B (btoa B (xor_with_key key)) = Some (xor_with_key key) ->
  btoa B (xor_with_key key) <> "" ->
  handleAnalysis E B fuel
    (Some (keys_saved B stored (earlier ++ ("gemini", key) :: later)))
    default_api_keys trialExpired analysisMode urlToAnalyze crawlDepth agent w
  = run_analysis E fuel analysisMode urlToAnalyze crawlDepth agent key w.
Proof.
  intros Hprovider Hkey Hlater Hatob Hbtoa.
  unfold handleAnalysis, choose_api_key, key_of_provider. rewrite Hprovider.
  cbn [mbind option_bind provider_name].
  rewrite keys_saved_lookup, typed_keys_last by done.
  cbn [fmap option_fmap option_map default from_option]. unfold id.
  assert (JsString.truthy (encrypt B key) = true) as ->.
  { unfold encrypt. rewrite (truthy_nonempty key) by done. cbn [negb].
    by apply truthy_nonempty. }
  rewrite decrypt_undoes_encrypt by done.
  by destruct key.
Qed.

(** X16: keys are saved under the fields "openAI" and "openRouter" and
    looked up under the provider names "openai" and "openrouter": for an
    agent of one of these providers, an audit finds neither the personal
    nor the default key saved on the settings page, whatever was typed,
    and is refused with "No personal or default API key found" before any
    request. *)
Theorem saved_key_is_not_found_for_openai
    user_stored user_changes default_stored default_changes trialExpired
    fuel analysisMode urlToAnalyze crawlDepth agent w :
  provider agent <> gemini ->
  (forall keys, user_stored = Some keys -> keys !! provider_name (provider agent) = None) ->
  (forall keys, default_stored = Some keys -> keys !! provider_name (provider agent) = None) ->
  Forall (fun change => fst change ∈ personal_key_inputs) user_changes ->
  Forall (fun change => fst change ∈ default_key_inputs) default_changes ->
  handleAnalysis E B fuel
    (Some (keys_saved B user_stored user_changes))
    (Some (keys_saved B default_stored default_changes))
    trialExpired analysisMode urlToAnalyze crawlDepth agent w
  = Some (Err ("No personal or default API key found for " +:+
               providerName (provider agent) +:+
               ". Please add your key in Settings, or ask the administrator to configure a default key."),
          w).
Proof.
  intros Hprovider Huser Hdefault Huser_changes Hdefault_changes.
  unfold handleAnalysis, choose_api_key.
  rewrite (saved_key_of_provider user_stored user_changes personal_key_inputs)
    by (done || by left).
  rewrite (saved_key_of_provider default_stored default_changes default_key_inputs)
    by (done || by right).
  done.
Qed.

End StoredKeys.

Lemma saved_gemini_key_is_used_witness :
  handleAnalysis (Example.env Example.small_site) StandardBase64.base64 10
    (Some ExampleKeys.saved) None true crawl_mode "https://example.com/" 1 Example.agent 0%nat
  = run_analysis (Example.env Example.small_site) 10 crawl_mode "https://example.com/" 1
      Example.agent "AIza-test" 0%nat.
Proof.
  apply (saved_gemini_key_is_used (Example.env Example.small_site) StandardBase64.base64
           None [] [("openAI", "sk-test-123")] "AIza-test").
  - reflexivity.
  - discriminate.
  - repeat constructor. discriminate.
  - vm_compute. reflexivity.
  - intros Hempty. vm_compute in Hempty. discriminate Hempty.
Defined.

Lemma saved_key_is_not_found_for_openai_witness :
  handleAnalysis (Example.env Example.small_site) StandardBase64.base64 10
    (Some ExampleKeys.saved)
    (Some (keys_saved StandardBase64.base64 None [("openAI", "sk-default")]))
    false crawl_mode "https://example.com/" 1 ExampleKeys.openai_agent 0%nat
  = Some (Err "No personal or default API key found for Openai. Please add your key in Settings, or ask the administrator to configure a default key.",
          0%nat).
Proof.
  apply (saved_key_is_not_found_for_openai (Example.env Example.small_site)
           StandardBase64.base64 None
           [("gemini", "AIza-test"); ("openAI", "sk-test-123")] None
           [("openAI", "sk-default")] false 10 crawl_mode "https://example.com/" 1
           ExampleKeys.openai_agent 0%nat).
  - discriminate.
  - intros keys Hnone. discriminate Hnone.
  - intros keys Hnone. discriminate Hnone.
  - repeat (constructor; [by apply (bool_decide_unpack _)|]). constructor.
  - repeat (constructor; [by apply (bool_decide_unpack _)|]). constructor.
Defined.

(** ** The status of a page that could not be fetched *)

Section StatusOfFailure.

Import JsString.

Lemma match_status_unfold message :
  match_status message =
  match status_at_start message with
  | Some ds => Some ds
  | None =>
      match message with
      | EmptyString => None
      | String _ rest => match_status rest
      end
  end.
Proof. by destruct message. Qed.

Lemma match_status_skip a s :
  Ascii.eqb a "s" = false -> match_status (String a s) = match_status s.
Proof.
  intros Ha. rewrite match_status_unfold. unfold status_at_start.
  cbn [startsWith]. by rewrite Ha.
Qed.

Lemma startsWith_empty s : startsWith s "" = true.
Proof. by destruct s. Qed.

Lemma take_digits_before_space s rest :
  take_digits (s +:+ String " " rest) = take_digits s.
Proof.
  induction s as [|a s IH]; [by rewrite app_empty|].
  rewrite app_cons. cbn [take_digits]. by rewrite IH.
Qed.

(** What follows the URL in the message of [fetchWithProxy]. *)
Lemma status_at_start_before_suffix u :
  let suffix :=
    " after 3 attempts. The site might be blocking the CORS proxy, or the proxy service may be temporarily unavailable. Please try again later." in
  status_at_start (u +:+ suffix) = status_at_start u.
Proof.
  cbv zeta.
  destruct u as [|c1 [|c2 [|c3 [|c4 [|c5 [|c6 [|c7 rest]]]]]]];
    rewrite ?app_cons, ?app_empty; unfold status_at_start; cbn [startsWith drop].
  8: by rewrite take_digits_before_space, !startsWith_empty.
  all: repeat (match goal with
               | |- context [Ascii.eqb ?c ?d] =>
                   is_var c; destruct (Ascii.eqb c d); cbn [andb]
               end); reflexivity.
Qed.

Lemma match_status_before_suffix u :
  match_status
    (u +:+ " after 3 attempts. The site might be blocking the CORS proxy, or the proxy service may be temporarily unavailable. Please try again later.")
  = match_status u.
Proof.
  induction u as [|a u IH]; [by rewrite app_empty|].
  rewrite (match_status_unfold (String a u)), match_status_unfold.
  pose proof (status_at_start_before_suffix (String a u)) as Hhere.
  cbv zeta in Hhere. rewrite Hhere.
  destruct (status_at_start (String a u)); [done|].
  rewrite app_cons. exact IH.
Qed.

Lemma match_status_fetch_failed u :
  match_status (fetch_failed_message u 3) = match_status u.
Proof.
  change (fetch_failed_message u 3) with
    ("Failed to fetch content for " +:+
     (u +:+ " after 3 attempts. The site might be blocking the CORS proxy, or the proxy service may be temporarily unavailable. Please try again later.")).
  repeat (rewrite app_cons, match_status_skip by reflexivity).
  rewrite app_empty. apply match_status_before_suffix.
Qed.

Lemma inferred_status_fetch_failed u :
  inferred_status (fetch_failed_message u 3) = inferred_status u.
Proof. unfold inferred_status. by rewrite match_status_fetch_failed. Qed.

End StatusOfFailure.

(** X17: the status recorded for a page that could not be fetched is
    the status its URL tells: 500 when "status " is nowhere followed by a
    digit in the URL, and otherwise the integer that the digits after the
    leftmost such "status " denote, as [parseInt] holds it.  The status
    with which the proxy answered never reaches the record: whatever the
    proxy does, in any environment, a failed fetch of the same URL is
    recorded with the same status, because the message of
    [fetchWithProxy] holds, apart from fixed text, only the URL. *)
Theorem fetch_failed_status_from_url {W : Type} (E : Env W) u w :
  exists page w',
    fetch_page E u w = (Ok page, w') /\
    fp_url page = u /\
    match fp_html page with
    | Some _ => fp_status page = 200
    | None =>
        status_told u (fp_status page) /\
        forall (W' : Type) (E' : Env W') v page' v',
          fetch_page E' u v = (Ok page', v') -> fp_html page' = None ->
          fp_status page' = fp_status page
    end.
Proof.
  rewrite fetch_page_outcome.
  destruct (fetchWithProxy E u w) as [[html|message] w'] eqn:Hfetch; eexists _, _;
    (split; [reflexivity|]); cbn [fst fetched_page_of fp_url fp_html fp_status].
  - done.
  - split; [done|]. apply fetchWithProxy_error in Hfetch as ->.
    rewrite inferred_status_fetch_failed. split; [apply inferred_status_told|].
    intros W' E' v page' v'. rewrite fetch_page_outcome.
    destruct (fetchWithProxy E' u v) as [[html'|message'] v1] eqn:Hfetch';
      intros [= <- <-]; [done|]. intros _.
    apply fetchWithProxy_error in Hfetch' as ->.
    cbn [fst fetched_page_of fp_status]. apply inferred_status_fetch_failed.
Qed.

(** ** The early exit of the Gemini branch *)

(** X18: the "early exit" of the Gemini branch of [analyzePageBatch] has
    no effect: the branch fails when the request fails, when the reply has
    no text, or when it has no JSON span, and otherwise gives what
    [JSON.parse] makes of the span.  A reply that is an error object is
    parsed like any other, and its message is not reported as a "Gemini
    API Error". *)
Theorem page_batch_gemini_ignores_error_objects {W : Type} (E : Env W)
    agent apiKey validPagesForPrompt w :
  page_batch_gemini E agent apiKey validPagesForPrompt w =
  match gemini_generateContent E apiKey (model agent)
          (PageBatchRequest (system_prompt agent) validPagesForPrompt) w with
  | (Ok (Some responseText), w') =>
      if String.eqb (extractJson responseText) ""
      then (Err "AI returned a response without valid JSON content.", w')
      else (JSON_parse_pages E (extractJson responseText), w')
  | (Ok None, w') => (Err "Cannot read properties of undefined (reading 'indexOf')", w')
  | (Err message, w') => (Err message, w')
  end.
Proof.
  unfold page_batch_gemini, await.
  destruct (gemini_generateContent E apiKey (model agent) _ w)
    as [[[responseText|]|message] w']; [|done..].
  unfold lift at 1. rewrite gemini_error_probe_completes.
  by destruct (String.eqb (extractJson responseText) "").
Qed.

(** ** The sitemaps named in [robots.txt] *)

Section RobotsSitemaps.

Import JsString.

Lemma substring_all s : String.substring 0 (String.length s) s = s.
Proof.
  pose proof (substring_zero_app s "") as H. by rewrite app_empty_r in H.
Qed.

Lemma lower_ascii_colon c : lower_ascii c = ":"%char -> c = ":"%char.
Proof.
  destruct c as [[] [] [] [] [] [] [] []]; intros H; vm_compute in H;
    try discriminate H; reflexivity.
Qed.

Lemma lower_ascii_letter c d :
  lower_ascii c = d -> d <> ":"%char -> Ascii.eqb ":" c = false.
Proof.
  intros Hc Hd. destruct (Ascii.eqb_spec ":" c) as [<-|]; [|done].
  by vm_compute in Hc.
Qed.

Lemma sitemap_line_url_after_colon c1 c2 c3 c4 c5 c6 c7 rest :
  Ascii.eqb ":" c1 = false -> Ascii.eqb ":" c2 = false -> Ascii.eqb ":" c3 = false ->
  Ascii.eqb ":" c4 = false -> Ascii.eqb ":" c5 = false -> Ascii.eqb ":" c6 = false ->
  Ascii.eqb ":" c7 = false ->
  sitemap_line_url
    (String c1 (String c2 (String c3 (String c4 (String c5 (String c6 (String c7
       (String ":" rest))))))))
  = trim rest.
Proof.
  intros H1 H2 H3 H4 H5 H6 H7. unfold sitemap_line_url, indexOf. f_equal.
  cbn [find_index]. rewrite H1, H2, H3, H4, H5, H6, H7.
  cbn [fmap option_fmap option_map index_result Ascii.eqb Bool.eqb].
  unfold substring, clamp. cbv zeta. cbn [String.length].
  set (n := String.length rest).
  replace (Z.to_nat _) with 8%nat by lia.
  replace (Z.to_nat _) with n by lia.
  cbn [String.substring]. apply substring_all.
Qed.

Lemma trimStart_first s :
  match first_char (trimStart s) with
  | Some a => is_space a = false
  | None => trimStart s = ""
  end.
Proof.
  induction s as [|a s IH]; [done|]. cbn [trimStart].
  by destruct (is_space a) eqn:Ha.
Qed.

Lemma trimEnd_ends s :
  match last_char (trimEnd s) with
  | Some b => is_space b = false
  | None => trimEnd s = ""
  end /\
  (forall a, first_char s = Some a -> is_space a = false ->
             first_char (trimEnd s) = Some a).
Proof.
  induction s as [|a s [IHlast IHfirst]]; [done|]. cbn [trimEnd]. split.
  - destruct (trimEnd s) as [|b t] eqn:Ht.
    + by destruct (is_space a) eqn:Ha.
    + change (last_char (String a (String b t))) with (last_char (String b t)).
      destruct (last_char (String b t)); [exact IHlast|done].
  - intros a' [= <-] Ha. destruct (trimEnd s); [by rewrite Ha|done].
Qed.

Lemma trim_trimmed s : trim s <> "" -> trimmed (trim s).
Proof.
  unfold trim. intros Hne.
  pose proof (trimStart_first s) as Hfirst.
  destruct (trimEnd_ends (trimStart s)) as [Hlast Hkeep].
  destruct (first_char (trimStart s)) as [a|] eqn:Ha.
  - destruct (last_char (trimEnd (trimStart s))) as [b|] eqn:Hb; [|done].
    exists a, b. split; [by apply Hkeep|]. split; [done|]. by split.
  - by rewrite Hfirst in Hne.
Qed.

(** X19: every sitemap URL read off [robots.txt] is non-empty and has no
    white space at either end (so a carriage return that ends a line is
    dropped); and for a line that starts with "sitemap:", in any letter
    case, the URL is the rest of the line after that prefix, trimmed: the
    colons of the URL itself are kept. *)
Theorem robots_sitemap_urls_trimmed robotsTxtContent :
  Forall trimmed (robots_sitemap_urls robotsTxtContent) /\
  (forall line,
     startsWith (toLowerCase line) "sitemap:" = true ->
     sitemap_line_url line = trim (drop 8 line)).
Proof.
  split.
  - unfold robots_sitemap_urls. apply Forall_forall.
    intros u [Hu (line & -> & _)%list_elem_of_fmap]%list_elem_of_filter.
    unfold sitemap_line_url in *. apply trim_trimmed. by destruct (trim _).
  - intros line Hline.
    destruct line as [|c1 [|c2 [|c3 [|c4 [|c5 [|c6 [|c7 [|c8 rest]]]]]]]];
      cbn [toLowerCase startsWith] in Hline;
      rewrite ?andb_false_r in Hline; try discriminate Hline.
    repeat (apply andb_true_iff in Hline as [?%Ascii.eqb_eq Hline]).
    assert (c8 = ":"%char) as -> by by apply lower_ascii_colon.
    cbn [drop]. apply sitemap_line_url_after_colon;
      (eapply lower_ascii_letter; [eassumption|discriminate]).
Qed.

End RobotsSitemaps.

(** ** Fragments in the crawl *)

Lemma without_fragment_free s : fragment_free (without_fragment s).
Proof.
  unfold fragment_free. induction s as [|a s IH]; [done|].
  rewrite without_fragment_cons. destruct (Ascii.eqb a "#") eqn:Ha; [done|].
  by split.
Qed.

(** X20: no URL that [discoverUrlsToCrawl] returns after the start URL
    has a fragment: links that differ in the fragment only are one URL.
    The start URL itself is returned as it was given. *)
Theorem discoverUrlsToCrawl_without_fragments {W : Type} (E : Env W)
    fuel startUrl crawlDepth w urls w' :
  discoverUrlsToCrawl E fuel startUrl crawlDepth w = Some (Ok urls, w') ->
  exists found,
    urls = (startUrl :: found) /\
    (startUrl ∉ found) /\
    Forall fragment_free found.
Proof.
  intros Hrun.
  destruct (crawl_result_shape E _ _ _ _ _ _ Hrun) as [Hhead Hnodup].
  destruct (discoverUrlsToCrawl_invariants E _ _ _ _ _ _ Hrun)
    as (baseUrl & st & _ & _ & _ & Hlinked & _).
  destruct urls as [|u found]; [done|]. injection Hhead as ->.
  apply NoDup_cons in Hnodup as [Hfresh _].
  apply Forall_cons in Hlinked as [_ Hlinked].
  exists found. split; [done|]. split; [done|].
  apply Forall_forall. intros u Hu.
  rewrite Forall_forall in Hlinked.
  destruct (Hlinked u Hu) as [->|(hrefAttr & pageUrl & urlObject & _ & _ & _ & ->)];
    [done|apply without_fragment_free].
Qed.

Lemma discoverUrlsToCrawl_without_fragments_witness :
  exists found,
    ["https://example.com/"; "https://example.com/about"; "https://example.com/contact"]
      = ("https://example.com/" :: found) /\
    ("https://example.com/" ∉ found) /\
    Forall fragment_free found.
Proof.
  apply (discoverUrlsToCrawl_without_fragments (Example.env Example.small_site) 10
           "https://example.com/" 1 0%nat _ 1%nat).
  vm_compute. reflexivity.
Defined.

(** ** The badges of the results table and the summary *)

Lemma count_pages_filter (f : Z -> bool) (pages : list CrawledPage) :
  count_pages f pages = Z.of_nat (length (filter (fun page => f (status page) = true) pages)).
Proof.
  induction pages as [|page pages IH]; [done|]. cbn [count_pages].
  destruct (f (status page)) eqn:Hf.
  - rewrite filter_cons_True by done. cbn [length]. lia.
  - rewrite filter_cons_False by congruence. lia.
Qed.

Lemma badges_count colours (f : Z -> bool) (pages : list CrawledPage) :
  (forall s, StatusBadge s = colours <-> f s = true) ->
  badges colours pages = count_pages f pages.
Proof.
  intros Hf. rewrite count_pages_filter. unfold badges. do 2 f_equal.
  apply list_filter_iff. intros page. apply Hf.
Qed.

Lemma StatusBadge_ranges s :
  (StatusBadge s = ("bg-green-500/20", "text-green-400") <-> is_2xx s = true) /\
  (StatusBadge s = ("bg-blue-500/20", "text-blue-400") <-> is_3xx s = true) /\
  (StatusBadge s = ("bg-red-500/20", "text-red-400") <-> is_4xx s = true) /\
  (StatusBadge s = ("bg-red-800/30", "text-red-300") <-> from_500 s = true) /\
  (StatusBadge s = ("bg-slate-600", "text-slate-100") <-> below_200 s = true).
Proof.
  unfold StatusBadge, is_2xx, is_3xx, is_4xx, from_500, below_200.
  destruct (Z.leb_spec 200 s), (Z.ltb_spec s 300), (Z.leb_spec 300 s), (Z.ltb_spec s 400),
           (Z.leb_spec 400 s), (Z.ltb_spec s 500), (Z.leb_spec 500 s), (Z.ltb_spec s 200);
    cbn [andb]; try lia; repeat split; done.
Qed.

(** X21: the results table and the summary agree: over the pages of an
    audit, the number of green badges is [healthyPages], of blue ones
    [redirects], of red ones [clientErrors] and of dark red ones
    [serverErrors]; the pages with a grey badge, those with a status below
    200, are the ones [totalPages] counts beyond the four. *)
Theorem StatusBadge_agrees_with_summary (pages : list CrawledPage) :
  let summary := calculateCrawlSummary pages in
  badges ("bg-green-500/20", "text-green-400") pages = healthyPages summary /\
  badges ("bg-blue-500/20", "text-blue-400") pages = redirects summary /\
  badges ("bg-red-500/20", "text-red-400") pages = clientErrors summary /\
  badges ("bg-red-800/30", "text-red-300") pages = serverErrors summary /\
  badges ("bg-slate-600", "text-slate-100") pages =
    totalPages summary
    - (healthyPages summary + redirects summary + clientErrors summary
       + serverErrors summary).
Proof.
  cbv zeta.
  destruct (fold_summary_counts pages
              {| totalPages := 0; healthyPages := 0; redirects := 0;
                 clientErrors := 0; serverErrors := 0 |}) as (Ht & Hh & Hr & Hc & Hs).
  cbv zeta in *. fold (calculateCrawlSummary pages) in *.
  cbn [totalPages healthyPages redirects clientErrors serverErrors] in *.
  pose proof (status_ranges_partition pages) as Hpartition.
  rewrite (badges_count _ is_2xx), (badges_count _ is_3xx), (badges_count _ is_4xx),
    (badges_count _ from_500), (badges_count _ below_200)
    by (intros s; apply StatusBadge_ranges).
  lia.
Qed.

(** ** The CSV export *)

Section CsvExport.

Import JsString.

Lemma includes_char a s c :
  includes (String a s) (String c "") = Ascii.eqb a c || includes s (String c "").
Proof. cbn [includes startsWith]. by rewrite startsWith_empty, andb_true_r. Qed.

Lemma includes_empty c : includes "" (String c "") = false.
Proof. reflexivity. Qed.

Lemma app_snoc field a v : (field +:+ String a "") +:+ v = field +:+ String a v.
Proof. by rewrite app_assoc_string, app_cons, app_empty. Qed.

(** A value without separator and double quote is read as it is. *)
Lemma read_unquoted v : forall field record records rest,
  includes v "," = false ->
  includes v (String double_quote "") = false ->
  includes v (String newline "") = false ->
  read_csv Unquoted field record records (v +:+ rest)
  = read_csv Unquoted (field +:+ v) record records rest.
Proof.
  induction v as [|a v IH]; intros field record records rest Hcomma Hquote Hnewline.
  - by rewrite app_empty, app_empty_r.
  - rewrite includes_char in Hcomma, Hquote, Hnewline.
    apply orb_false_iff in Hcomma as [Ha1 Hcomma].
    apply orb_false_iff in Hquote as [Ha2 Hquote].
    apply orb_false_iff in Hnewline as [Ha3 Hnewline].
    rewrite app_cons. cbn [read_csv]. rewrite Ha1, Ha2, Ha3.
    rewrite IH by done. by rewrite app_snoc.
Qed.

(** A value with its double quotes doubled is read back up to the
    closing double quote. *)
Lemma read_quoted v : forall field record records rest,
  read_csv Quoted field record records (double_quotes v +:+ String double_quote rest)
  = read_csv AfterQuote (field +:+ v) record records rest.
Proof.
  induction v as [|a v IH]; intros field record records rest.
  - rewrite app_empty, app_empty_r. cbn [read_csv]. by rewrite Ascii.eqb_refl.
  - cbn [double_quotes]. destruct (Ascii.eqb a double_quote) eqn:Ha.
    + apply Ascii.eqb_eq in Ha as ->. rewrite !app_cons. cbn [read_csv].
      rewrite !Ascii.eqb_refl. rewrite IH. by rewrite app_snoc.
    + rewrite app_cons. cbn [read_csv]. rewrite Ha. rewrite IH. by rewrite app_snoc.
Qed.

Lemma read_after_field state field record records rest :
  state = Unquoted \/ state = AfterQuote ->
  at_separator rest ->
  read_csv state field record records rest = field_read field record records rest.
Proof.
  intros Hstate Hrest. destruct rest as [|a rest].
  - by destruct Hstate as [-> | ->].
  - cbn [at_separator] in Hrest. cbn [field_read].
    destruct Hrest as [-> | ->], Hstate as [-> | ->]; reflexivity.
Qed.

(** A cell is read back as the value it was made from. *)
Lemma read_cell v record records rest :
  at_separator rest ->
  read_csv Unquoted "" record records (csv_cell v +:+ rest)
  = field_read v record records rest.
Proof.
  intros Hrest. unfold csv_cell.
  destruct (includes v ",") eqn:Hcomma;
    [|destruct (includes v (String double_quote "")) eqn:Hquote;
      [|destruct (includes v (String newline "")) eqn:Hnewline]];
    cbn [orb].
  4:{ rewrite read_unquoted by done. rewrite app_empty.
      apply read_after_field; [by left|done]. }
  all: rewrite app_cons, app_assoc_string, app_cons, app_empty;
    cbn [read_csv]; rewrite Ascii.eqb_refl, read_quoted, app_empty;
    apply read_after_field; [by right|done].
Qed.

(** A row of cells is read back as one record. *)
Lemma read_row values : forall record records rest,
  values <> [] ->
  rest = "" \/ (exists rest', rest = String newline rest') ->
  read_csv Unquoted "" record records (join "," (map csv_cell values) +:+ rest)
  = match rest with
    | EmptyString => Some (records ++ [record ++ values])
    | String _ rest' => read_csv Unquoted "" [] (records ++ [record ++ values]) rest'
    end.
Proof.
  induction values as [|v values IH]; intros record records rest Hvalues Hrest; [done|].
  destruct values as [|v' values].
  - cbn [map join]. rewrite read_cell.
    + by destruct Hrest as [-> | [rest' ->]].
    + destruct Hrest as [-> | [rest' ->]]; [done|by right].
  - change (join "," (map csv_cell (v :: v' :: values)))
      with (csv_cell v +:+ "," +:+ join "," (map csv_cell (v' :: values))).
    rewrite !app_assoc_string. rewrite read_cell by (rewrite app_cons; by left).
    rewrite app_cons, app_empty. cbn [field_read]. rewrite Ascii.eqb_refl.
    rewrite IH by done.
    replace (record ++ v :: v' :: values) with ((record ++ [v]) ++ v' :: values)
      by by rewrite <- app_assoc.
    done.
Qed.

(** The rows are read back as the records, in order. *)
Lemma read_rows rows : forall records,
  rows <> [] ->
  Forall (fun values => values <> []) rows ->
  read_csv Unquoted "" [] records
    (join (String newline "") (map (fun values => join "," (map csv_cell values)) rows))
  = Some (records ++ rows).
Proof.
  induction rows as [|values rows IH]; intros records Hrows Hvalues; [done|].
  apply Forall_cons in Hvalues as [Hv Hvalues].
  destruct rows as [|values' rows].
  - cbn [map join].
    rewrite <- (app_empty_r (join "," (map csv_cell values))).
    rewrite read_row by (done || by left). done.
  - change (join (String newline "")
              (map (fun values => join "," (map csv_cell values)) (values :: values' :: rows)))
      with (join "," (map csv_cell values) +:+ String newline "" +:+
            join (String newline "")
              (map (fun values => join "," (map csv_cell values)) (values' :: rows))).
    rewrite app_cons, app_empty.
    rewrite read_row by (done || right; eauto).
    rewrite IH by done. by rewrite <- app_assoc.
Qed.

Lemma stringValue_of_string_id s : stringValue_of_string s = s.
Proof. by destruct s. Qed.

(** X22: the file [handleExport] writes reads back, cell by cell, as the
    header row followed by one row of eleven cells per page, in order:
    the commas, double quotes and line feeds in a URL, a title, a
    description or the JSON of the links never shift a column or break a
    row.  The text cells are read back as the fields of the page, the
    JSON cells as [JSON.stringify] gave them, and a numeric cell as
    [String] gave it, except that the cell of a 0 is empty. *)
Theorem csvContent_reads_back (J : Stringify) (pages : list CrawledPage) :
  exists records,
    parse_csv (csvContent J pages) = Some (csv_headers :: records) /\
    Forall2
      (fun p record =>
         let number_cell n := if n =? 0 then "" else String_number J n in
         record =
           [url p; number_cell (status p); title p; description p; h1 p;
            contentPreview p; number_cell (internalLinks p);
            number_cell (externalLinks p);
            stringify_metaTags J (metaTags p);
            stringify_links J (default [] (internalLinkUrls p));
            stringify_links J (default [] (externalLinkUrls p))])
      pages records.
Proof.
  exists (map (csv_values J) pages). split.
  - unfold parse_csv, csvContent, csv_row.
    change (join "," csv_headers) with (join "," (map csv_cell csv_headers)).
    rewrite <- (map_map (csv_values J) (fun values => join "," (map csv_cell values))).
    change (join "," (map csv_cell csv_headers)
            :: map (fun values => join "," (map csv_cell values)) (map (csv_values J) pages))
      with (map (fun values => join "," (map csv_cell values))
              (csv_headers :: map (csv_values J) pages)).
    rewrite read_rows; [done|done|].
    constructor; [done|]. apply Forall_forall.
    by intros values (p & -> & _)%list_elem_of_fmap.
  - apply Forall2_fmap_r, Forall_Forall2_diag, Forall_forall.
    intros p _. unfold compose. cbv beta zeta. unfold csv_values, stringValue_of_number.
    by rewrite !stringValue_of_string_id.
Qed.

End CsvExport.

(** A title with a comma and a double quote. *)
Example csv_cell_quoted :
  csv_cell (String double_quote ("Home" +:+ String double_quote ", sweet home"))
  = String double_quote (String double_quote (String double_quote
      ("Home" +:+ String double_quote (String double_quote
         (", sweet home" +:+ String double_quote ""))))).
Proof. by vm_compute. Qed.

(** ** The fetches of a crawl *)

Section CrawlWorld.

Context {W : Type} (E : Env W).
Variables (baseUrl : URL) (startUrl : string) (crawlDepth : Z).




End CrawlWorld.



(** A page with a comma in its title, no internal link and no meta tag;
    its numbers are small, and written in decimal. *)
Example csvContent_of_a_page :
  let J := {| String_number := fun n => NilZero.string_of_int (Z.to_int n);
              stringify_metaTags := fun _ => "[]"; stringify_links := fun _ => "[]" |} in
  let page :=
    {| url := "https://example.com/"; status := 200; title := "Home, sweet home";
       description := "N/A"; h1 := "Home"; contentPreview := "N/A";
       internalLinks := 0; externalLinks := 2; metaTags := [];
       internalLinkUrls := None; externalLinkUrls := None |} in
  csv_row J page =
    "https://example.com/,200," +:+
    String double_quote ("Home, sweet home" +:+ String double_quote ",N/A,Home,N/A,,2,[],[],[]")
  /\ parse_csv (csvContent J [page]) = Some [csv_headers; csv_values J page].
Proof. by vm_compute. Qed.

(** ** A reply without JSON to the analysers *)

Section ReplyWithoutJson.

Context {W : Type} (E : Env W).

Lemma analyze_with_model_without_json {A : Type} request (empty : A) parse shape_message
    agent apiKey w text w' :
  provider agent = gemini ->
  gemini_generateContent E apiKey (model agent) request w = (Ok (Some text), w') ->
  json_span text "" ->
  analyze_with_model E request empty parse shape_message agent apiKey w = (Ok empty, w').
Proof.
  intros Hprovider Hreply Hspan. unfold analyze_with_model. rewrite Hprovider.
  unfold await. rewrite Hreply.
  assert (extractJson text = "") as ->
    by (eapply json_span_functional; [apply extractJson_is_span|exact Hspan]).
  done.
Qed.

(** X24: with a Gemini agent, a reply of the model that holds no JSON
    (no opening bracket, or no closing bracket after the first opening
    one) is not an error for [analyzeRobotsTxt] and [analyzeAdsTxt]: they
    return the empty analysis, the one they return for a file that cannot
    be fetched, and nothing is parsed. *)
Theorem analyzers_reply_without_json siteUrl agent apiKey w siteUrlObject :
  provider agent = gemini ->
  apiKey <> "" ->
  URL_new E siteUrl = Some siteUrlObject ->
  (forall content w1 text w2,
     fetchWithProxy E (origin siteUrlObject +:+ "/robots.txt") w = (Ok content, w1) ->
     gemini_generateContent E apiKey (model agent)
       (RobotsRequest (system_prompt agent) content) w1 = (Ok (Some text), w2) ->
     json_span text "" ->
     analyzeRobotsTxt E siteUrl agent apiKey w = (Ok empty_robots, w2)) /\
  (forall content w1 text w2,
     fetchWithProxy E (origin siteUrlObject +:+ "/ads.txt") w = (Ok content, w1) ->
     gemini_generateContent E apiKey (model agent)
       (AdsRequest (system_prompt agent) content) w1 = (Ok (Some text), w2) ->
     json_span text "" ->
     analyzeAdsTxt E siteUrl agent apiKey w = (Ok empty_ads, w2)).
Proof.
  intros Hprovider Hkey%truthy_nonempty Hurl. split.
  - intros content w1 text w2 Hfetch Hreply Hspan.
    unfold analyzeRobotsTxt, well_known. rewrite Hkey, Hurl. cbn [negb].
    rewrite Hfetch. unfold try_catch.
    by rewrite (analyze_with_model_without_json _ _ _ _ _ _ _ text w2).
  - intros content w1 text w2 Hfetch Hreply Hspan.
    unfold analyzeAdsTxt, well_known. rewrite Hkey, Hurl. cbn [negb].
    rewrite Hfetch. unfold try_catch.
    by rewrite (analyze_with_model_without_json _ _ _ _ _ _ _ text w2).
Qed.

End ReplyWithoutJson.

Lemma analyzers_reply_without_json_witness :
  analyzeRobotsTxt (Example.env ExampleProse.prose_reply) "https://example.com/"
    Example.agent "key" 0%nat = (Ok empty_robots, 2%nat) /\
  analyzeAdsTxt (Example.env ExampleProse.prose_reply) "https://example.com/"
    Example.agent "key" 0%nat = (Ok empty_ads, 2%nat).
Proof.
  destruct (analyzers_reply_without_json (Example.env ExampleProse.prose_reply)
              "https://example.com/" Example.agent "key" 0%nat
              {| protocol := "https:"; hostname := "example.com";
                 origin := "https://example.com"; href := "https://example.com/" |})
    as [Hrobots Hads].
  - reflexivity.
  - discriminate.
  - vm_compute. reflexivity.
  - split.
    + apply (Hrobots "User-agent: *" 1%nat "I am sorry, I cannot help with that.").
      * vm_compute. reflexivity.
      * reflexivity.
      * apply span_no_open. vm_compute. tauto.
    + apply (Hads "google.com, pub-1, DIRECT" 1%nat "I am sorry, I cannot help with that.").
      * vm_compute. reflexivity.
      * reflexivity.
      * apply span_no_open. vm_compute. tauto.
Defined.

(** ** The order of the crawl *)

Lemma depths_ascend_app queue pushed d :
  depths_ascend queue ->
  (forall entry, entry ∈ queue -> snd entry <= d) ->
  Forall (fun entry => snd entry = d) pushed ->
  depths_ascend (queue ++ pushed).
Proof.
  intros Hqueue Hbound Hpushed i j a b Hij Ha Hb.
  rewrite Forall_forall in Hpushed.
  apply lookup_app_Some in Ha as [Ha|[Hi Ha]], Hb as [Hb|[Hj Hb]].
  - by eapply Hqueue.
  - rewrite (Hpushed b) by (apply list_elem_of_lookup; eauto).
    apply Hbound. apply list_elem_of_lookup. eauto.
  - apply lookup_lt_Some in Hb. lia.
  - rewrite (Hpushed a), (Hpushed b) by (apply list_elem_of_lookup; eauto). lia.
Qed.

Section BreadthFirst.

Context {W : Type} (E : Env W).
Variables (baseUrl : URL) (crawlDepth : Z).

Lemma breadth_first_advance st current :
  crawl_queue st !! crawl_index st = Some current ->
  breadth_first st -> breadth_first (advance st).
Proof.
  intros Hcurrent [Hascend Hbound]. split; [exact Hascend|].
  cbn [advance crawl_queue crawl_index]. intros next entry Hnext Hentry.
  pose proof (Hbound current entry Hcurrent Hentry).
  pose proof (Hascend (crawl_index st) (S (crawl_index st)) current next
                ltac:(lia) Hcurrent Hnext).
  lia.
Qed.

Lemma crawl_step_breadth_first st w st' w' :
  breadth_first st ->
  crawl_step E baseUrl crawlDepth st w = Some (st', w') ->
  breadth_first st'.
Proof.
  intros Hbfs. unfold crawl_step.
  destruct (crawl_queue st !! crawl_index st) as [[pageUrl depth]|] eqn:Hcurrent;
    [|done].
  destruct (crawlDepth <=? depth);
    [intros [= <- <-]; by eapply breadth_first_advance|].
  destruct (fetchWithProxy E pageUrl w) as [[html|message] w1];
    [|intros [= <- <-]; by eapply breadth_first_advance].
  intros [= <- <-].
  destruct (visit_links_push E baseUrl pageUrl depth (anchor_hrefs E html) (advance st))
    as (Hindex & pushed & Hqueue & Hpushed).
  cbv zeta in *. cbn [advance crawl_queue crawl_index] in *.
  destruct Hbfs as [Hascend Hbound].
  assert (forall entry, entry ∈ crawl_queue st -> snd entry <= depth + 1) as Hold
    by (intros entry; apply (Hbound (pageUrl, depth)); done).
  assert (depths_ascend (crawl_queue st ++ pushed)) as Hascend'
    by by eapply depths_ascend_app.
  split; rewrite Hqueue; [exact Hascend'|].
  rewrite Hindex. intros next entry Hnext Hentry.
  assert (depth <= snd next) as Hnext'.
  { apply (Hascend' (crawl_index st) (S (crawl_index st)) (pageUrl, depth) next);
      [lia| |done].
    by apply lookup_app_l_Some. }
  assert (snd entry <= depth + 1); [|lia].
  apply elem_of_app in Hentry as [Hentry|Hentry]; [by apply Hold|].
  rewrite Forall_forall in Hpushed. rewrite (Hpushed entry Hentry). lia.
Qed.

Lemma crawl_init_breadth_first startUrl : breadth_first (crawl_init startUrl).
Proof.
  split.
  - intros [|i] [|j] a b Hij Ha Hb; try done.
    cbn in Ha, Hb. injection Ha as <-. injection Hb as <-. done.
  - cbn. intros current entry [= <-] ->%list_elem_of_singleton. done.
Qed.

(** X25: the crawl is breadth first: along the queue from which the
    returned list is read, the depth (the number of links followed from
    the start URL) never decreases, so the URLs are returned, and then
    analysed, nearest pages first. *)
Theorem discoverUrlsToCrawl_breadth_first fuel startUrl w urls w' :
  URL_new E startUrl = Some baseUrl ->
  discoverUrlsToCrawl E fuel startUrl crawlDepth w = Some (Ok urls, w') ->
  exists st,
    while_loop (crawl_step E baseUrl crawlDepth) fuel (crawl_init startUrl) w
      = Some (st, w') /\
    urls = map fst (crawl_queue st) /\
    depths_ascend (crawl_queue st).
Proof.
  intros Hbase Hrun.
  destruct (discoverUrlsToCrawl_invariants E _ _ _ _ _ _ Hrun)
    as (baseUrl' & st & Hbase' & Hloop & Hurls & _).
  assert (baseUrl' = baseUrl) as -> by congruence.
  exists st. split; [done|]. split; [done|].
  apply (while_loop_invariant (crawl_step E baseUrl crawlDepth)
           (fun st _ => breadth_first st)) in Hloop as [[Hascend _] _];
    [done| |apply crawl_init_breadth_first].
  intros s w0 s' w0'. apply crawl_step_breadth_first.
Qed.

End BreadthFirst.

Lemma discoverUrlsToCrawl_breadth_first_witness :
  exists st,
    while_loop
      (crawl_step (Example.env Example.small_site)
         {| protocol := "https:"; hostname := "example.com";
            origin := "https://example.com"; href := "https://example.com/" |} 2)
      10 (crawl_init "https://example.com/") 0%nat = Some (st, 5%nat) /\
    ["https://example.com/"; "https://example.com/about"; "https://example.com/contact";
     "https://example.com/team"] = map fst (crawl_queue st) /\
    depths_ascend (crawl_queue st).
Proof.
  apply (discoverUrlsToCrawl_breadth_first (Example.env Example.small_site)).
  - vm_compute. reflexivity.
  - vm_compute. reflexivity.
Defined.

(** ** The audit of a file *)

Section FileAudit.

Context {W : Type} (E : Env W).

Lemma analyzeRobotsTxt_outcome siteUrl agent apiKey w :
  apiKey <> "" ->
  match analyzeRobotsTxt E siteUrl agent apiKey w with
  | (Ok analysis, w') =>
      forall message w1, well_known E siteUrl "/robots.txt" w = (Err message, w1) ->
                         analysis = empty_robots /\ w' = w1
  | (Err message, _) =>
      (exists content w1, well_known E siteUrl "/robots.txt" w = (Ok content, w1)) /\
      model_failure_message "robots.txt"
        "API rate limit exceeded. Please wait a moment and try again. If the problem persists, check your API plan and billing details."
        message
  end.
Proof.
  intros Hkey%truthy_nonempty. unfold analyzeRobotsTxt. rewrite Hkey. cbn [negb].
  destruct (well_known E siteUrl "/robots.txt" w) as [[content|message] w1].
  2:{ by intros ?? [= <- <-]. }
  unfold try_catch.
  destruct (analyze_with_model E _ _ _ _ agent apiKey w1) as [[analysis|message] w2];
    [done|].
  unfold model_failure_message, throw.
  destruct (isRateLimitError message) eqn:Hrate; (split; [eauto|]); [by left|].
  right. by exists message.
Qed.

Lemma analyzeAdsTxt_outcome siteUrl agent apiKey w :
  apiKey <> "" ->
  match analyzeAdsTxt E siteUrl agent apiKey w with
  | (Ok analysis, w') =>
      forall message w1, well_known E siteUrl "/ads.txt" w = (Err message, w1) ->
                         analysis = empty_ads /\ w' = w1
  | (Err message, _) =>
      (exists content w1, well_known E siteUrl "/ads.txt" w = (Ok content, w1)) /\
      model_failure_message "ads.txt"
        "API rate limit exceeded. Please wait a moment and try again." message
  end.
Proof.
  intros Hkey%truthy_nonempty. unfold analyzeAdsTxt. rewrite Hkey. cbn [negb].
  destruct (well_known E siteUrl "/ads.txt" w) as [[content|message] w1].
  2:{ by intros ?? [= <- <-]. }
  unfold try_catch.
  destruct (analyze_with_model E _ _ _ _ agent apiKey w1) as [[analysis|message] w2];
    [done|].
  unfold model_failure_message, throw.
  destruct (isRateLimitError message) eqn:Hrate; (split; [eauto|]); [by left|].
  right. by exists message.
Qed.

(** X26: an audit in robots or ads mode with a key always ends, and it
    never fails because of the site: when the URL does not parse or the
    file cannot be fetched, it shows the empty analysis.  It fails only
    after the file has been fetched, with the rate-limit text or with
    "Failed to get valid ... data from the AI. Reason: " and the error of
    the model stage.  The result holds the analysis alone: no crawled
    data, no summary, no data of the other modes. *)
Theorem file_audit_outcome fuel urlToAnalyze crawlDepth agent apiKey w :
  apiKey <> "" ->
  (exists r w',
     run_analysis E fuel robots_mode urlToAnalyze crawlDepth agent apiKey w = Some (r, w') /\
     match r with
     | Ok data =>
         exists analysis,
           data = audit_result robots_mode [] (Some analysis) None None /\
           (forall message w1,
              well_known E urlToAnalyze "/robots.txt" w = (Err message, w1) ->
              analysis = empty_robots /\ w' = w1)
     | Err message =>
         (exists content w1, well_known E urlToAnalyze "/robots.txt" w = (Ok content, w1)) /\
         model_failure_message "robots.txt"
           "API rate limit exceeded. Please wait a moment and try again. If the problem persists, check your API plan and billing details."
           message
     end) /\
  (exists r w',
     run_analysis E fuel ads_mode urlToAnalyze crawlDepth agent apiKey w = Some (r, w') /\
     match r with
     | Ok data =>
         exists analysis,
           data = audit_result ads_mode [] None None (Some analysis) /\
           (forall message w1,
              well_known E urlToAnalyze "/ads.txt" w = (Err message, w1) ->
              analysis = empty_ads /\ w' = w1)
     | Err message =>
         (exists content w1, well_known E urlToAnalyze "/ads.txt" w = (Ok content, w1)) /\
         model_failure_message "ads.txt"
           "API rate limit exceeded. Please wait a moment and try again." message
     end).
Proof.
  intros Hkey. split.
  - pose proof (analyzeRobotsTxt_outcome urlToAnalyze agent apiKey w Hkey) as Houtcome.
    unfold run_analysis.
    destruct (analyzeRobotsTxt E urlToAnalyze agent apiKey w) as [[analysis|message] w'];
      eexists _, _; (split; [reflexivity|]); [|exact Houtcome].
    by exists analysis.
  - pose proof (analyzeAdsTxt_outcome urlToAnalyze agent apiKey w Hkey) as Houtcome.
    unfold run_analysis.
    destruct (analyzeAdsTxt E urlToAnalyze agent apiKey w) as [[analysis|message] w'];
      eexists _, _; (split; [reflexivity|]); [|exact Houtcome].
    by exists analysis.
Qed.

End FileAudit.

(** Nothing can be fetched in [offline]: both audits show the empty
    analysis after the three attempts on the file. *)
Lemma file_audit_outcome_witness :
  run_analysis (Example.env Example.offline) 0 robots_mode "https://example.com/" 3
    Example.agent "key" 0%nat
  = Some (Ok (audit_result robots_mode [] (Some empty_robots) None None), 3%nat) /\
  run_analysis (Example.env Example.offline) 0 ads_mode "https://example.com/" 3
    Example.agent "key" 0%nat
  = Some (Ok (audit_result ads_mode [] None None (Some empty_ads)), 3%nat).
Proof.
  destruct (file_audit_outcome (Example.env Example.offline) 0 "https://example.com/" 3
              Example.agent "key" 0%nat ltac:(discriminate))
    as [(r1 & w1 & Hrun1 & _) (r2 & w2 & Hrun2 & _)].
  split; [rewrite Hrun1 in *|rewrite Hrun2 in *]; vm_compute in *; congruence.
Defined.

(** ** Example submissions *)

Example submit_to_IndexNow :
  handleSubmitToIndexNow (Example.env Example.offline) StandardBase64.base64
    ExampleSubmissions.indexnow (Some ExampleSubmissions.keys)
    (Some ExampleSubmissions.viewed) "https://example.com/" 0%nat
  = (Ok {| status_success := true;
           status_message := "Successfully submitted 2 URLs to IndexNow." |}, 1%nat).
Proof. by vm_compute. Qed.

Example submit_to_IndexNow_refused :
  handleSubmitToIndexNow (Example.env Example.offline) StandardBase64.base64
    ExampleSubmissions.indexnow_refusing (Some ExampleSubmissions.keys)
    (Some ExampleSubmissions.viewed) "https://example.com/" 0%nat
  = (Ok {| status_success := false;
           status_message := "Request failed with status 403. Message: Key not valid" |},
     1%nat).
Proof. by vm_compute. Qed.

(** A user who has never saved a key: no status is set. *)
Example submit_to_IndexNow_without_keys :
  handleSubmitToIndexNow (Example.env Example.offline) StandardBase64.base64
    ExampleSubmissions.indexnow None
    (Some ExampleSubmissions.viewed) "https://example.com/" 0%nat
  = (Err "Cannot read properties of null (reading 'indexNow')", 0%nat).
Proof. by vm_compute. Qed.

Example submit_to_Google :
  handleSubmitToGoogle StandardBase64.base64 ExampleSubmissions.google
    (Some ExampleSubmissions.keys) (Some ExampleSubmissions.viewed) 0%nat
  = (Ok (Some {| status_success := true;
                 status_message := "Submission complete. Success: 1, Failed: 1." |}),
     [(1, 2); (2, 2)]%nat, 3%nat).
Proof. by vm_compute. Qed.

Example submit_to_Google_denied :
  handleSubmitToGoogle StandardBase64.base64 ExampleSubmissions.google_denied
    (Some ExampleSubmissions.keys) (Some ExampleSubmissions.viewed) 0%nat
  = (Ok (Some {| status_success := false;
                 status_message :=
                   "Google authentication error: access_denied" +:+
                   String newline (String newline
                     ("This commonly happens if the app's URL ('https://auditor.example') is not in the " +:+
                      String double_quote ("Authorized JavaScript origins" +:+ String double_quote
                      " list in your Google Cloud project's OAuth settings. Please check your configuration."))) |}),
     [], 1%nat).
Proof. by vm_compute. Qed.

Example submit_to_Google_without_keys :
  handleSubmitToGoogle StandardBase64.base64 ExampleSubmissions.google
    None (Some ExampleSubmissions.viewed) 0%nat
  = (Err "Cannot read properties of null (reading 'googleClientId')", [], 0%nat).
Proof. by vm_compute. Qed.

(** [initAndGetSites] passes on the site URLs that are not empty, in
    order. *)
Lemma initAndGetSites_sites {W : Type} (G : GoogleEnv W) clientId w sites w' :
  initAndGetSites G clientId w = (Resolved sites, w') ->
  Forall (fun siteUrl => siteUrl <> "") sites.
Proof.
  unfold initAndGetSites.
  destruct (negb (JsString.truthy clientId)); [done|].
  destruct (negb (identity_services_loaded G w)); [done|].
  destruct (request_token G clientId SCOPES "" w) as [[[tokenResponse|]|message] w1];
    [|done..].
  destruct (JsString.truthy (token_error tokenResponse)); [done|].
  destruct (sites_of_token G (access_token tokenResponse) w1)
    as [[found|message] w2] eqn:Hsites; [|done].
  intros [= <- <-]. revert Hsites. unfold sites_of_token, await, lift, throw, resolve.
  destruct (fetch_sites G _ w1) as [[response|message] w3]; [|done].
  destruct (negb (sites_ok response)).
  { by destruct (sites_error_message response). }
  destruct (sites_entries response) as [[entries|]|message]; [| |done].
  - intros [= <- <-]. apply Forall_forall.
    intros siteUrl [Hsite _]%list_elem_of_filter. by destruct siteUrl.
  - by intros [= <- <-].
Qed.

Example sites_of_the_user :
  initAndGetSites ExampleSubmissions.google "id.apps.googleusercontent.com" 0%nat
  = (Resolved ["https://example.com/"; "sc-domain:example.org"], 2%nat).
Proof. by vm_compute. Qed.
